(** * Linz traffic scraper: fetch, normalise, partition by day

    A shallow embedding of [linz_traffic_scraper.py] and the properties of
    its pipeline.  Python values are modelled by [pyval]; texts are lists of
    characters (code points below 256); dictionaries are association lists
    in insertion order; an exception raised inside a [try] block is [None]
    in the [option] monad. *)

From Stdlib Require Import String Ascii ZArith NArith Lia Bool Arith Permutation List.
Import ListNotations.

Set Warnings "-register-all,-notation-for-abbreviation".

Local Open Scope string_scope.
Local Open Scope list_scope.

(** ** Texts *)

Definition text := list ascii.

Definition lit (s : string) : text := list_ascii_of_string s.
Coercion lit : string >-> text.

Fixpoint text_eqb (a b : text) : bool :=
  match a, b with
  | [], [] => true
  | x :: a', y :: b' => Ascii.eqb x y && text_eqb a' b'
  | _, _ => false
  end.

Fixpoint is_prefix (p s : text) : bool :=
  match p, s with
  | [], _ => true
  | x :: p', y :: s' => Ascii.eqb x y && is_prefix p' s'
  | _ :: _, [] => false
  end.

(** [needle in haystack] on two [str]. *)
Fixpoint is_infix (p s : text) : bool :=
  is_prefix p s || match s with
                   | [] => false
                   | _ :: s' => is_infix p s'
                   end.

(** [s.split(sep)] for a one-character separator: never empty. *)
Fixpoint py_split (sep : ascii) (s : text) : list text :=
  match s with
  | [] => [[]]
  | c :: s' =>
      if Ascii.eqb c sep then [] :: py_split sep s'
      else match py_split sep s' with
           | [] => [[c]]
           | p :: ps => (c :: p) :: ps
           end
  end.

(** The text before the first occurrence of [c]; the whole text when [c]
    does not occur. *)
Fixpoint before_first (c : ascii) (s : text) : text :=
  match s with
  | [] => []
  | x :: s' => if Ascii.eqb x c then [] else x :: before_first c s'
  end.

(** The parts of a split, put together again with another separator. *)
Fixpoint join_with (d : ascii) (parts : list text) : text :=
  match parts with
  | [] => []
  | [p] => p
  | p :: ps => p ++ d :: join_with d ps
  end.

Definition count_char (c : ascii) (s : text) : nat := count_occ ascii_dec s c.

Definition replace_char (old new : ascii) (s : text) : text :=
  map (fun x => if Ascii.eqb x old then new else x) s.

(** ** Python values *)

Inductive pyval : Type :=
| PNone
| PBool (b : bool)
| PInt (n : Z)
| PStr (s : text)
| PList (l : list pyval)
| PDict (d : list (text * pyval)).

(** Truth value of an object, as tested by [if data:]. *)
Definition truthy (v : pyval) : bool :=
  match v with
  | PNone => false
  | PBool b => b
  | PInt n => negb (Z.eqb n 0)
  | PStr s => negb (Nat.eqb (length s) 0)
  | PList l => negb (Nat.eqb (length l) 0)
  | PDict d => negb (Nat.eqb (length d) 0)
  end.

(** ** Dictionaries: association lists in insertion order *)

Section Dict.
Context {V : Type}.

Fixpoint dict_get (k : text) (d : list (text * V)) : option V :=
  match d with
  | [] => None
  | (k', v) :: d' => if text_eqb k' k then Some v else dict_get k d'
  end.

Definition dict_has (k : text) (d : list (text * V)) : bool :=
  match dict_get k d with
  | Some _ => true
  | None => false
  end.

(** [d[k] = v]: replaces in place, or appends a new key at the end. *)
Fixpoint dict_set (k : text) (v : V) (d : list (text * V)) : list (text * V) :=
  match d with
  | [] => [(k, v)]
  | (k', v') :: d' =>
      if text_eqb k' k then (k', v) :: d' else (k', v') :: dict_set k v d'
  end.

Definition dict_keys (d : list (text * V)) : list text := map fst d.
End Dict.

(** ** Exceptions inside a [try] block *)

Notation "x <- a ;; b" :=
  (match a with
   | Some x => b
   | None => None
   end) (at level 61, a at next level, right associativity).

(** [needle in container]; [None] is the [TypeError] of a container that is
    not iterable. *)
Definition py_in (needle : text) (container : pyval) : option bool :=
  match container with
  | PStr s => Some (is_infix needle s)
  | PList l =>
      Some (existsb (fun v => match v with
                              | PStr s => text_eqb s needle
                              | _ => false
                              end) l)
  | PDict d => Some (dict_has needle d)
  | PNone | PBool _ | PInt _ => None
  end.

(** [v.split(sep)]; [None] is the [AttributeError] of a value that is not a
    [str]. *)
Definition py_str_split (v : pyval) (sep : ascii) : option (list text) :=
  match v with
  | PStr s => Some (py_split sep s)
  | _ => None
  end.

(** ** DayPartitioner: [process_traffic_data] *)

(** The body of the [try] block up to the dictionary lookup: the day-key
    computed from [record["datum"]].  The last step is the hashing done by
    [date_key not in organized_data]: a list or a dict is unhashable
    ([TypeError]); [None], booleans and numbers never get that far, since
    [" " in date] has already raised. *)
Definition date_key_of (date : pyval) : option text :=
  has_space <- py_in " " date ;;
  date_key <- (if has_space : bool
               then parts <- py_str_split date " "%char ;; Some (PStr (nth 0 parts []))
               else Some date) ;;
  has_slash <- py_in "/" date_key ;;
  date_key <- (if has_slash : bool
               then date_parts <- py_str_split date_key "/"%char ;;
                    if Nat.eqb (length date_parts) 3
                    then Some (PStr (nth 0 date_parts [] ++ "-"%char ::
                                     nth 1 date_parts [] ++ "-"%char ::
                                     nth 2 date_parts []))
                    else Some date_key
               else Some date_key) ;;
  match date_key with
  | PStr s => Some s
  | _ => None
  end.

(** The key under which the loop body files a record; [None] when the
    record is counted in [skipped_records]: not a dict, no ["datum"], or an
    exception while deriving the key. *)
Definition record_day_key (record : pyval) : option text :=
  match record with
  | PDict fields =>
      if dict_has "datum" fields
      then date <- dict_get "datum" fields ;; date_key_of date
      else None
  | _ => None
  end.

Definition buckets := list (text * list pyval).

(** [if date_key not in organized_data: organized_data[date_key] = []]
    followed by [organized_data[date_key].append(record)]. *)
Definition bucket_append (date_key : text) (record : pyval)
    (organized_data : buckets) : buckets :=
  let organized_data :=
    if dict_has date_key organized_data then organized_data
    else dict_set date_key [] organized_data in
  match dict_get date_key organized_data with
  | Some bucket => dict_set date_key (bucket ++ [record]) organized_data
  | None => organized_data
  end.

(** The records filed so far under a key. *)
Definition bucket_of (k : text) (od : buckets) : list pyval :=
  match dict_get k od with
  | Some b => b
  | None => []
  end.

(** One iteration of [for record in data], on the pair
    [(organized_data, skipped_records)]. *)
Definition organize_step (st : buckets * nat) (record : pyval) : buckets * nat :=
  let '(organized_data, skipped_records) := st in
  match record_day_key record with
  | Some date_key => (bucket_append date_key record organized_data, skipped_records)
  | None => (organized_data, S skipped_records)
  end.

Definition organize (data : list pyval) : buckets * nat :=
  fold_left organize_step data ([], 0).

Definition buckets_to_py (organized_data : buckets) : list (text * pyval) :=
  map (fun kb => (fst kb, PList (snd kb))) organized_data.

Definition unexpected (data : pyval) : list (text * pyval) :=
  [("unexpected_format" : text, PBool true); ("raw_data" : text, data)].

(** The returned dictionary, as its association list. *)
Definition process_traffic_data (data : pyval) : list (text * pyval) :=
  match data with
  | PDict d =>
      if dict_has "raw_text" d || dict_has "csv_text" d then d
      else unexpected data
  | PList records => buckets_to_py (fst (organize records))
  | _ => unexpected data
  end.

(** The number of records of [data] that the loop skips. *)
Definition skipped_records (data : list pyval) : nat := snd (organize data).

Definition total_records (organized_data : buckets) : nat :=
  list_sum (map (fun kb => length (snd kb)) organized_data).

(** *** The day-key in the words of the specification *)

(** Drop the time of day; then, when the date has exactly three
    slash-separated components, write dashes for the slashes. *)
Definition spec_day_key (datum : text) : text :=
  let date := before_first " "%char datum in
  if Nat.eqb (count_char "/"%char date) 2
  then replace_char "/"%char "-"%char date
  else date.

(** A canonical [MM-DD-YYYY] key is two digits for a month 01..12, a dash,
    two digits for a day 01..31, a dash, four digits. *)
Definition is_digit (c : ascii) : bool :=
  ((48 <=? nat_of_ascii c) && (nat_of_ascii c <=? 57))%nat.

Definition digit_val (c : ascii) : nat := nat_of_ascii c - 48.

(** Month, day and year in digits, with the given separator. *)
Definition is_mdy_with (sep : ascii) (k : text) : bool :=
  match k with
  | [m1; m2; s1; d1; d2; s2; y1; y2; y3; y4] =>
      forallb is_digit [m1; m2; d1; d2; y1; y2; y3; y4]
      && Ascii.eqb s1 sep && Ascii.eqb s2 sep
      && (1 <=? 10 * digit_val m1 + digit_val m2)%nat
      && (10 * digit_val m1 + digit_val m2 <=? 12)%nat
      && (1 <=? 10 * digit_val d1 + digit_val d2)%nat
      && (10 * digit_val d1 + digit_val d2 <=? 31)%nat
  | _ => false
  end.

Definition is_mm_dd_yyyy (k : text) : bool := is_mdy_with "-"%char k.

(** A record that the specification keeps out of the day buckets: not a
    mapping, no [datum], or a [datum] that is not a text. *)
Definition missing_or_unparsable (record : pyval) : bool :=
  match record with
  | PDict fields =>
      match dict_get "datum" fields with
      | Some (PStr _) => false
      | _ => true
      end
  | _ => true
  end.

(** The sum of the sizes of the buckets of a partitioned result. *)
Definition partition_size (result : list (text * pyval)) : nat :=
  list_sum (map (fun kv => match snd kv with
                           | PList bucket => length bucket
                           | _ => 0
                           end) result).

(** The records of the buckets of a partitioned result, bucket after
    bucket. *)
Definition partition_records (result : list (text * pyval)) : list pyval :=
  flat_map (fun kv => match snd kv with
                      | PList bucket => bucket
                      | _ => []
                      end) result.

(** ** Delimited text: the [csv] module *)

Definition LF : ascii := "010"%char.
Definition CR : ascii := "013"%char.
Definition DQUOTE : ascii := "034"%char.
Definition COMMA : ascii := ","%char.

(** Whitespace removed by [str.strip()], for code points below 256. *)
Definition is_space (c : ascii) : bool :=
  let n := nat_of_ascii c in
  ((9 <=? n) && (n <=? 13) || (28 <=? n) && (n <=? 32)
   || (n =? 133) || (n =? 160))%nat.

Fixpoint lstrip (s : text) : text :=
  match s with
  | [] => []
  | c :: s' => if is_space c then lstrip s' else s
  end.

Definition rstrip (s : text) : text := rev (lstrip (rev s)).

Definition strip (s : text) : text := rstrip (lstrip s).

(** *** [csv.reader] over [io.StringIO(text)]

    The reader takes the text line by line (a line ends after each line
    feed, the last one possibly without) and feeds its state machine every
    character of the line and then an end-of-line mark.  The dialect is
    the default one: comma delimiter, double-quote character, doubled quotes,
    no escape character, not strict.  The machine is that of CPython 3.11
    and later, where a NUL is a character like any other. *)

Inductive token : Type :=
| Ch (c : ascii)
| EOL.

Fixpoint tokens (s : text) : list token :=
  match s with
  | [] => []
  | c :: s' =>
      Ch c :: (if Ascii.eqb c LF then [EOL]
               else match s' with
                    | [] => [EOL]
                    | _ :: _ => []
                    end) ++ tokens s'
  end.

Inductive parser_state : Type :=
| START_RECORD
| START_FIELD
| IN_FIELD
| IN_QUOTED_FIELD
| QUOTE_IN_QUOTED_FIELD
| EAT_CRNL.

Record reader : Type := mkReader {
  state : parser_state;
  fields : list text;
  field : text
}.

Definition parse_reset : reader :=
  {| state := START_RECORD; fields := []; field := [] |}.

Definition set_state (st : parser_state) (r : reader) : reader :=
  {| state := st; fields := fields r; field := field r |}.

(** [csv.field_size_limit()] *)
Definition field_limit : N := 131072%N.

(** [None] is [_csv.Error]: field larger than field limit. *)
Definition parse_add_char (r : reader) (c : ascii) : option reader :=
  if (N.of_nat (length (field r)) <? field_limit)%N
  then Some {| state := state r; fields := fields r; field := field r ++ [c] |}
  else None.

Definition parse_save_field (r : reader) : reader :=
  {| state := state r; fields := fields r ++ [field r]; field := [] |}.

Definition is_newline (c : ascii) : bool := Ascii.eqb c LF || Ascii.eqb c CR.

Definition end_of_record (t : token) (r : reader) : reader :=
  set_state (match t with
             | EOL => START_RECORD
             | Ch _ => EAT_CRNL
             end) (parse_save_field r).

Definition ends_line (t : token) : bool :=
  match t with
  | EOL => true
  | Ch c => is_newline c
  end.

Definition start_field (r : reader) (t : token) : option reader :=
  match t with
  | EOL => Some (end_of_record t r)
  | Ch c =>
      if is_newline c then Some (end_of_record t r)
      else if Ascii.eqb c DQUOTE then Some (set_state IN_QUOTED_FIELD r)
      else if Ascii.eqb c COMMA then Some (set_state START_FIELD (parse_save_field r))
      else r' <- parse_add_char r c ;; Some (set_state IN_FIELD r')
  end.

(** [None] is [_csv.Error]. *)
Definition parse_process_char (r : reader) (t : token) : option reader :=
  match state r with
  | START_RECORD =>
      match t with
      | EOL => Some r
      | Ch c =>
          if is_newline c then Some (set_state EAT_CRNL r)
          else start_field r t
      end
  | START_FIELD => start_field r t
  | IN_FIELD =>
      match t with
      | EOL => Some (end_of_record t r)
      | Ch c =>
          if is_newline c then Some (end_of_record t r)
          else if Ascii.eqb c COMMA
               then Some (set_state START_FIELD (parse_save_field r))
               else parse_add_char r c
      end
  | IN_QUOTED_FIELD =>
      match t with
      | EOL => Some r
      | Ch c =>
          if Ascii.eqb c DQUOTE then Some (set_state QUOTE_IN_QUOTED_FIELD r)
          else parse_add_char r c
      end
  | QUOTE_IN_QUOTED_FIELD =>
      match t with
      | EOL => Some (end_of_record t r)
      | Ch c =>
          if Ascii.eqb c DQUOTE
          then r' <- parse_add_char r c ;; Some (set_state IN_QUOTED_FIELD r')
          else if Ascii.eqb c COMMA
               then Some (set_state START_FIELD (parse_save_field r))
               else if is_newline c then Some (end_of_record t r)
                    else r' <- parse_add_char r c ;; Some (set_state IN_FIELD r')
      end
  | EAT_CRNL =>
      match t with
      | EOL => Some (set_state START_RECORD r)
      | Ch c => if is_newline c then Some r else None
      end
  end.

Definition is_in_quoted (st : parser_state) : bool :=
  match st with
  | IN_QUOTED_FIELD => true
  | _ => false
  end.

(** All the rows the reader yields until [StopIteration]; [None] when one of
    the calls to [next] raises [_csv.Error].  A row is complete when the
    machine is back in [START_RECORD] after an end-of-line mark; at the end
    of the input a pending field closes the last row. *)
Fixpoint read_rows (r : reader) (toks : list token) : option (list (list text)) :=
  match toks with
  | [] =>
      if negb (Nat.eqb (length (field r)) 0) || is_in_quoted (state r)
      then Some [fields (parse_save_field r)]
      else Some []
  | t :: toks' =>
      r' <- parse_process_char r t ;;
      match t, state r' with
      | EOL, START_RECORD =>
          rows <- read_rows parse_reset toks' ;; Some (fields r' :: rows)
      | _, _ => read_rows r' toks'
      end
  end.

Definition csv_reader (csv_text : text) : option (list (list text)) :=
  read_rows parse_reset (tokens csv_text).

(** *** [csv.writer] with [QUOTE_ALL] *)

Definition double_quotes (f : text) : text :=
  flat_map (fun c => if Ascii.eqb c DQUOTE then [DQUOTE; DQUOTE] else [c]) f.

Definition quote_field (f : text) : text :=
  DQUOTE :: double_quotes f ++ [DQUOTE].

Fixpoint join_fields (fs : list text) : text :=
  match fs with
  | [] => []
  | [f] => f
  | f :: fs' => f ++ COMMA :: join_fields fs'
  end.

Definition writerow (lineterminator : text) (row : list text) : text :=
  join_fields (map quote_field row) ++ lineterminator.

(** ** ResponseNormalizer: [process_csv_response] *)

Inductive format : Type :=
| OUTPUT_FORMAT_JSON
| OUTPUT_FORMAT_CSV.

Definition raw_text (csv_text : text) : pyval :=
  PDict [("raw_text" : text, PStr csv_text)].

(** [{headers[i]: row[i].strip() for i in range(len(headers))}] *)
Definition make_entry (headers row : list text) : list (text * pyval) :=
  fold_left (fun entry hv => dict_set (fst hv) (PStr (strip (snd hv))) entry)
            (combine headers row) [].

(** [row and len(row) == len(headers)] *)
Definition row_fits (headers row : list text) : bool :=
  negb (Nat.eqb (length row) 0) && Nat.eqb (length row) (length headers).

(** The reader is consumed lazily by the code; an error raised by any call
    to [next] ends in the same handler, so the rows are taken at once. *)
Definition process_csv_response (OUTPUT_FORMAT : format) (csv_text : text) : pyval :=
  let csv_text := strip csv_text in
  match csv_reader csv_text with
  | None => raw_text csv_text
  | Some [] => raw_text csv_text
  | Some (headers :: rows) =>
      match headers with
      | [] => raw_text csv_text
      | _ :: _ =>
          let headers := map strip headers in
          match OUTPUT_FORMAT with
          | OUTPUT_FORMAT_JSON =>
              PList (map (fun row => PDict (make_entry headers row))
                         (filter (row_fits headers) rows))
          | OUTPUT_FORMAT_CSV =>
              PDict [("csv_text" : text,
                      PStr (writerow [LF] headers ++
                            flat_map (writerow [LF])
                                     (filter (row_fits headers) rows)))]
          end
      end
  end.

(** ** Persistence: [save_dataset] and [save_data_by_day]

    The code builds the name of a file with one of four f-strings.  A
    [file] is such an f-string with the values of its fields other than the
    run date; [filename] fills it in, with the run date where the code puts
    it, and gives the name that is joined to [DATA_DIR].  Two files of
    different shape can have the same name: the full file and the day file
    of the run date do.

    Every [open(filename, 'w')] of the code sits in a [try] whose handler
    only logs.  The functions below give, in order, the files that the code
    opens for writing, each with what it writes once the file is open;
    whether the file system lets a file be opened changes nothing in what
    the code does next, and is the matter of [store] further down. *)

Inductive file : Type :=
| FullFile (dataset : text) (ext : format)
| RawFile (dataset : text) (ext : format)
| UnexpectedFile (dataset : text)
| DayFile (dataset : text) (date_str : text) (ext : format).

(** The value of [OUTPUT_FORMAT_JSON] and of [OUTPUT_FORMAT_CSV]. *)
Definition extension (ext : format) : text :=
  match ext with
  | OUTPUT_FORMAT_JSON => lit "json"
  | OUTPUT_FORMAT_CSV => lit "csv"
  end.

(** The f-strings of lines 329, 341, 435, 443, 456, 474 and 493; [today] is
    [datetime.now().strftime("%Y-%m-%d")]. *)
Definition filename (today : text) (f : file) : text :=
  match f with
  | FullFile dataset ext =>
      dataset ++ lit "_" ++ today ++ lit "." ++ extension ext
  | RawFile dataset ext =>
      dataset ++ lit "_raw_" ++ today ++ lit "." ++ extension ext
  | UnexpectedFile dataset =>
      dataset ++ lit "_unexpected_" ++ today ++ lit ".json"
  | DayFile dataset date_str ext =>
      dataset ++ lit "_" ++ date_str ++ lit "." ++ extension ext
  end.

Inductive content : Type :=
| JsonDump (v : pyval)
| Written (t : text).

(** [f.write(v)]: a value that is not a [str] raises after the file has
    been opened, which leaves it empty. *)
Definition write_str (v : pyval) : content :=
  match v with
  | PStr s => Written s
  | _ => Written []
  end.

Definition CRLF : text := [CR; LF].

Section DayCsv.
(** [str(v)] for the values that are neither [str] nor [None]. *)
Variable str_of : pyval -> text.

(** How [csv.writer] turns a value into the text of a field. *)
Definition csv_field (v : pyval) : text :=
  match v with
  | PStr s => s
  | PNone => []
  | _ => str_of v
  end.

(** [DictWriter._dict_to_list]: [None] is the [ValueError] for a key that
    is not a field name, or the [AttributeError] of a row that is not a
    dict. *)
Definition dict_to_list (fieldnames : list text) (rowdict : pyval)
    : option (list pyval) :=
  match rowdict with
  | PDict d =>
      if forallb (fun k => existsb (text_eqb k) fieldnames) (dict_keys d)
      then Some (map (fun key => match dict_get key d with
                                 | Some v => v
                                 | None => PStr []
                                 end) fieldnames)
      else None
  | _ => None
  end.

(** [csv_writer.writerows(data)]: the text written, and whether every row
    was; the rows before one that raises are already in the file. *)
Fixpoint writerows (fieldnames : list text) (data : list pyval) : text * bool :=
  match data with
  | [] => ([], true)
  | rowdict :: data' =>
      match dict_to_list fieldnames rowdict with
      | Some row =>
          let (out, ok) := writerows fieldnames data' in
          (writerow CRLF (map csv_field row) ++ out, ok)
      | None => ([], false)
      end
  end.

(** The day file in CSV, lines 477 to 483: [None] when no file is opened
    (no data, or a first record without [keys]). *)
Definition day_csv (data : list pyval) : option (text * bool) :=
  match data with
  | PDict first :: _ =>
      let headers := dict_keys first in
      let (out, ok) := writerows headers data in
      Some (writerow CRLF headers ++ out, ok)
  | _ => None
  end.

Definition save_dataset (dataset_name : text) (data : pyval)
    : list (file * content) :=
  match data with
  | PDict d =>
      match dict_get "csv_text" d with
      | Some v => [(FullFile dataset_name OUTPUT_FORMAT_CSV, write_str v)]
      | None => [(FullFile dataset_name OUTPUT_FORMAT_JSON, JsonDump data)]
      end
  | _ => [(FullFile dataset_name OUTPUT_FORMAT_JSON, JsonDump data)]
  end.

(** One day of the final loop of [save_data_by_day]: the file it opens, if
    it gets as far as [open].  The values of the dictionary are the lists
    built by [process_traffic_data]. *)
Definition save_day (OUTPUT_FORMAT : format) (dataset_name : text)
    (item : text * pyval) : list (file * content) :=
  let (date, data) := item in
  let date_str := replace_char "/"%char "-"%char date in
  match OUTPUT_FORMAT with
  | OUTPUT_FORMAT_CSV =>
      match data with
      | PList l =>
          match day_csv l with
          | Some (out, _) =>
              [(DayFile dataset_name date_str OUTPUT_FORMAT_CSV, Written out)]
          | None => []
          end
      | _ => []
      end
  | OUTPUT_FORMAT_JSON =>
      [(DayFile dataset_name date_str OUTPUT_FORMAT_JSON, JsonDump data)]
  end.

Definition save_data_by_day (OUTPUT_FORMAT : format)
    (organized_data : list (text * pyval)) (dataset_name : text)
    : list (file * content) :=
  if dict_has "csv_text" organized_data then []
  else match dict_get "raw_text" organized_data with
       | Some v =>
           match OUTPUT_FORMAT with
           | OUTPUT_FORMAT_CSV =>
               [(RawFile dataset_name OUTPUT_FORMAT_CSV, write_str v)]
           | OUTPUT_FORMAT_JSON =>
               [(RawFile dataset_name OUTPUT_FORMAT_JSON, JsonDump v)]
           end
       | None =>
           if dict_has "unexpected_format" organized_data
           then match dict_get "raw_data" organized_data with
                | Some v => [(UnexpectedFile dataset_name, JsonDump v)]
                | None => [(UnexpectedFile dataset_name, Written [])]
                end
           else flat_map (save_day OUTPUT_FORMAT dataset_name) organized_data
       end.
End DayCsv.

(** *** The file system

    The files of [DATA_DIR], by name.  Opening a file for writing either
    raises, which the handler around it logs and which leaves the disk as
    it was, or gives the file the content written, whatever it held before.
    [opens] says which names the file system lets the code open; the run
    date is taken to be the same all through a run. *)

Definition disk := list (text * content).

Section FileSystem.
Variable opens : text -> bool.
Variable today : text.

(** [try: with open(filename, 'w') as f: ... except Exception: ...] *)
Definition open_and_write (d : disk) (w : file * content) : disk :=
  let name := filename today (fst w) in
  if opens name then dict_set name (snd w) d else d.

(** The disk after the code has gone through a list of files. *)
Definition store (ws : list (file * content)) (d : disk) : disk :=
  fold_left open_and_write ws d.
End FileSystem.

(** ** The remote service and the scraper's state *)

Record response : Type := mkResponse {
  status_code : Z;
  (** [response.json()]; [None] when the body does not decode *)
  json : option pyval;
  (** [response.text] *)
  resp_text : text
}.

(** A request either raises [requests.RequestException] or answers. *)
Inductive http_result : Type :=
| Raised
| Answered (r : response).

(** What the scraper does to the world around it, in order: it announces
    a dataset, sends a data request with the token that goes with it, sends
    a token request, pauses, or opens a file for writing and writes. *)
Inductive event : Type :=
| EvFetching (dataset : text)
| EvGet (dataset : text) (authorization : option pyval)
| EvAuthPost
| EvSleep (seconds : nat)
| EvWrite (f : file) (c : content).

Definition max_retries : nat := 3.

Section Pipeline.
(** The service: its state, and its answers to the two requests the
    scraper sends.  The data request carries the token of the session's
    [Authorization] header. *)
Variable World : Type.
Variable http_get : World -> text -> option pyval -> http_result * World.
Variable http_post_auth : World -> http_result * World.

Variable OUTPUT_FORMAT : format.
Variable str_of : pyval -> text.

Record scraper : Type := mkScraper {
  world : World;
  authorization : option pyval;
  trace : list event
}.

Definition M (A : Type) : Type := scraper -> A * scraper.

Definition ret {A} (a : A) : M A := fun s => (a, s).

Definition bind {A B} (m : M A) (k : A -> M B) : M B :=
  fun s => let (a, s') := m s in k a s'.

Notation "x <~ m ; k" := (bind m (fun x => k))
  (at level 62, m at next level, right associativity).
Notation "m ;> k" := (bind m (fun _ => k))
  (at level 62, right associativity).

Definition emit (e : event) : M unit :=
  fun s => (tt, {| world := world s; authorization := authorization s;
                   trace := trace s ++ [e] |}).

Definition emit_writes (ws : list (file * content)) : M unit :=
  fun s => (tt, {| world := world s; authorization := authorization s;
                   trace := trace s ++ map (fun w => EvWrite (fst w) (snd w)) ws |}).

Definition sleep (seconds : nat) : M unit := emit (EvSleep seconds).

(** [self.session.get(url, timeout=60)] *)
Definition session_get (dataset_name : text) : M http_result :=
  fun s =>
    let (res, w) := http_get (world s) dataset_name (authorization s) in
    (res, {| world := w; authorization := authorization s;
             trace := trace s ++ [EvGet dataset_name (authorization s)] |}).

Definition set_auth_token (token : pyval) : M unit :=
  fun s => (tt, {| world := world s; authorization := Some token;
                   trace := trace s |}).

(** [requests.post(AUTH_URL, ...)] *)
Definition post_auth : M http_result :=
  fun s =>
    let (res, w) := http_post_auth (world s) in
    (res, {| world := w; authorization := authorization s;
             trace := trace s ++ [EvAuthPost] |}).

(** ** AuthManager: [get_auth_token]

    Every exception is caught and gives [None]: the request raising, a
    body that is not JSON, a decoded value that has no [in], and a
    subscript by a string on a value that is not a dict. *)
Definition get_auth_token : M pyval :=
  res <~ post_auth ;
  match res with
  | Raised => ret PNone
  | Answered response =>
      if Z.eqb (status_code response) 200 then
        match json response with
        | None => ret PNone
        | Some auth_result =>
            match py_in "access_token" auth_result with
            | Some true =>
                match auth_result with
                | PDict d =>
                    match dict_get "access_token" d with
                    | Some token => set_auth_token token ;> ret token
                    | None => ret PNone
                    end
                | _ => ret PNone
                end
            | Some false => ret PNone
            | None => ret PNone
            end
        end
      else ret PNone
  end.

(** ** FetchClient: [fetch_dataset] *)

(** Lines 223 to 231. *)
Definition decode (response : response) : pyval :=
  match json response with
  | Some data => data
  | None => process_csv_response OUTPUT_FORMAT (resp_text response)
  end.

(** The [while] loop, by the number of attempts left:
    [retry_count = max_retries - remaining].  Both the handler of
    [RequestException] and the branch for a status other than 200 add one
    to [retry_count] and then either sleep and go round again or return
    [None]. *)
Fixpoint fetch_loop (remaining : nat) (dataset_name : text) : M pyval :=
  match remaining with
  | 0 => ret PNone
  | S remaining' =>
      let retry_count := S (max_retries - remaining) in
      let retry : M pyval :=
        match remaining' with
        | 0 => ret PNone
        | S _ => sleep (2 ^ retry_count) ;> fetch_loop remaining' dataset_name
        end in
      let check_status (response : response) : M pyval :=
        if negb (Z.eqb (status_code response) 200) then retry
        else ret (decode response) in
      res <~ session_get dataset_name ;
      match res with
      | Raised => retry
      | Answered response =>
          if Z.eqb (status_code response) 401 then
            new_token <~ get_auth_token ;
            if truthy new_token then
              res <~ session_get dataset_name ;
              match res with
              | Raised => retry
              | Answered response =>
                  if Z.eqb (status_code response) 401 then ret PNone
                  else check_status response
              end
            else ret PNone
          else check_status response
      end
  end.

Definition fetch_dataset (dataset_name : text) : M pyval :=
  fetch_loop max_retries dataset_name.

(** ** PipelineOrchestrator: [fetch_and_save_all_datasets] *)

(** The body of [if data:]. *)
Definition persist (dataset : text) (data : pyval) : M unit :=
  emit_writes (save_dataset dataset data) ;>
  emit_writes (save_data_by_day str_of OUTPUT_FORMAT
                                (process_traffic_data data) dataset).

(** The loop over [DATASETS], on [(success, successful_datasets)]. *)
Fixpoint batch_loop (DATASETS : list text) (acc : bool * nat) : M (bool * nat) :=
  match DATASETS with
  | [] => ret acc
  | dataset :: rest =>
      emit (EvFetching dataset) ;>
      data <~ fetch_dataset dataset ;
      acc' <~ (if truthy data
               then persist dataset data ;> ret (true, S (snd acc))
               else ret acc) ;
      sleep 2 ;>
      batch_loop rest acc'
  end.

Definition fetch_and_save_all_datasets (DATASETS : list text) : M bool :=
  acc <~ batch_loop DATASETS (false, 0) ;
  ret (fst acc).

(** The payload that [fetch_dataset] returns for each dataset of the
    batch, in the order of the calls. *)
Fixpoint batch_payloads (DATASETS : list text) (s : scraper)
    : list (text * pyval) :=
  match DATASETS with
  | [] => []
  | dataset :: rest =>
      let (data, s1) := fetch_dataset dataset (snd (emit (EvFetching dataset) s)) in
      let s2 := if truthy data then snd (persist dataset data s1) else s1 in
      (dataset, data) :: batch_payloads rest (snd (sleep 2 s2))
  end.
End Pipeline.

Arguments world {World} _.
Arguments authorization {World} _.
Arguments trace {World} _.
Arguments mkScraper {World} _ _ _.
Arguments ret {World A} _ _.
Arguments bind {World A B} _ _ _.
Arguments emit {World} _ _.
Arguments emit_writes {World} _ _.
Arguments sleep {World} _ _.
Arguments session_get {World} _ _ _.
Arguments set_auth_token {World} _ _.
Arguments post_auth {World} _ _.
Arguments get_auth_token {World} _ _.
Arguments fetch_loop {World} _ _ _ _ _ _.
Arguments fetch_dataset {World} _ _ _ _ _.
Arguments persist {World} _ _ _ _ _.
Arguments batch_loop {World} _ _ _ _ _ _ _.
Arguments fetch_and_save_all_datasets {World} _ _ _ _ _ _.
Arguments batch_payloads {World} _ _ _ _ _ _.

(** ** Reading a trace *)

(** The datasets announced by the batch loop, in order. *)
Fixpoint fetched (evs : list event) : list text :=
  match evs with
  | [] => []
  | EvFetching dataset :: evs' => dataset :: fetched evs'
  | _ :: evs' => fetched evs'
  end.

(** The files opened for writing, in order, each with what the code writes
    to it. *)
Fixpoint written (evs : list event) : list (file * content) :=
  match evs with
  | [] => []
  | EvWrite f c :: evs' => (f, c) :: written evs'
  | _ :: evs' => written evs'
  end.

(** The files that the batch loop opens for one payload, with what it
    writes to them. *)
Definition persisted (str_of : pyval -> text) (OUTPUT_FORMAT : format)
    (p : text * pyval) : list (file * content) :=
  if truthy (snd p)
  then save_dataset (fst p) (snd p) ++
       save_data_by_day str_of OUTPUT_FORMAT (process_traffic_data (snd p)) (fst p)
  else [].

(** A status that is neither success nor [401 Unauthorized]. *)
Definition other_status (r : response) : Prop :=
  status_code r <> 200%Z /\ status_code r <> 401%Z.

(** A step that only talks to the service or sleeps: it announces no
    dataset and writes no file. *)
Definition quiet {World A} (m : M World A) : Prop :=
  forall s a s', m s = (a, s') ->
  exists evs, trace s' = trace s ++ evs /\ fetched evs = [] /\ written evs = [].

(** The scraper after one turn of the batch loop, given what the fetch
    returned and left: the files of a payload that counts, then the pause. *)
Definition after_fetch {World} (str_of : pyval -> text) (OUTPUT_FORMAT : format)
    (dataset : text) (data : pyval) (s1 : scraper World) : scraper World :=
  let ws := if truthy data
            then map (fun w => EvWrite (fst w) (snd w))
                     (persisted str_of OUTPUT_FORMAT (dataset, data))
            else [] in
  {| world := world s1; authorization := authorization s1;
     trace := trace s1 ++ ws ++ [EvSleep 2] |}.

(** ** A scripted service, for examples

    The answers to the data requests and to the token requests, in order;
    a request beyond the script raises. *)

Record script : Type := mkScript {
  gets : list http_result;
  posts : list http_result
}.

Definition script_get (w : script) (_ : text) (_ : option pyval)
    : http_result * script :=
  match gets w with
  | [] => (Raised, w)
  | r :: rs => (r, {| gets := rs; posts := posts w |})
  end.

Definition script_post (w : script) : http_result * script :=
  match posts w with
  | [] => (Raised, w)
  | r :: rs => (r, {| gets := gets w; posts := rs |})
  end.

Definition answer (status : Z) (body : option pyval) : http_result :=
  Answered {| status_code := status; json := body; resp_text := [] |}.

Definition start (w : script) : scraper script :=
  {| world := w; authorization := None; trace := [] |}.

(** ** Notions for the CSV round trip *)

(** The tokens of a text that more text follows. *)
Definition toks_body (s : text) : list token :=
  flat_map (fun c => if Ascii.eqb c LF then [Ch c; EOL] else [Ch c]) s.

(** The reader after tokens that neither raise nor complete a row. *)
Fixpoint feed (r : reader) (toks : list token) : option reader :=
  match toks with
  | [] => Some r
  | t :: toks' =>
      r' <- parse_process_char r t ;;
      match t, state r' with
      | EOL, START_RECORD => None
      | _, _ => feed r' toks'
      end
  end.

(** A row as [QUOTE_ALL] writes it, without the line terminator. *)
Definition row_text (row : list text) : text := join_fields (map quote_field row).

(** A text that comes back as it went: [strip] leaves it alone and the
    reader's field limit allows it. *)
Definition clean (s : text) : Prop :=
  strip s = s /\ (N.of_nat (length s) <= field_limit)%N.

(** A record of the shape the round trip keeps: the given field names, in
    order, each with a clean text as value. *)
Definition clean_record (names : list text) (record : pyval) : Prop :=
  exists fields,
    record = PDict fields /\ dict_keys fields = names /\
    Forall (fun kv => exists v, snd kv = PStr v /\ clean v) fields.

(** The texts of the values of a record. *)
Definition str_values (fields : list (text * pyval)) : list text :=
  map (fun kv => match snd kv with
                 | PStr v => v
                 | _ => []
                 end) fields.

(** What ends a row: the line terminator of the writer, or the end of the
    text. *)
Definition row_end (term : list token) : Prop :=
  term = [Ch CR; Ch LF; EOL] \/ term = [EOL].

(** A field that the reader's limit allows. *)
Definition within_limit (f : text) : Prop :=
  (N.of_nat (length f) <= field_limit)%N.

(** The row that the writer makes of a record of texts. *)
Definition record_row (record : pyval) : list text :=
  match record with
  | PDict fields => str_values fields
  | _ => []
  end.

(** The reader has begun a row that cannot come out empty. *)
Definition started (r : reader) : Prop :=
  fields r <> [] \/
  match state r with
  | START_FIELD | IN_FIELD | IN_QUOTED_FIELD | QUOTE_IN_QUOTED_FIELD => True
  | START_RECORD | EAT_CRNL => False
  end.

(** ** Notions for the further properties *)

(** Whether the loop files a record under the given key. *)
Definition filed_under (k : text) (record : pyval) : bool :=
  match record_day_key record with
  | Some k' => text_eqb k' k
  | None => false
  end.

(** The keys of the records that are filed, record by record. *)
Definition day_keys (data : list pyval) : list text :=
  flat_map (fun record => match record_day_key record with
                          | Some k => [k]
                          | None => []
                          end) data.

(** The texts of a list without their later repetitions. *)
Definition add_key (acc : list text) (k : text) : list text :=
  if existsb (text_eqb k) acc then acc else acc ++ [k].

Definition distinct (ks : list text) : list text := fold_left add_key ks [].

(** The data requests sent, the token requests sent and the seconds slept
    in a trace. *)
Fixpoint gets_sent (evs : list event) : nat :=
  match evs with
  | [] => 0
  | EvGet _ _ :: evs' => S (gets_sent evs')
  | _ :: evs' => gets_sent evs'
  end.

Fixpoint posts_sent (evs : list event) : nat :=
  match evs with
  | [] => 0
  | EvAuthPost :: evs' => S (posts_sent evs')
  | _ :: evs' => posts_sent evs'
  end.

Fixpoint slept (evs : list event) : nat :=
  match evs with
  | [] => 0
  | EvSleep seconds :: evs' => seconds + slept evs'
  | _ :: evs' => slept evs'
  end.

(** The seconds of backoff that are still ahead when [remaining] attempts
    are left. *)
Fixpoint backoff_total (remaining : nat) : nat :=
  match remaining with
  | 0 => 0
  | S remaining' =>
      match remaining' with
      | 0 => 0
      | S _ => 2 ^ S (max_retries - remaining) + backoff_total remaining'
      end
  end.

(** A step that sends at most [g] data requests and [p] token requests and
    sleeps at most [sl] seconds, and that keeps the session's token when it
    sends no token request. *)
Definition bounded {World A} (g p sl : nat) (m : M World A) : Prop :=
  forall s a s', m s = (a, s') ->
  exists evs,
    trace s' = trace s ++ evs /\
    gets_sent evs <= g /\ posts_sent evs <= p /\ slept evs <= sl /\
    (posts_sent evs = 0 -> authorization s' = authorization s).

(** A request that the fetch answers by backing off: it raised, or its
    status is neither 200 nor 401. *)
Definition fails (res : http_result) : Prop :=
  res = Raised \/ exists r, res = Answered r /\ other_status r.

(** The reader holds no field beyond the limit. *)
Definition limited (r : reader) : Prop :=
  Forall within_limit (fields r) /\ within_limit (field r).

(** Tokens that close the row whose last field has just been quoted. *)
Definition closes_row (term : list token) : Prop :=
  forall (fs : list text) (buf : text) (rest : list token),
    read_rows (mkReader QUOTE_IN_QUOTED_FIELD fs buf) (term ++ rest)
    = rows <- read_rows parse_reset rest ;; Some ((fs ++ [buf]) :: rows).

(** The cleaned text that [process_csv_response] builds for CSV output. *)
Definition cleaned_csv (headers : list text) (rows : list (list text)) : text :=
  writerow [LF] headers ++ flat_map (writerow [LF]) rows.

(** The names that [save_data_by_day] takes for markers of a wrapper. *)
Definition reserved_keys : list text :=
  ["csv_text" : text; "raw_text" : text; "unexpected_format" : text].

(** The text written to the CSV file of a day; no text when the code does
    not get as far as opening the file. *)
Definition day_csv_text (str_of : pyval -> text) (data : list pyval) : text :=
  match day_csv str_of data with
  | Some (out, _) => out
  | None => []
  end.

(** A row that [DictWriter] accepts for the given field names: a dict with
    no other key. *)
Definition accepted (fieldnames : list text) (rowdict : pyval) : Prop :=
  exists d, rowdict = PDict d /\ incl (dict_keys d) fieldnames.

(** ** The command line: [prompt_for_token] and [main]

    The standard input is the list of the lines still to be read. *)

(** [input()]; [None] is [EOFError]. *)
Definition input (stdin : list text) : option (text * list text) :=
  match stdin with
  | [] => None
  | line :: rest => Some (line, rest)
  end.

Inductive prompt_result : Type :=
| Token (token : text) (stdin : list text)
| SysExit
| EndOfInput.

(** A token without the prefix [awse_] only gets a warning. *)
Definition prompt_for_token (stdin : list text) : prompt_result :=
  match input stdin with
  | None => EndOfInput
  | Some (line, rest) =>
      let token := strip line in
      if Nat.eqb (length token) 0 then SysExit else Token token rest
  end.

(** [input().lower().startswith('y')] *)
Definition answers_yes (line : text) : bool :=
  match line with
  | c :: _ => Ascii.eqb c "y"%char || Ascii.eqb c "Y"%char
  | [] => false
  end.

Record arguments : Type := mkArguments {
  arg_token : option text;
  arg_prompt_token : bool;
  arg_format : format;
  arg_datasets : option (list text)
}.

(** How [main] ends: it returns after the batch, whatever the batch gave,
    or the process exits with status 1 ([sys.exit(1)] in the prompt, or an
    exception caught by the last handler).

    The two handlers at the end of [main] also enclose the batch.  A run
    that [KeyboardInterrupt] cuts short, or in which a call raises what no
    handler inside the class catches, ends with status 1 at whatever point
    it has reached, the batch included.  Such runs are not among those
    that [main] below describes: it gives the runs without either, in which
    the only exceptions that reach the handlers are the [EOFError] of
    [input] and, past them, the [SystemExit] of the prompt. *)
Inductive ending : Type :=
| Finished (success : bool)
| Exit1.

Section Main.
Variable World : Type.
Variable http_get : World -> text -> option pyval -> http_result * World.
Variable http_post_auth : World -> http_result * World.
Variable str_of : pyval -> text.
(** The configured list, which [--datasets] replaces. *)
Variable DATASETS : list text.

(** [LinzTrafficScraper(token)] *)
Definition new_scraper (w : World) (token : option text) : scraper World :=
  let s := {| world := w; authorization := None; trace := [] |} in
  match token with
  | Some t => if truthy (PStr t) then snd (set_auth_token (PStr t) s) else s
  | None => s
  end.

(** The token of the command line or of the first prompt; [None] when the
    process ends there. *)
Definition first_token (args : arguments) (stdin : list text)
    : option (option text * list text) :=
  match arg_token args with
  | Some t =>
      if truthy (PStr t) then Some (Some t, stdin)
      else if arg_prompt_token args
           then match prompt_for_token stdin with
                | Token t' rest => Some (Some t', rest)
                | _ => None
                end
           else Some (None, stdin)
  | None =>
      if arg_prompt_token args
      then match prompt_for_token stdin with
           | Token t' rest => Some (Some t', rest)
           | _ => None
           end
      else Some (None, stdin)
  end.

Definition token_given (token : option text) : bool :=
  match token with
  | Some t => truthy (PStr t)
  | None => false
  end.

Definition main (args : arguments) (stdin : list text) (w : World)
    : ending * scraper World :=
  match first_token args stdin with
  | None => (Exit1, {| world := w; authorization := None; trace := [] |})
  | Some (token, stdin) =>
      let datasets :=
        match arg_datasets args with
        | Some (d :: ds) => d :: ds
        | _ => DATASETS
        end in
      let sc := new_scraper w token in
      let run (s : scraper World) : ending * scraper World :=
        let (success, s') :=
          fetch_and_save_all_datasets http_get http_post_auth (arg_format args)
                                      str_of datasets s in
        (Finished success, s') in
      if token_given token then run sc
      else
        let (token, sc) := get_auth_token http_post_auth sc in
        if truthy token then run sc
        else match input stdin with
             | None => (Exit1, sc)
             | Some (line, stdin) =>
                 if answers_yes line
                 then match prompt_for_token stdin with
                      | Token t _ => run (snd (set_auth_token (PStr t) sc))
                      | _ => (Exit1, sc)
                      end
                 else run sc
             end
  end.
End Main.

Arguments new_scraper {World} _ _.
Arguments main {World} _ _ _ _ _ _ _.

(** The datasets that [main] runs the batch on. *)
Definition chosen_datasets (DATASETS : list text) (args : arguments) : list text :=
  match arg_datasets args with
  | Some (d :: ds) => d :: ds
  | _ => DATASETS
  end.

(** An answer that the service gave to a data request for the dataset. *)
Definition answered_by {World}
    (http_get : World -> text -> option pyval -> http_result * World)
    (dataset : text) (r : response) : Prop :=
  exists w token w', http_get w dataset token = (Answered r, w').

(** A step whose result, when it is not [None], is the decoded body of an
    answer with status 200 that the service gave. *)
Definition from_ok {World}
    (http_get : World -> text -> option pyval -> http_result * World)
    (OUTPUT_FORMAT : format) (dataset : text) (m : M World pyval) : Prop :=
  forall s v s', m s = (v, s') ->
  v = PNone \/
  exists r, answered_by http_get dataset r /\
            status_code r = 200%Z /\ v = decode OUTPUT_FORMAT r.

(** * Properties *)

(** ** Texts and dictionaries *)

Lemma text_eqb_refl (a : text) : text_eqb a a = true.
Proof.
  induction a as [|x a IH]; simpl; [reflexivity|].
  now rewrite Ascii.eqb_refl.
Qed.

Lemma text_eqb_eq (a b : text) : text_eqb a b = true <-> a = b.
Proof.
  split.
  - revert b; induction a as [|x a IH]; intros [|y b]; simpl; try discriminate.
    + reflexivity.
    + intros H. apply andb_true_iff in H as [Hxy Hab].
      apply Ascii.eqb_eq in Hxy. f_equal; auto.
  - intros ->. apply text_eqb_refl.
Qed.

Lemma text_eqb_neq (a b : text) : a <> b -> text_eqb a b = false.
Proof.
  intros H. destruct (text_eqb a b) eqn:E; [|reflexivity].
  apply text_eqb_eq in E. contradiction.
Qed.

Lemma text_eq_dec (a b : text) : {a = b} + {a <> b}.
Proof. apply list_eq_dec, ascii_dec. Qed.

Lemma is_infix_char (c : ascii) (s : text) :
  is_infix [c] s = existsb (Ascii.eqb c) s.
Proof.
  induction s as [|x s IH]; simpl; [reflexivity|].
  rewrite IH. now rewrite andb_true_r.
Qed.

Lemma existsb_eqb_In (c : ascii) (s : text) :
  existsb (Ascii.eqb c) s = true <-> In c s.
Proof.
  rewrite existsb_exists. split.
  - intros (x & Hx & E). apply Ascii.eqb_eq in E. now subst.
  - intros H. exists c. split; [assumption|apply Ascii.eqb_refl].
Qed.

Lemma existsb_eqb_notin (c : ascii) (s : text) :
  ~ In c s -> existsb (Ascii.eqb c) s = false.
Proof.
  intros H. destruct (existsb (Ascii.eqb c) s) eqn:E; [|reflexivity].
  apply existsb_eqb_In in E. contradiction.
Qed.

Lemma count_char_cons (c x : ascii) (s : text) :
  count_char c (x :: s) =
  if Ascii.eqb x c then S (count_char c s) else count_char c s.
Proof.
  unfold count_char. simpl.
  destruct (ascii_dec x c) as [->|N].
  - now rewrite Ascii.eqb_refl.
  - destruct (Ascii.eqb x c) eqn:E; [|reflexivity].
    apply Ascii.eqb_eq in E. contradiction.
Qed.

Lemma count_char_notin (c : ascii) (s : text) :
  ~ In c s <-> count_char c s = 0.
Proof. unfold count_char. apply count_occ_not_In. Qed.

Lemma count_char_app (c : ascii) (a b : text) :
  count_char c (a ++ b) = count_char c a + count_char c b.
Proof. unfold count_char. apply count_occ_app. Qed.

Lemma py_split_not_nil (sep : ascii) (s : text) : py_split sep s <> [].
Proof.
  induction s as [|c s IH]; simpl; [discriminate|].
  destruct (Ascii.eqb c sep); [discriminate|].
  destruct (py_split sep s); discriminate.
Qed.

Lemma py_split_length (sep : ascii) (s : text) :
  length (py_split sep s) = S (count_char sep s).
Proof.
  induction s as [|c s IH]; [reflexivity|].
  rewrite count_char_cons. simpl.
  destruct (Ascii.eqb c sep); simpl; [now rewrite IH|].
  destruct (py_split sep s) eqn:E; [now apply py_split_not_nil in E|].
  exact IH.
Qed.

Lemma py_split_first (sep : ascii) (s : text) :
  nth 0 (py_split sep s) [] = before_first sep s.
Proof.
  induction s as [|c s IH]; [reflexivity|]. simpl.
  destruct (Ascii.eqb c sep); [reflexivity|].
  destruct (py_split sep s) eqn:E; [now apply py_split_not_nil in E|].
  simpl in *. now rewrite IH.
Qed.

Lemma join_split (sep d : ascii) (s : text) :
  join_with d (py_split sep s) = replace_char sep d s.
Proof.
  induction s as [|c s IH]; [reflexivity|]. simpl.
  destruct (Ascii.eqb c sep).
  - destruct (py_split sep s) eqn:E; [now apply py_split_not_nil in E|].
    simpl in *. now rewrite IH.
  - destruct (py_split sep s) as [|p ps] eqn:E; [now apply py_split_not_nil in E|].
    rewrite <- IH. destruct ps; reflexivity.
Qed.

Lemma join_three (d : ascii) (parts : list text) :
  length parts = 3 ->
  nth 0 parts [] ++ d :: nth 1 parts [] ++ d :: nth 2 parts [] = join_with d parts.
Proof.
  destruct parts as [|a [|b [|c [|e parts]]]]; simpl; try discriminate.
  reflexivity.
Qed.

Lemma before_first_notin (c : ascii) (s : text) :
  ~ In c s -> before_first c s = s.
Proof.
  induction s as [|x s IH]; simpl; [reflexivity|]. intros H.
  destruct (Ascii.eqb x c) eqn:E.
  - apply Ascii.eqb_eq in E. exfalso. apply H. now left.
  - f_equal. apply IH. intros HI. apply H. now right.
Qed.

Lemma before_first_app (c : ascii) (p rest : text) :
  ~ In c p -> before_first c (p ++ c :: rest) = p.
Proof.
  induction p as [|x p IH]; simpl; intros H.
  - now rewrite Ascii.eqb_refl.
  - destruct (Ascii.eqb x c) eqn:E.
    + apply Ascii.eqb_eq in E. exfalso. apply H. now left.
    + f_equal. apply IH. intros HI. apply H. now right.
Qed.

Lemma replace_char_notin (old new : ascii) (s : text) :
  ~ In old s -> replace_char old new s = s.
Proof.
  induction s as [|x s IH]; simpl; [reflexivity|]. intros H.
  destruct (Ascii.eqb x old) eqn:E.
  - apply Ascii.eqb_eq in E. exfalso. apply H. now left.
  - f_equal. apply IH. intros HI. apply H. now right.
Qed.

Lemma replace_char_app (old new : ascii) (a b : text) :
  replace_char old new (a ++ b) = replace_char old new a ++ replace_char old new b.
Proof. apply map_app. Qed.

(** ** The day-key *)

(** The key computed by the code is the key of the specification. *)
Lemma date_key_of_str (d : text) : date_key_of (PStr d) = Some (spec_day_key d).
Proof.
  unfold date_key_of, spec_day_key. cbn [py_in lit list_ascii_of_string].
  rewrite is_infix_char.
  assert (Hdate :
    (if existsb (Ascii.eqb " "%char) d
     then parts <- py_str_split (PStr d) " "%char ;; Some (PStr (nth 0 parts []))
     else Some (PStr d)) = Some (PStr (before_first " "%char d))).
  { destruct (existsb (Ascii.eqb " "%char) d) eqn:E.
    - cbn [py_str_split]. now rewrite py_split_first.
    - rewrite before_first_notin; [reflexivity|].
      intros HI. apply existsb_eqb_In in HI. congruence. }
  rewrite Hdate. cbn [py_in]. rewrite is_infix_char.
  set (p := before_first " "%char d).
  destruct (existsb (Ascii.eqb "/"%char) p) eqn:E.
  - cbn [py_str_split]. rewrite py_split_length.
    change (Nat.eqb (S (count_char "/"%char p)) 3)
      with (Nat.eqb (count_char "/"%char p) 2).
    destruct (Nat.eqb (count_char "/"%char p) 2) eqn:C; [|reflexivity].
    rewrite join_three, join_split; [reflexivity|].
    rewrite py_split_length. apply Nat.eqb_eq in C. now rewrite C.
  - assert (C : count_char "/"%char p = 0).
    { apply count_char_notin. intros HI. apply existsb_eqb_In in HI. congruence. }
    now rewrite C.
Qed.

(** ** Dictionaries *)

Section DictFacts.
Context {V : Type}.
Implicit Types (d : list (text * V)) (k : text) (v : V).

Lemma dict_get_In k d v : dict_get k d = Some v -> In (k, v) d.
Proof.
  induction d as [|[k' v'] d IH]; simpl; [discriminate|].
  destruct (text_eqb k' k) eqn:E.
  - apply text_eqb_eq in E. intros [= ->]. subst. now left.
  - intros H. right. auto.
Qed.

Lemma dict_get_keys k d : dict_get k d = None <-> ~ In k (dict_keys d).
Proof.
  induction d as [|[k' v'] d IH]; simpl; [tauto|].
  destruct (text_eqb k' k) eqn:E.
  - apply text_eqb_eq in E. split; [discriminate|]. intros H. exfalso. auto.
  - rewrite IH. split.
    + intros H [H1|H1]; [|auto]. subst. now rewrite text_eqb_refl in E.
    + intros H H1. apply H. now right.
Qed.

Lemma dict_get_set k v d : dict_get k (dict_set k v d) = Some v.
Proof.
  induction d as [|[k' v'] d IH]; simpl.
  - now rewrite text_eqb_refl.
  - destruct (text_eqb k' k) eqn:E; simpl; now rewrite E.
Qed.

Lemma dict_get_set_other k k' v d :
  k <> k' -> dict_get k' (dict_set k v d) = dict_get k' d.
Proof.
  intros N. induction d as [|[k0 v0] d IH]; simpl.
  - rewrite text_eqb_neq; auto.
  - destruct (text_eqb k0 k) eqn:E; simpl.
    + apply text_eqb_eq in E. subst k0. now rewrite text_eqb_neq.
    + now rewrite IH.
Qed.

Lemma dict_set_twice k v v' d :
  dict_set k v' (dict_set k v d) = dict_set k v' d.
Proof.
  induction d as [|[k0 v0] d IH]; simpl.
  - now rewrite text_eqb_refl.
  - destruct (text_eqb k0 k) eqn:E; simpl; rewrite E; [reflexivity|].
    now rewrite IH.
Qed.

Lemma dict_set_In k v d k' v' :
  In (k', v') (dict_set k v d) -> (k' = k /\ v' = v) \/ In (k', v') d.
Proof.
  induction d as [|[k0 v0] d IH]; simpl.
  - intros [[= <- <-]|[]]. now left.
  - destruct (text_eqb k0 k) eqn:E; simpl.
    + apply text_eqb_eq in E. subst.
      intros [[= <- <-]|H]; [now left|right; now right].
    + intros [H|H]; [right; now left|].
      destruct (IH H) as [H1|H1]; [now left|right; now right].
Qed.

Lemma dict_set_keys_present k v d :
  In k (dict_keys d) -> dict_keys (dict_set k v d) = dict_keys d.
Proof.
  induction d as [|[k0 v0] d IH]; simpl; [tauto|].
  destruct (text_eqb k0 k) eqn:E; simpl; [reflexivity|].
  intros [H|H]; [subst; now rewrite text_eqb_refl in E|].
  now rewrite IH.
Qed.

Lemma dict_set_keys_absent k v d :
  ~ In k (dict_keys d) -> dict_keys (dict_set k v d) = dict_keys d ++ [k].
Proof.
  induction d as [|[k0 v0] d IH]; simpl; [reflexivity|].
  intros H. rewrite text_eqb_neq by (intros ->; apply H; now left).
  simpl. rewrite IH; [reflexivity|]. intros HI. apply H. now right.
Qed.
End DictFacts.

Lemma dict_has_get {V} (k : text) (d : list (text * V)) (v : V) :
  dict_get k d = Some v -> dict_has k d = true.
Proof. unfold dict_has. now intros ->. Qed.

Lemma total_records_set (k : text) (b : list pyval) (od : buckets) :
  total_records (dict_set k b od) +
    match dict_get k od with Some old => length old | None => 0 end
  = total_records od + length b.
Proof.
  unfold total_records.
  induction od as [|[k0 b0] od IH]; simpl; [lia|].
  destruct (text_eqb k0 k); simpl; lia.
Qed.

(** ** Filing one record *)

Lemma bucket_append_eq (k : text) (r : pyval) (od : buckets) :
  bucket_append k r od = dict_set k (bucket_of k od ++ [r]) od.
Proof.
  unfold bucket_append, bucket_of, dict_has.
  destruct (dict_get k od) as [b|] eqn:E.
  - now rewrite E.
  - rewrite dict_get_set. apply dict_set_twice.
Qed.

Lemma bucket_append_get (k : text) (r : pyval) (od : buckets) :
  dict_get k (bucket_append k r od) = Some (bucket_of k od ++ [r]).
Proof. rewrite bucket_append_eq. apply dict_get_set. Qed.

Lemma bucket_append_get_other (k k' : text) (r : pyval) (od : buckets) :
  k <> k' -> dict_get k' (bucket_append k r od) = dict_get k' od.
Proof. intros N. rewrite bucket_append_eq. now apply dict_get_set_other. Qed.

Lemma bucket_append_In (k : text) (r : pyval) (od : buckets) k' b' :
  In (k', b') (bucket_append k r od) ->
  In (k', b') od \/ (k' = k /\ b' = bucket_of k od ++ [r]).
Proof.
  rewrite bucket_append_eq. intros H.
  apply dict_set_In in H. tauto.
Qed.

Lemma bucket_of_In (k : text) (od : buckets) (r : pyval) :
  In r (bucket_of k od) -> In (k, bucket_of k od) od.
Proof.
  unfold bucket_of. destruct (dict_get k od) as [b|] eqn:E; [|contradiction].
  intros _. now apply dict_get_In.
Qed.

Lemma bucket_append_total (k : text) (r : pyval) (od : buckets) :
  total_records (bucket_append k r od) = S (total_records od).
Proof.
  rewrite bucket_append_eq.
  pose proof (total_records_set k (bucket_of k od ++ [r]) od) as H.
  rewrite length_app in H. unfold bucket_of in *.
  destruct (dict_get k od); cbn [length] in H; lia.
Qed.

Lemma bucket_append_keys (k : text) (r : pyval) (od : buckets) :
  dict_keys (bucket_append k r od) =
  if dict_has k od then dict_keys od else dict_keys od ++ [k].
Proof.
  rewrite bucket_append_eq. unfold dict_has.
  destruct (dict_get k od) eqn:E.
  - apply dict_set_keys_present. apply dict_get_In in E.
    unfold dict_keys. now apply (in_map fst) in E.
  - apply dict_set_keys_absent. now apply dict_get_keys.
Qed.

(** ** The loop of [process_traffic_data] *)

Lemma organize_step_eq (od : buckets) (sk : nat) (r : pyval) :
  organize_step (od, sk) r =
  match record_day_key r with
  | Some k => (bucket_append k r od, sk)
  | None => (od, S sk)
  end.
Proof. reflexivity. Qed.

(** Induction over the records seen so far. *)
Lemma organize_ind (P : list pyval -> buckets -> nat -> Prop) :
  P [] [] 0 ->
  (forall seen od sk r k,
      P seen od sk -> record_day_key r = Some k ->
      P (seen ++ [r]) (bucket_append k r od) sk) ->
  (forall seen od sk r,
      P seen od sk -> record_day_key r = None ->
      P (seen ++ [r]) od (S sk)) ->
  forall data, P data (fst (organize data)) (snd (organize data)).
Proof.
  intros H0 Hfile Hskip data. unfold organize.
  induction data as [|r data IH] using rev_ind; [exact H0|].
  rewrite fold_left_app. cbn [fold_left].
  destruct (fold_left organize_step data ([], 0)) as [od sk].
  rewrite organize_step_eq. cbn [fst snd] in IH.
  destruct (record_day_key r) as [k|] eqn:E; cbn [fst snd]; auto.
Qed.

Lemma organize_sound (data : list pyval) :
  forall k b, In (k, b) (fst (organize data)) ->
  forall r, In r b -> In r data /\ record_day_key r = Some k.
Proof.
  apply (organize_ind (fun seen od _ =>
    forall k b, In (k, b) od ->
    forall r, In r b -> In r seen /\ record_day_key r = Some k)).
  - intros k b [].
  - intros seen od sk r0 k0 IH E k b H r Hr.
    apply bucket_append_In in H as [H|[-> ->]].
    + destruct (IH _ _ H _ Hr). split; [apply in_or_app|]; auto.
    + apply in_app_or in Hr as [Hr|[<-|[]]].
      * destruct (IH _ _ (bucket_of_In _ _ _ Hr) _ Hr).
        split; [apply in_or_app|]; auto.
      * split; [apply in_or_app; right; now left|assumption].
  - intros seen od sk r0 IH E k b H r Hr.
    destruct (IH _ _ H _ Hr). split; [apply in_or_app|]; auto.
Qed.

Lemma organize_nonempty (data : list pyval) :
  forall k b, In (k, b) (fst (organize data)) -> b <> [].
Proof.
  apply (organize_ind (fun _ od _ => forall k b, In (k, b) od -> b <> [])).
  - intros k b [].
  - intros seen od sk r0 k0 IH E k b H.
    apply bucket_append_In in H as [H|[-> ->]]; [eauto|].
    now destruct (bucket_of k0 od).
  - auto.
Qed.

Lemma organize_complete (data : list pyval) :
  forall r k, In r data -> record_day_key r = Some k ->
  In r (bucket_of k (fst (organize data))).
Proof.
  apply (organize_ind (fun seen od _ =>
    forall r k, In r seen -> record_day_key r = Some k -> In r (bucket_of k od))).
  - intros r k [].
  - intros seen od sk r0 k0 IH E r k Hr Hk.
    destruct (text_eq_dec k0 k) as [->|N].
    + unfold bucket_of at 1. rewrite bucket_append_get.
      apply in_app_or in Hr as [Hr|[<-|[]]]; apply in_or_app.
      * left. auto.
      * right. now left.
    + unfold bucket_of at 1. rewrite bucket_append_get_other by assumption.
      apply in_app_or in Hr as [Hr|[<-|[]]]; [now apply IH|congruence].
  - intros seen od sk r0 IH E r k Hr Hk.
    apply in_app_or in Hr as [Hr|[<-|[]]]; [auto|congruence].
Qed.

Lemma organize_count (data : list pyval) :
  total_records (fst (organize data)) + snd (organize data) = length data.
Proof.
  apply (organize_ind (fun seen od sk => total_records od + sk = length seen)).
  - reflexivity.
  - intros seen od sk r k IH _. rewrite bucket_append_total, length_app. simpl. lia.
  - intros seen od sk r IH _. rewrite length_app. simpl. lia.
Qed.

Lemma NoDup_snoc {A} (l : list A) (x : A) :
  NoDup l -> ~ In x l -> NoDup (l ++ [x]).
Proof.
  induction 1 as [|y l Hy Hl IH]; simpl; intros Hx.
  - constructor; [tauto|constructor].
  - constructor.
    + intros H. apply in_app_or in H as [H|[<-|[]]]; [auto|].
      apply Hx. now left.
    + apply IH. intros H. apply Hx. now right.
Qed.

Lemma organize_keys_nodup (data : list pyval) :
  NoDup (dict_keys (fst (organize data))).
Proof.
  apply (organize_ind (fun _ od _ => NoDup (dict_keys od))).
  - constructor.
  - intros seen od sk r k IH _. rewrite bucket_append_keys. unfold dict_has.
    destruct (dict_get k od) eqn:E; [assumption|].
    apply dict_get_keys in E. now apply NoDup_snoc.
  - auto.
Qed.

(** A value that is not a text raises somewhere on the way to the key. *)
Lemma date_key_of_not_str (v : pyval) :
  (forall d, v <> PStr d) -> date_key_of v = None.
Proof.
  intros H. unfold date_key_of.
  destruct v as [| | |d|l|fs]; try reflexivity.
  - now destruct (H d).
  - cbn [py_in]. destruct (existsb _ l); [reflexivity|].
    cbn [py_in]. now destruct (existsb _ l).
  - cbn [py_in]. destruct (dict_has _ fs); [reflexivity|].
    cbn [py_in]. now destruct (dict_has _ fs).
Qed.

Lemma record_day_key_str (fields : list (text * pyval)) (d : text) :
  dict_get "datum" fields = Some (PStr d) ->
  record_day_key (PDict fields) = Some (spec_day_key d).
Proof.
  intros H. unfold record_day_key, dict_has. rewrite H. apply date_key_of_str.
Qed.

Lemma record_day_key_inv (r : pyval) (k : text) :
  record_day_key r = Some k ->
  exists fields d,
    r = PDict fields /\ dict_get "datum" fields = Some (PStr d) /\
    spec_day_key d = k.
Proof.
  destruct r as [| | | | |fields]; try discriminate.
  unfold record_day_key, dict_has.
  destruct (dict_get "datum" fields) as [v|] eqn:E; [|discriminate].
  destruct v as [| | |d| |];
    try (rewrite date_key_of_not_str by (intros ?; discriminate); discriminate).
  rewrite date_key_of_str. intros [= <-]. eauto.
Qed.

Lemma record_day_key_none (r : pyval) :
  record_day_key r = None <-> missing_or_unparsable r = true.
Proof.
  destruct r as [| | | | |fields]; try (split; reflexivity).
  unfold record_day_key, missing_or_unparsable, dict_has.
  destruct (dict_get "datum" fields) as [v|] eqn:E; [|split; reflexivity].
  destruct v as [| | |d| |];
    try (rewrite date_key_of_not_str by (intros ?; discriminate); split; reflexivity).
  rewrite date_key_of_str. split; discriminate.
Qed.

Lemma organize_skipped (data : list pyval) :
  snd (organize data) = length (filter missing_or_unparsable data).
Proof.
  apply (organize_ind (fun seen _ sk =>
    sk = length (filter missing_or_unparsable seen))).
  - reflexivity.
  - intros seen od sk r k IH E. rewrite filter_app, length_app. simpl.
    destruct (missing_or_unparsable r) eqn:M.
    + apply record_day_key_none in M. congruence.
    + simpl. lia.
  - intros seen od sk r IH E. rewrite filter_app, length_app. simpl.
    apply record_day_key_none in E. rewrite E. simpl. lia.
Qed.

Lemma buckets_to_py_In (od : buckets) (k : text) (v : pyval) :
  In (k, v) (buckets_to_py od) <-> exists b, v = PList b /\ In (k, b) od.
Proof.
  unfold buckets_to_py. rewrite in_map_iff. split.
  - intros ([k' b] & [= <- <-] & H). eauto.
  - intros (b & -> & H). now exists (k, b).
Qed.

Lemma buckets_to_py_get (od : buckets) (k : text) :
  dict_get k (buckets_to_py od) = option_map PList (dict_get k od).
Proof.
  induction od as [|[k0 b0] od IH]; simpl; [reflexivity|].
  now destruct (text_eqb k0 k).
Qed.

Lemma buckets_to_py_keys (od : buckets) :
  dict_keys (buckets_to_py od) = dict_keys od.
Proof.
  unfold dict_keys, buckets_to_py. rewrite map_map. reflexivity.
Qed.

Lemma buckets_to_py_size (od : buckets) :
  partition_size (buckets_to_py od) = total_records od.
Proof.
  unfold partition_size, total_records, buckets_to_py. now rewrite map_map.
Qed.

(** ** Day keys: what the partition promises *)

Ltac split_andb :=
  repeat match goal with
         | H : _ && _ = true |- _ => apply andb_true_iff in H; destruct H
         end.

Lemma digit_not_slash (c : ascii) : is_digit c = true -> Ascii.eqb c "/"%char = false.
Proof.
  intros H. destruct (Ascii.eqb c "/"%char) eqn:E; [|reflexivity].
  apply Ascii.eqb_eq in E. subst c. discriminate H.
Qed.

Lemma three_parts_key (a b c : text) :
  ~ In "/"%char a -> ~ In "/"%char b -> ~ In "/"%char c ->
  count_char "/"%char (a ++ "/"%char :: b ++ "/"%char :: c) = 2 /\
  replace_char "/"%char "-"%char (a ++ "/"%char :: b ++ "/"%char :: c)
  = a ++ "-"%char :: b ++ "-"%char :: c.
Proof.
  intros Ha Hb Hc. split.
  - rewrite count_char_app, count_char_cons, Ascii.eqb_refl.
    rewrite count_char_app, count_char_cons, Ascii.eqb_refl.
    apply count_char_notin in Ha, Hb, Hc. lia.
  - rewrite replace_char_app. cbn [replace_char map].
    change (map (fun x => if Ascii.eqb x "/"%char then "-"%char else x) (b ++ "/"%char :: c))
      with (replace_char "/"%char "-"%char (b ++ "/"%char :: c)).
    rewrite replace_char_app. cbn [replace_char map].
    change (map (fun x => if Ascii.eqb x "/"%char then "-"%char else x))
      with (replace_char "/"%char "-"%char).
    now rewrite !replace_char_notin by assumption.
Qed.

(** A date already written month, day, year gives a canonical key. *)
Lemma mdy_date_key (p : text) :
  is_mdy_with "/"%char p || is_mdy_with "-"%char p = true ->
  is_mm_dd_yyyy (if Nat.eqb (count_char "/"%char p) 2
                 then replace_char "/"%char "-"%char p else p) = true.
Proof.
  intros H.
  do 11 (destruct p as [|? p]; try discriminate H).
  apply orb_true_iff in H as [H|H];
    cbn [is_mdy_with forallb] in H; split_andb;
    repeat match goal with
           | E : Ascii.eqb _ _ = true |- _ => apply Ascii.eqb_eq in E; subst
           end;
    rewrite !count_char_cons;
    repeat match goal with
           | D : is_digit ?x = true |- _ =>
               rewrite (digit_not_slash x D); revert D
           end; intros;
    cbn [Ascii.eqb Bool.eqb count_char count_occ Nat.eqb replace_char map];
    repeat match goal with
           | D : is_digit ?x = true |- _ =>
               rewrite ?(digit_not_slash x D); revert D
           end; intros;
    unfold is_mm_dd_yyyy; cbn [is_mdy_with forallb Ascii.eqb Bool.eqb];
    repeat match goal with
           | D : _ = true |- _ => rewrite D; clear D
           end; reflexivity.
Qed.

(** C1: for a record whose [datum] has a space, the day-key is the text
    before the first space; when that text has exactly three slash-separated
    components the key is those components joined by dashes in the same
    order.  ["2024-05-01 14:30:00"] gives ["2024-05-01"] and ["05/01/2024"]
    gives ["05-01-2024"]. *)
Theorem day_key_drops_time_keeps_order
    (fields : list (text * pyval)) (date time : text) :
  dict_get "datum" fields = Some (PStr (date ++ " "%char :: time)) ->
  ~ In " "%char date ->
  (count_char "/"%char date <> 2 -> record_day_key (PDict fields) = Some date) /\
  (forall a b c,
      date = a ++ "/"%char :: b ++ "/"%char :: c ->
      ~ In "/"%char a -> ~ In "/"%char b -> ~ In "/"%char c ->
      record_day_key (PDict fields) = Some (a ++ "-"%char :: b ++ "-"%char :: c)) /\
  date_key_of (PStr "2024-05-01 14:30:00") = Some (lit "2024-05-01") /\
  date_key_of (PStr "05/01/2024") = Some (lit "05-01-2024").
Proof.
  intros Hd Hsp.
  rewrite (record_day_key_str _ _ Hd). unfold spec_day_key.
  rewrite before_first_app by assumption.
  repeat split.
  - intros N. apply Nat.eqb_neq in N. now rewrite N.
  - intros a b c -> Ha Hb Hc.
    destruct (three_parts_key a b c Ha Hb Hc) as [C R].
    now rewrite C, R.
Qed.

Lemma day_key_drops_time_keeps_order_witness :
  record_day_key (PDict [("datum" : text, PStr "05/01/2024 10:00")])
  = Some (lit "05-01-2024").
Proof.
  refine (proj1 (proj2 (day_key_drops_time_keeps_order
                          [("datum" : text, PStr "05/01/2024 10:00")]
                          (lit "05/01/2024") (lit "10:00") eq_refl _))
                (lit "05") (lit "01") (lit "2024") eq_refl _ _ _);
    apply count_char_notin; reflexivity.
Defined.

(** C10: a record whose date has a slash but not exactly three
    slash-separated components is not skipped: it is filed under the date
    text as it stands, slashes included. *)
Theorem slashed_date_without_three_parts_keeps_its_text
    (data : list pyval) (fields : list (text * pyval)) (datum : text) :
  dict_get "datum" fields = Some (PStr datum) ->
  In "/"%char (before_first " "%char datum) ->
  count_char "/"%char (before_first " "%char datum) <> 2 ->
  record_day_key (PDict fields) = Some (before_first " "%char datum) /\
  (In (PDict fields) data ->
   exists bucket,
     dict_get (before_first " "%char datum) (process_traffic_data (PList data))
     = Some (PList bucket) /\
     In (PDict fields) bucket).
Proof.
  intros Hd _ N.
  assert (K : record_day_key (PDict fields) = Some (before_first " "%char datum)).
  { rewrite (record_day_key_str _ _ Hd). unfold spec_day_key.
    apply Nat.eqb_neq in N. now rewrite N. }
  split; [exact K|]. intros Hin.
  pose proof (organize_complete data _ _ Hin K) as Hb.
  cbn [process_traffic_data]. rewrite buckets_to_py_get.
  unfold bucket_of in Hb.
  destruct (dict_get (before_first " "%char datum) (fst (organize data))) as [b|];
    [|contradiction].
  exists b. split; [reflexivity|assumption].
Qed.

Lemma slashed_date_without_three_parts_keeps_its_text_witness :
  record_day_key (PDict [("datum" : text, PStr "05/01")]) = Some (lit "05/01") /\
  exists bucket,
    dict_get (lit "05/01")
      (process_traffic_data
         (PList [PDict [("datum" : text, PStr "2024-05-01")];
                 PDict [("datum" : text, PStr "05/01")]]))
    = Some (PList bucket) /\
    In (PDict [("datum" : text, PStr "05/01")]) bucket.
Proof.
  destruct (slashed_date_without_three_parts_keeps_its_text
              [PDict [("datum" : text, PStr "2024-05-01")];
               PDict [("datum" : text, PStr "05/01")]]
              [("datum" : text, PStr "05/01")] (lit "05/01") eq_refl)
    as [K B].
  - vm_compute. tauto.
  - vm_compute. lia.
  - split; [exact K|]. apply B. vm_compute. tauto.
Defined.

(** Filing a record adds it, and nothing else, to the records held. *)
Lemma bucket_append_records (k : text) (r : pyval) (od : buckets) :
  Permutation (flat_map snd (bucket_append k r od)) (r :: flat_map snd od).
Proof.
  rewrite bucket_append_eq. unfold bucket_of.
  induction od as [|[k0 b0] od IH]; cbn [dict_get dict_set flat_map snd app].
  - apply Permutation_refl.
  - destruct (text_eqb k0 k) eqn:E; cbn [flat_map snd].
    + rewrite <- app_assoc. cbn [app]. apply Permutation_sym, Permutation_middle.
    + apply Permutation_trans with (b0 ++ r :: flat_map snd od).
      * apply Permutation_app_head, IH.
      * apply Permutation_sym, Permutation_middle.
Qed.

(** The buckets hold the records that have a key, each as often as the
    input has it. *)
Lemma organize_records (data : list pyval) :
  Permutation (flat_map snd (fst (organize data)))
              (filter (fun r => negb (missing_or_unparsable r)) data).
Proof.
  apply (organize_ind (fun seen od _ =>
    Permutation (flat_map snd od)
                (filter (fun r => negb (missing_or_unparsable r)) seen))).
  - apply Permutation_refl.
  - intros seen od sk r k IH E. rewrite filter_app. cbn [filter].
    destruct (missing_or_unparsable r) eqn:M.
    + apply record_day_key_none in M. congruence.
    + cbn [negb]. eapply Permutation_trans; [apply bucket_append_records|].
      apply Permutation_cons_app. now rewrite app_nil_r.
  - intros seen od sk r IH E. rewrite filter_app. cbn [filter].
    apply record_day_key_none in E. rewrite E. cbn [negb]. now rewrite app_nil_r.
Qed.

Lemma buckets_to_py_records (od : buckets) :
  partition_records (buckets_to_py od) = flat_map snd od.
Proof.
  unfold partition_records, buckets_to_py.
  induction od as [|[k b] od IH]; cbn [map flat_map fst snd]; [reflexivity|].
  now rewrite IH.
Qed.

Lemma filter_none {A} (f : A -> bool) (l : list A) :
  Forall (fun x => f x = false) l -> filter f l = [].
Proof.
  induction 1 as [|x l Hx H IH]; cbn [filter]; [reflexivity|]. now rewrite Hx.
Qed.

(** C2: every record of a day bucket is a record of the input and has a
    [datum] whose date maps to the key of that bucket; every record of the
    input with a text [datum] is in a bucket; the buckets together hold
    those records and no others, each as many times as the input has it, so
    that none is lost and none is filed twice; every bucket is a list that
    is not empty, under a key of its own; and the sizes of the buckets add
    up to the number of records less those with a missing or unparsable
    [datum], which is what the loop counts as skipped. *)
Theorem buckets_partition_the_records (data : list pyval) :
  (forall k bucket r,
      In (k, PList bucket) (process_traffic_data (PList data)) ->
      In r bucket ->
      In r data /\
      exists fields datum,
        r = PDict fields /\ dict_get "datum" fields = Some (PStr datum) /\
        spec_day_key datum = k /\ record_day_key r = Some k) /\
  (forall r,
      In r data -> missing_or_unparsable r = false ->
      exists k bucket,
        In (k, PList bucket) (process_traffic_data (PList data)) /\
        In r bucket) /\
  Permutation (partition_records (process_traffic_data (PList data)))
              (filter (fun r => negb (missing_or_unparsable r)) data) /\
  (forall k v,
      In (k, v) (process_traffic_data (PList data)) ->
      exists bucket, v = PList bucket /\ bucket <> []) /\
  partition_size (process_traffic_data (PList data))
  = length data - length (filter missing_or_unparsable data) /\
  skipped_records data = length (filter missing_or_unparsable data) /\
  NoDup (dict_keys (process_traffic_data (PList data))) /\
  (Forall (fun r => missing_or_unparsable r = false) data ->
   partition_size (process_traffic_data (PList data)) = length data /\
   Permutation (partition_records (process_traffic_data (PList data))) data).
Proof.
  cbn [process_traffic_data].
  pose proof (organize_count data) as C.
  pose proof (organize_skipped data) as S.
  pose proof (organize_records data) as P.
  rewrite buckets_to_py_size, buckets_to_py_keys, buckets_to_py_records.
  unfold skipped_records.
  split; [|split; [|split; [|split; [|split; [|split; [|split]]]]]].
  - intros k bucket r H Hr.
    apply buckets_to_py_In in H as (b & [= ->] & H).
    destruct (organize_sound data _ _ H _ Hr) as [Hin K].
    split; [exact Hin|].
    destruct (record_day_key_inv _ _ K) as (fields & d & -> & Hd & Hk).
    exists fields, d. auto.
  - intros r Hin M.
    destruct (record_day_key r) as [k|] eqn:K;
      [|apply record_day_key_none in K; congruence].
    pose proof (organize_complete data r k Hin K) as Hb.
    exists k, (bucket_of k (fst (organize data))). split; [|exact Hb].
    apply buckets_to_py_In. eexists. split; [reflexivity|].
    now apply bucket_of_In with r.
  - exact P.
  - intros k v H. apply buckets_to_py_In in H as (b & -> & H).
    exists b. split; [reflexivity|]. exact (organize_nonempty data _ _ H).
  - lia.
  - exact S.
  - apply organize_keys_nodup.
  - intros W.
    assert (Z : filter missing_or_unparsable data = [])
      by (now apply filter_none).
    assert (A : filter (fun r => negb (missing_or_unparsable r)) data = data).
    { clear - W. induction W as [|r l Hr W IH]; cbn [filter]; [reflexivity|].
      rewrite Hr. cbn [negb]. now rewrite IH. }
    rewrite Z in S. cbn [length] in S. rewrite A in P. split; [lia|exact P].
Qed.

Lemma buckets_partition_the_records_witness :
  partition_size
    (process_traffic_data
       (PList [PDict [("datum" : text, PStr "05/01/2024"); ("pkw" : text, PInt 3)];
               PDict [("datum" : text, PStr "2024-05-01 14:30:00")];
               PDict [("datum" : text, PStr "05/01/2024 08:00")]])) = 3 /\
  Permutation
    (partition_records
       (process_traffic_data
          (PList [PDict [("datum" : text, PStr "05/01/2024"); ("pkw" : text, PInt 3)];
                  PDict [("datum" : text, PStr "2024-05-01 14:30:00")];
                  PDict [("datum" : text, PStr "05/01/2024 08:00")]])))
    [PDict [("datum" : text, PStr "05/01/2024"); ("pkw" : text, PInt 3)];
     PDict [("datum" : text, PStr "2024-05-01 14:30:00")];
     PDict [("datum" : text, PStr "05/01/2024 08:00")]].
Proof.
  apply (proj2 (proj2 (proj2 (proj2 (proj2 (proj2 (proj2
    (buckets_partition_the_records
       [PDict [("datum" : text, PStr "05/01/2024"); ("pkw" : text, PInt 3)];
        PDict [("datum" : text, PStr "2024-05-01 14:30:00")];
        PDict [("datum" : text, PStr "05/01/2024 08:00")]])))))))).
  repeat constructor.
Defined.

(** C7, as the code has it: every day-key of a partitioned result is the
    key derived from the [datum] of one of the records, that is its date
    text with dashes for the slashes when it has three slash-separated
    components; the key is a canonical [MM-DD-YYYY] text when that date is
    written month, day, year with slashes or with dashes. *)
Theorem day_keys_follow_the_datum (data : list pyval) (k : text) :
  In k (dict_keys (process_traffic_data (PList data))) ->
  exists fields datum,
    In (PDict fields) data /\
    dict_get "datum" fields = Some (PStr datum) /\
    k = spec_day_key datum /\
    (is_mdy_with "/"%char (before_first " "%char datum)
     || is_mdy_with "-"%char (before_first " "%char datum) = true ->
     is_mm_dd_yyyy k = true).
Proof.
  cbn [process_traffic_data]. rewrite buckets_to_py_keys.
  unfold dict_keys. rewrite in_map_iff. intros ([k' b] & E & H).
  simpl in E. subst k'.
  pose proof (organize_nonempty data _ _ H) as Hne.
  destruct b as [|r b]; [congruence|].
  destruct (organize_sound data _ _ H r (or_introl eq_refl)) as [Hin K].
  destruct (record_day_key_inv _ _ K) as (fields & d & -> & Hd & Hk).
  exists fields, d. repeat split; auto.
  intros M. subst k. unfold spec_day_key. now apply mdy_date_key.
Qed.

Lemma day_keys_follow_the_datum_witness :
  exists fields datum,
    In (PDict fields) [PDict [("datum" : text, PStr "05/01/2024 08:00")]] /\
    dict_get "datum" fields = Some (PStr datum) /\
    lit "05-01-2024" = spec_day_key datum /\
    (is_mdy_with "/"%char (before_first " "%char datum)
     || is_mdy_with "-"%char (before_first " "%char datum) = true ->
     is_mm_dd_yyyy (lit "05-01-2024") = true).
Proof.
  apply (day_keys_follow_the_datum
           [PDict [("datum" : text, PStr "05/01/2024 08:00")]] (lit "05-01-2024")).
  vm_compute. tauto.
Defined.

(** C7 as stated fails: an ISO [datum] keeps its year-first date as key. *)
Lemma iso_datum_key_is_not_month_first :
  ~ (forall (data : list pyval) (k : text),
        In k (dict_keys (process_traffic_data (PList data))) ->
        is_mm_dd_yyyy k = true).
Proof.
  intros H.
  specialize (H [PDict [("datum" : text, PStr "2024-05-01 14:30:00")]]
                (lit "2024-05-01") (or_introl eq_refl)).
  discriminate H.
Qed.

(** ** FetchClient *)

Section FetchFacts.
Context {World : Type}.
Variable http_get : World -> text -> option pyval -> http_result * World.
Variable http_post_auth : World -> http_result * World.
Variable OUTPUT_FORMAT : format.

Local Notation renew := (get_auth_token http_post_auth).
Local Notation attempts := (fetch_loop http_get http_post_auth OUTPUT_FORMAT).
Local Notation fetch := (fetch_dataset http_get http_post_auth OUTPUT_FORMAT).

(** One call sends one token request, and a token that counts as obtained
    is the one installed in the session. *)
Lemma get_auth_token_spec (s s' : scraper World) (t : pyval) :
  renew s = (t, s') ->
  trace s' = trace s ++ [EvAuthPost] /\
  world s' = snd (http_post_auth (world s)) /\
  (truthy t = true -> authorization s' = Some t).
Proof.
  unfold get_auth_token, bind, post_auth, ret, set_auth_token.
  destruct (http_post_auth (world s)) as [res w]. cbn [snd].
  destruct res as [|r];
    [intros [= <- <-]; cbn; repeat split; discriminate|].
  destruct (Z.eqb (status_code r) 200);
    [|intros [= <- <-]; cbn; repeat split; discriminate].
  destruct (json r) as [auth_result|];
    [|intros [= <- <-]; cbn; repeat split; discriminate].
  destruct (py_in "access_token" auth_result) as [[|]|];
    try (intros [= <- <-]; cbn; repeat split; discriminate).
  destruct auth_result as [| | | | |d];
    try (intros [= <- <-]; cbn; repeat split; discriminate).
  destruct (dict_get "access_token" d) as [token|];
    intros [= <- <-]; cbn; repeat split; discriminate.
Qed.

Lemma fetch_loop_S (n : nat) (dataset : text) (s : scraper World) :
  attempts (S n) dataset s =
  let retry_count := S (max_retries - S n) in
  let retry : M World pyval :=
    match n with
    | 0 => ret PNone
    | S _ => bind (sleep (2 ^ retry_count)) (fun _ => attempts n dataset)
    end in
  let check_status (response : response) : M World pyval :=
    if negb (Z.eqb (status_code response) 200) then retry
    else ret (decode OUTPUT_FORMAT response) in
  bind (session_get http_get dataset) (fun res =>
    match res with
    | Raised => retry
    | Answered response =>
        if Z.eqb (status_code response) 401 then
          bind renew (fun new_token =>
            if truthy new_token then
              bind (session_get http_get dataset) (fun res =>
                match res with
                | Raised => retry
                | Answered response =>
                    if Z.eqb (status_code response) 401 then ret PNone
                    else check_status response
                end)
            else ret PNone)
        else check_status response
    end) s.
Proof. reflexivity. Qed.
(** An attempt answered with a status other than 200 and 401. *)
Lemma attempt_other_status (n : nat) (dataset : text)
    (w0 : World) (a : option pyval) (tr : list event)
    (r : response) (w : World) :
  http_get w0 dataset a = (Answered r, w) ->
  other_status r ->
  attempts (S n) dataset {| world := w0; authorization := a; trace := tr |} =
  match n with
  | 0 => ret PNone
  | S _ => bind (sleep (2 ^ S (max_retries - S n))) (fun _ => attempts n dataset)
  end {| world := w; authorization := a; trace := tr ++ [EvGet dataset a] |}.
Proof.
  intros G [N200 N401]. rewrite fetch_loop_S. cbv zeta.
  unfold bind at 1. unfold session_get. cbn [world authorization trace].
  rewrite G. apply Z.eqb_neq in N200, N401. rewrite N401, N200. reflexivity.
Qed.

(** C4: when every request is answered with a status other than 200 and
    401, the fetch makes exactly three attempts, sleeps 2 and then 4 seconds
    between them, and returns [None]. *)
Theorem three_failed_attempts_then_failure
    (dataset : text) (s : scraper World)
    (r1 r2 r3 : response) (w1 w2 w3 : World) :
  http_get (world s) dataset (authorization s) = (Answered r1, w1) ->
  other_status r1 ->
  http_get w1 dataset (authorization s) = (Answered r2, w2) ->
  other_status r2 ->
  http_get w2 dataset (authorization s) = (Answered r3, w3) ->
  other_status r3 ->
  fetch dataset s =
  (PNone, {| world := w3; authorization := authorization s;
             trace := trace s ++ [EvGet dataset (authorization s); EvSleep 2;
                                  EvGet dataset (authorization s); EvSleep 4;
                                  EvGet dataset (authorization s)] |}).
Proof.
  intros G1 S1 G2 S2 G3 S3. unfold fetch_dataset.
  change max_retries with 3. destruct s as [w0 a tr].
  cbn [world authorization trace] in *.
  rewrite (attempt_other_status 2 dataset _ _ _ r1 w1 G1 S1).
  unfold bind, sleep, emit. cbn [world authorization trace].
  rewrite (attempt_other_status 1 dataset _ _ _ r2 w2 G2 S2).
  unfold bind, sleep, emit. cbn [world authorization trace].
  rewrite (attempt_other_status 0 dataset _ _ _ r3 w3 G3 S3).
  unfold ret. rewrite <- !app_assoc. reflexivity.
Qed.

End FetchFacts.

(** ** PipelineOrchestrator *)

Lemma fetched_app (a b : list event) : fetched (a ++ b) = fetched a ++ fetched b.
Proof.
  induction a as [|e a IH]; [reflexivity|].
  destruct e; simpl; now rewrite IH.
Qed.

Lemma written_app (a b : list event) : written (a ++ b) = written a ++ written b.
Proof.
  induction a as [|e a IH]; [reflexivity|].
  destruct e; simpl; now rewrite IH.
Qed.

Lemma written_writes (ws : list (file * content)) :
  written (map (fun w => EvWrite (fst w) (snd w)) ws) = ws.
Proof.
  induction ws as [|[f c] ws IH]; simpl; [reflexivity|]. now rewrite IH.
Qed.

Lemma fetched_writes (ws : list (file * content)) :
  fetched (map (fun w => EvWrite (fst w) (snd w)) ws) = [].
Proof. induction ws as [|[f c] ws IH]; simpl; auto. Qed.

Section BatchFacts.
Context {World : Type}.
Variable http_get : World -> text -> option pyval -> http_result * World.
Variable http_post_auth : World -> http_result * World.
Variable OUTPUT_FORMAT : format.
Variable str_of : pyval -> text.

Local Notation renew := (get_auth_token http_post_auth).
Local Notation attempts := (fetch_loop http_get http_post_auth OUTPUT_FORMAT).
Local Notation fetch := (fetch_dataset http_get http_post_auth OUTPUT_FORMAT).
Local Notation batch :=
  (batch_loop http_get http_post_auth OUTPUT_FORMAT str_of).
Local Notation payloads :=
  (batch_payloads http_get http_post_auth OUTPUT_FORMAT str_of).
Local Notation run :=
  (fetch_and_save_all_datasets http_get http_post_auth OUTPUT_FORMAT str_of).

Lemma quiet_ret {A} (a : A) : quiet (ret (World := World) a).
Proof.
  intros s a' s' [= <- <-]. exists []. now rewrite app_nil_r.
Qed.

Lemma quiet_bind {A B} (m : M World A) (k : A -> M World B) :
  quiet m -> (forall a, quiet (k a)) -> quiet (bind m k).
Proof.
  intros Hm Hk s b s'. unfold bind.
  destruct (m s) as [a s1] eqn:E. intros K.
  destruct (Hm _ _ _ E) as (e1 & T1 & F1 & W1).
  destruct (Hk _ _ _ _ K) as (e2 & T2 & F2 & W2).
  exists (e1 ++ e2). rewrite T2, T1, <- app_assoc, fetched_app, written_app.
  now rewrite F1, F2, W1, W2.
Qed.

Lemma quiet_sleep (n : nat) : quiet (sleep (World := World) n).
Proof. intros s a s' [= <- <-]. now exists [EvSleep n]. Qed.

Lemma quiet_session_get (dataset : text) : quiet (session_get http_get dataset).
Proof.
  intros s a s'. unfold session_get.
  destruct (http_get (world s) dataset (authorization s)) as [res w].
  intros [= <- <-]. now exists [EvGet dataset (authorization s)].
Qed.

Lemma quiet_renew : quiet renew.
Proof.
  intros s t s' R. destruct (get_auth_token_spec _ _ _ _ R) as (T & _).
  now exists [EvAuthPost].
Qed.

Lemma quiet_attempts (n : nat) (dataset : text) : quiet (attempts n dataset).
Proof.
  induction n as [|n IH]; [apply quiet_ret|].
  intros s a s'. rewrite fetch_loop_S. cbv zeta. revert s a s'.
  assert (Retry : quiet (match n with
                         | 0 => ret PNone
                         | S _ => bind (sleep (2 ^ S (max_retries - S n)))
                                       (fun _ => attempts n dataset)
                         end)).
  { destruct n; [apply quiet_ret|].
    apply quiet_bind; [apply quiet_sleep|auto]. }
  assert (Check : forall r, quiet (if negb (Z.eqb (status_code r) 200)
                                   then match n with
                                        | 0 => ret PNone
                                        | S _ => bind (sleep (2 ^ S (max_retries - S n)))
                                                      (fun _ => attempts n dataset)
                                        end
                                   else ret (decode OUTPUT_FORMAT r))).
  { intros r. destruct (negb _); [exact Retry|apply quiet_ret]. }
  apply quiet_bind; [apply quiet_session_get|].
  intros [|r]; [exact Retry|].
  destruct (Z.eqb (status_code r) 401); [|apply Check].
  apply quiet_bind; [apply quiet_renew|].
  intros t. destruct (truthy t); [|apply quiet_ret].
  apply quiet_bind; [apply quiet_session_get|].
  intros [|r2]; [exact Retry|].
  destruct (Z.eqb (status_code r2) 401); [apply quiet_ret|apply Check].
Qed.

Local Notation after := (after_fetch str_of OUTPUT_FORMAT).

(** One turn of the loop. *)
Lemma batch_loop_cons (dataset : text) (rest : list text)
    (acc : bool * nat) (s : scraper World) :
  batch (dataset :: rest) acc s =
  let (data, s1) := fetch dataset (snd (emit (EvFetching dataset) s)) in
  batch rest (if truthy data then (true, S (snd acc)) else acc)
        (after dataset data s1).
Proof.
  cbn [batch_loop]. unfold bind at 1 2. cbn [emit snd].
  destruct (fetch dataset _) as [data s1]. unfold after_fetch, persisted.
  cbn [fst snd]. unfold bind at 1.
  destruct (truthy data).
  - unfold persist, bind, emit_writes, ret, sleep, emit.
    cbn [world authorization trace]. rewrite map_app, <- !app_assoc. reflexivity.
  - unfold bind, ret, sleep, emit. cbn [app]. reflexivity.
Qed.

Lemma batch_payloads_cons (dataset : text) (rest : list text) (s : scraper World) :
  payloads (dataset :: rest) s =
  let (data, s1) := fetch dataset (snd (emit (EvFetching dataset) s)) in
  (dataset, data) :: payloads rest (after dataset data s1).
Proof.
  cbn [batch_payloads].
  destruct (fetch dataset _) as [data s1]. unfold after_fetch, persisted.
  cbn [fst snd]. f_equal. f_equal.
  destruct (truthy data).
  - unfold persist, bind, emit_writes, ret, sleep, emit.
    cbn [world authorization trace snd]. rewrite map_app, <- !app_assoc. reflexivity.
  - unfold sleep, emit. cbn [app snd]. reflexivity.
Qed.

(** The whole loop: what it leaves in the trace and in its two counters. *)
Lemma batch_loop_spec (DATASETS : list text) :
  forall (acc : bool * nat) (s : scraper World),
  exists evs,
    trace (snd (batch DATASETS acc s)) = trace s ++ evs /\
    fetched evs = DATASETS /\
    written evs = flat_map (persisted str_of OUTPUT_FORMAT) (payloads DATASETS s) /\
    map fst (payloads DATASETS s) = DATASETS /\
    fst (fst (batch DATASETS acc s))
    = fst acc || existsb (fun p => truthy (snd p)) (payloads DATASETS s) /\
    snd (fst (batch DATASETS acc s))
    = snd acc + length (filter (fun p => truthy (snd p)) (payloads DATASETS s)).
Proof.
  induction DATASETS as [|dataset rest IH]; intros acc s.
  - exists []. cbn. rewrite app_nil_r, orb_false_r. repeat split; lia.
  - rewrite batch_loop_cons, batch_payloads_cons.
    destruct (fetch dataset (snd (emit (EvFetching dataset) s))) as [data s1] eqn:F.
    destruct (quiet_attempts _ _ _ _ _ F) as (e1 & T1 & F1 & W1).
    cbn [emit snd trace] in T1.
    destruct (IH (if truthy data then (true, S (snd acc)) else acc)
                 (after dataset data s1))
      as (e2 & T2 & F2 & W2 & M2 & B2 & C2).
    unfold after_fetch at 2 in T2. cbn [trace] in T2.
    eexists. split; [rewrite T2, T1, <- !app_assoc; reflexivity|].
    rewrite !fetched_app, !written_app. cbn [app fetched written].
    rewrite F1, W1, F2, W2, B2, C2. cbn [map flat_map existsb filter fst snd app].
    rewrite M2.
    destruct (truthy data) eqn:Tr; cbn [fst snd orb length app fetched written].
    + rewrite fetched_writes, written_writes, orb_true_r.
      repeat split; lia.
    + assert (P : persisted str_of OUTPUT_FORMAT (dataset, data) = [])
        by (unfold persisted; cbn [fst snd]; now rewrite Tr).
      rewrite P. repeat split; lia.
Qed.
(** C8, as the code has it: the batch announces and fetches every dataset
    in the configured order, whatever the earlier fetches returned; for each
    payload that is truthy it writes the full result first and the day
    partition after it, and for the others it writes nothing; its result is
    true exactly when one of the payloads is truthy. *)
Theorem batch_runs_every_dataset_in_order
    (DATASETS : list text) (s : scraper World) :
  exists evs,
    trace (snd (run DATASETS s)) = trace s ++ evs /\
    fetched evs = DATASETS /\
    map fst (payloads DATASETS s) = DATASETS /\
    written evs =
      flat_map (fun p =>
                  if truthy (snd p)
                  then save_dataset (fst p) (snd p) ++
                       save_data_by_day str_of OUTPUT_FORMAT
                                        (process_traffic_data (snd p)) (fst p)
                  else [])
               (payloads DATASETS s) /\
    (fst (run DATASETS s) = true <->
     exists dataset data,
       In (dataset, data) (payloads DATASETS s) /\ truthy data = true).
Proof.
  destruct (batch_loop_spec DATASETS (false, 0) s) as (evs & T & F & W & M & B & _).
  exists evs.
  assert (R : run DATASETS s
              = (fst (fst (batch DATASETS (false, 0) s)),
                 snd (batch DATASETS (false, 0) s))).
  { unfold fetch_and_save_all_datasets, bind, ret.
    now destruct (batch DATASETS (false, 0) s) as [[b n] s']. }
  rewrite R. cbn [fst snd]. repeat split; try assumption.
  - rewrite B. cbn [fst orb]. rewrite existsb_exists.
    intros ([d data] & Hin & Ht). eauto.
  - intros (d & data & Hin & Ht). rewrite B. cbn [fst orb].
    apply existsb_exists. now exists (d, data).
Qed.

(** C9: a fetch that returns an empty list or an empty mapping is handled
    as one that returns [None]: the loop goes on with its counters as they
    were and only the pause added to the trace, so nothing is persisted,
    and a batch of that dataset alone returns false. *)
Theorem empty_payload_is_treated_as_failure
    (dataset : text) (rest : list text) (acc : bool * nat)
    (s s1 : scraper World) (data : pyval) :
  fetch dataset (snd (emit (EvFetching dataset) s)) = (data, s1) ->
  data = PList [] \/ data = PDict [] ->
  batch (dataset :: rest) acc s
  = batch rest acc {| world := world s1; authorization := authorization s1;
                      trace := trace s1 ++ [EvSleep 2] |} /\
  after dataset data s1 = after dataset PNone s1 /\
  fst (run [dataset] s) = false.
Proof.
  intros F E.
  assert (Tr : truthy data = false) by (destruct E as [-> | ->]; reflexivity).
  assert (A : after dataset data s1
              = {| world := world s1; authorization := authorization s1;
                   trace := trace s1 ++ [EvSleep 2] |}).
  { unfold after_fetch. now rewrite Tr. }
  assert (B : forall rest' acc',
             batch (dataset :: rest') acc' s
             = batch rest' acc' {| world := world s1; authorization := authorization s1;
                                   trace := trace s1 ++ [EvSleep 2] |}).
  { intros rest' acc'. now rewrite batch_loop_cons, F, Tr, A. }
  repeat split.
  - apply B.
  - now rewrite A.
  - unfold fetch_and_save_all_datasets, bind. rewrite B. reflexivity.
Qed.
End BatchFacts.

(** ** The fetch and the batch against a scripted service *)

Lemma three_failed_attempts_then_failure_witness :
  fetch_dataset script_get script_post OUTPUT_FORMAT_JSON (lit "vkt")
    (start {| gets := [answer 500 None; answer 503 None; answer 500 None];
              posts := [] |})
  = (PNone,
     {| world := {| gets := []; posts := [] |};
        authorization := None;
        trace := [EvGet (lit "vkt") None; EvSleep 2;
                  EvGet (lit "vkt") None; EvSleep 4;
                  EvGet (lit "vkt") None] |}).
Proof.
  eapply (three_failed_attempts_then_failure script_get script_post
            OUTPUT_FORMAT_JSON (lit "vkt")
            (start {| gets := [answer 500 None; answer 503 None; answer 500 None];
                      posts := [] |})).
  - reflexivity.
  - split; discriminate.
  - reflexivity.
  - split; discriminate.
  - reflexivity.
  - split; discriminate.
Defined.

Lemma empty_payload_is_treated_as_failure_witness :
  fst (fetch_and_save_all_datasets script_get script_post OUTPUT_FORMAT_JSON
         (fun _ => []) [lit "vkt"]
         (start {| gets := [answer 200 (Some (PList []))]; posts := [] |}))
  = false.
Proof.
  apply (empty_payload_is_treated_as_failure script_get script_post
           OUTPUT_FORMAT_JSON (fun _ => []) (lit "vkt") [] (false, 0)
           (start {| gets := [answer 200 (Some (PList []))]; posts := [] |})
           {| world := {| gets := []; posts := [] |};
              authorization := None;
              trace := [EvFetching (lit "vkt"); EvGet (lit "vkt") None] |}
           (PList [])).
  - reflexivity.
  - left. reflexivity.
Defined.

(** C8 as stated fails: a fetch can succeed with an empty payload, and the
    batch then persists nothing and reports no success. *)
Lemma fetch_success_with_empty_payload_is_dropped :
  ~ (forall (DATASETS : list text) (s : scraper script),
        (forall dataset data,
            In (dataset, data)
               (batch_payloads script_get script_post OUTPUT_FORMAT_JSON
                               (fun _ => []) DATASETS s) ->
            data <> PNone ->
            exists c,
              In (FullFile dataset OUTPUT_FORMAT_JSON, c)
                 (written (trace (snd (fetch_and_save_all_datasets
                                         script_get script_post OUTPUT_FORMAT_JSON
                                         (fun _ => []) DATASETS s))))) /\
        (fst (fetch_and_save_all_datasets script_get script_post
                OUTPUT_FORMAT_JSON (fun _ => []) DATASETS s) = true <->
         exists dataset data,
           In (dataset, data)
              (batch_payloads script_get script_post OUTPUT_FORMAT_JSON
                              (fun _ => []) DATASETS s) /\
           data <> PNone)).
Proof.
  intros H.
  destruct (H [lit "vkt"]
              (start {| gets := [answer 200 (Some (PList []))]; posts := [] |}))
    as [_ [_ R]].
  assert (T : fst (fetch_and_save_all_datasets script_get script_post
                     OUTPUT_FORMAT_JSON (fun _ => []) [lit "vkt"]
                     (start {| gets := [answer 200 (Some (PList []))];
                               posts := [] |})) = true).
  { apply R. exists (lit "vkt"), (PList []). split; [now left|discriminate]. }
  discriminate T.
Qed.

(** ** ResponseNormalizer: the fallback *)

Lemma tokens_last (s : text) : s <> [] -> exists toks, tokens s = toks ++ [EOL].
Proof.
  induction s as [|c s IH]; [congruence|]. intros _. cbn [tokens].
  destruct s as [|c' s].
  - exists [Ch c]. now destruct (Ascii.eqb c LF).
  - destruct (IH ltac:(discriminate)) as [toks E]. rewrite E.
    eexists. rewrite app_comm_cons, app_assoc. reflexivity.
Qed.

Lemma eol_state (r r' : reader) :
  parse_process_char r EOL = Some r' ->
  state r' = START_RECORD \/ state r' = IN_QUOTED_FIELD.
Proof.
  destruct r as [st fs buf]. unfold parse_process_char. cbn [state].
  destruct st; intros [= <-]; cbn; auto.
Qed.

(** A text that is not empty gives at least one row, unless the reader
    raises. *)
Lemma read_rows_not_nil (toks : list token) :
  forall r, read_rows r (toks ++ [EOL]) <> Some [].
Proof.
  induction toks as [|t toks IH]; intros r; cbn [app read_rows].
  - destruct (parse_process_char r EOL) as [r'|] eqn:E; [|discriminate].
    destruct (eol_state _ _ E) as [S | S]; rewrite S; cbn [read_rows];
      [discriminate|].
    cbn [is_in_quoted]. rewrite orb_true_r. discriminate.
  - destruct (parse_process_char r t) as [r'|]; [|discriminate].
    destruct t as [c|]; [apply IH|].
    destruct (state r'); try apply IH.
    destruct (read_rows parse_reset (toks ++ [EOL])); discriminate.
Qed.

Lemma started_step (r r' : reader) (t : token) :
  started r -> parse_process_char r t = Some r' ->
  match t, state r' with
  | EOL, START_RECORD => fields r' <> []
  | _, _ => started r'
  end.
Proof.
  assert (Snoc : forall (fs : list text) (f : text), fs ++ [f] <> [])
    by (intros [|? ?] ?; discriminate).
  destruct r as [st fs buf]. unfold started, parse_process_char, start_field,
    end_of_record, parse_add_char, parse_save_field, set_state.
  cbn [state fields field].
  intros S E.
  destruct st, t as [c|];
    repeat match type of E with
           | context [if ?b then _ else _] => destruct b
           end;
    try discriminate E; injection E as <-; cbn [state fields field];
    try (right; exact I); try (left; apply Snoc); try apply Snoc;
    destruct S as [S | []]; try exact S; left; exact S.
Qed.

Lemma read_rows_first_row (toks : list token) :
  forall (r : reader) (row : list text) (rows : list (list text)),
    started r -> read_rows r toks = Some (row :: rows) -> row <> [].
Proof.
  induction toks as [|t toks IH]; intros r row rows S; cbn [read_rows].
  - destruct (_ || _); intros [= <- <-].
    cbn. now destruct (fields r).
  - destruct (parse_process_char r t) as [r'|] eqn:E; [|discriminate].
    pose proof (started_step _ _ _ S E) as S'.
    destruct t as [c|]; [now apply IH|].
    destruct (state r'); try (now apply IH).
    destruct (read_rows parse_reset toks); [|discriminate].
    now intros [= <- <-].
Qed.

Lemma lstrip_head (s s' : text) (c : ascii) :
  lstrip s = c :: s' -> is_space c = false.
Proof.
  induction s as [|x s IH]; cbn [lstrip]; [discriminate|].
  destruct (is_space x) eqn:E; [exact IH|]. now intros [= <- <-].
Qed.

Lemma lstrip_idem (s : text) : lstrip (lstrip s) = lstrip s.
Proof.
  induction s as [|x s IH]; cbn [lstrip]; [reflexivity|].
  destruct (is_space x) eqn:E; [exact IH|]. cbn [lstrip]. now rewrite E.
Qed.

Lemma rstrip_head (s : text) (c : ascii) :
  is_space c = false -> exists s', rstrip (c :: s) = c :: s'.
Proof.
  intros E. unfold rstrip. cbn [rev].
  induction (rev s) as [|x l IH]; cbn [app lstrip].
  - rewrite E. now exists [].
  - destruct (is_space x).
    + exact IH.
    + cbn [rev]. rewrite rev_app_distr. cbn. eauto.
Qed.

(** The trimmed text does not begin with whitespace. *)
Lemma strip_head (s s' : text) (c : ascii) :
  strip s = c :: s' -> is_space c = false.
Proof.
  unfold strip. destruct (lstrip s) as [|x l] eqn:L; [discriminate|].
  pose proof (lstrip_head _ _ _ L) as E.
  destruct (rstrip_head l x E) as [s'' R]. rewrite R.
  now intros [= <- _].
Qed.

(** On a trimmed text the reader never gives an empty header row, and it
    gives no row only when the text is empty. *)
Lemma csv_reader_trimmed (csv_text : text) :
  (csv_reader (strip csv_text) = Some [] -> strip csv_text = []) /\
  (forall rows, csv_reader (strip csv_text) <> Some ([] :: rows)).
Proof.
  unfold csv_reader. split.
  - intros R. destruct (strip csv_text) as [|c s] eqn:E; [reflexivity|].
    destruct (tokens_last (c :: s) ltac:(discriminate)) as [toks T].
    rewrite T in R. now apply read_rows_not_nil in R.
  - intros rows R. destruct (strip csv_text) as [|c s] eqn:E; [discriminate R|].
    pose proof (strip_head _ _ _ E) as Sp.
    assert (NL : is_newline c = false).
    { unfold is_newline. destruct (Ascii.eqb c LF) eqn:E1.
      - apply Ascii.eqb_eq in E1. subst c. discriminate Sp.
      - destruct (Ascii.eqb c CR) eqn:E2; [|reflexivity].
        apply Ascii.eqb_eq in E2. subst c. discriminate Sp. }
    cbn [tokens read_rows] in R.
    destruct (parse_process_char parse_reset (Ch c)) as [r'|] eqn:P;
      [|discriminate R].
    assert (S : started r').
    { unfold parse_process_char, parse_reset in P. cbn [state] in P.
      rewrite NL in P. unfold start_field in P. rewrite NL in P.
      unfold started.
      destruct (Ascii.eqb c DQUOTE); [injection P as <-; right; exact I|].
      destruct (Ascii.eqb c COMMA); [injection P as <-; left; discriminate|].
      destruct (parse_add_char _ c) as [r1|]; [|discriminate P].
      injection P as <-. right. exact I. }
    cbv beta iota in R.
    now apply (read_rows_first_row _ _ _ _ S) in R.
Qed.

(** The wrapper is the result only for a text that is blank or that makes
    the reader raise. *)
Lemma raw_wrapper_only_when_degraded (OUTPUT_FORMAT : format) (csv_text : text) :
  process_csv_response OUTPUT_FORMAT csv_text = raw_text (strip csv_text) ->
  strip csv_text = [] \/ csv_reader (strip csv_text) = None.
Proof.
  destruct (csv_reader_trimmed csv_text) as [Blank Header].
  unfold process_csv_response.
  destruct (csv_reader (strip csv_text)) as [[|headers rows]|]; auto.
  destruct headers as [|h headers]; [now destruct (Header rows)|].
  destruct OUTPUT_FORMAT; discriminate.
Qed.

(** C5, as the code has it: for a text that is empty, has no header row or
    makes the reader raise, the result is the raw-text wrapper around the
    text with its surrounding whitespace trimmed (the original text when
    there is none to trim), and so never an empty list of records; such a
    text is blank or makes the reader raise. *)
Theorem degraded_text_gives_raw_wrapper (OUTPUT_FORMAT : format) (csv_text : text) :
  csv_text = [] \/
  csv_reader (strip csv_text) = Some [] \/
  (exists rows, csv_reader (strip csv_text) = Some ([] :: rows)) \/
  csv_reader (strip csv_text) = None ->
  process_csv_response OUTPUT_FORMAT csv_text = raw_text (strip csv_text) /\
  process_csv_response OUTPUT_FORMAT csv_text <> PList [] /\
  (strip csv_text = csv_text ->
   process_csv_response OUTPUT_FORMAT csv_text = raw_text csv_text) /\
  (strip csv_text = [] \/ csv_reader (strip csv_text) = None).
Proof.
  intros H.
  assert (R : process_csv_response OUTPUT_FORMAT csv_text = raw_text (strip csv_text)).
  { unfold process_csv_response.
    destruct H as [-> | [E | [[rows E] | E]]]; [reflexivity| | |];
      now rewrite E. }
  rewrite R. repeat split.
  - discriminate.
  - now intros ->.
  - now apply (raw_wrapper_only_when_degraded OUTPUT_FORMAT).
Qed.

Lemma degraded_text_gives_raw_wrapper_witness :
  process_csv_response OUTPUT_FORMAT_JSON (lit "id,pkw" ++ [CR] ++ lit "7,3")
  = raw_text (lit "id,pkw" ++ [CR] ++ lit "7,3").
Proof.
  apply (degraded_text_gives_raw_wrapper OUTPUT_FORMAT_JSON
           (lit "id,pkw" ++ [CR] ++ lit "7,3")).
  - right. right. right. reflexivity.
  - reflexivity.
Defined.

(** C5 as stated fails: the wrapper does not carry the original text when
    that text has whitespace around it. *)
Lemma raw_wrapper_carries_trimmed_text :
  ~ (forall (OUTPUT_FORMAT : format) (csv_text : text),
        csv_text = [] \/
        csv_reader (strip csv_text) = Some [] \/
        (exists rows, csv_reader (strip csv_text) = Some ([] :: rows)) \/
        csv_reader (strip csv_text) = None ->
        process_csv_response OUTPUT_FORMAT csv_text = raw_text csv_text).
Proof.
  intros H.
  specialize (H OUTPUT_FORMAT_JSON (lit " ") (or_intror (or_introl eq_refl))).
  discriminate H.
Qed.

(** ** The reader on what the writer wrote *)

Lemma toks_body_app (a b : text) : toks_body (a ++ b) = toks_body a ++ toks_body b.
Proof. apply flat_map_app. Qed.

Lemma tokens_snoc (s : text) (c : ascii) :
  Ascii.eqb c LF = false -> tokens (s ++ [c]) = toks_body (s ++ [c]) ++ [EOL].
Proof.
  intros N. induction s as [|x s IH].
  - cbn. now rewrite N.
  - change ((x :: s) ++ [c]) with (x :: (s ++ [c])).
    cbn [tokens]. rewrite IH. unfold toks_body. cbn [flat_map].
    destruct (Ascii.eqb x LF); [reflexivity|].
    now destruct s.
Qed.

Lemma read_rows_feed (toks rest : list token) (r r' : reader) :
  feed r toks = Some r' -> read_rows r (toks ++ rest) = read_rows r' rest.
Proof.
  revert r. induction toks as [|t toks IH]; intros r; cbn [feed app read_rows].
  - now intros [= ->].
  - destruct (parse_process_char r t) as [r1|]; [|discriminate].
    destruct t as [c|]; [apply IH|].
    destruct (state r1); try apply IH. discriminate.
Qed.

Lemma feed_app (a b : list token) (r r1 r2 : reader) :
  feed r a = Some r1 -> feed r1 b = Some r2 -> feed r (a ++ b) = Some r2.
Proof.
  revert r. induction a as [|t a IH]; intros r; cbn [feed app].
  - now intros [= ->].
  - destruct (parse_process_char r t) as [r'|]; [|discriminate].
    destruct t as [c|]; [apply IH|].
    destruct (state r'); try apply IH. discriminate.
Qed.

Lemma parse_add_char_ok (st : parser_state) (fs : list text) (buf : text) (c : ascii) :
  (N.of_nat (length buf) < field_limit)%N ->
  parse_add_char (mkReader st fs buf) c = Some (mkReader st fs (buf ++ [c])).
Proof.
  intros H. unfold parse_add_char. cbn [field state fields].
  apply N.ltb_lt in H. now rewrite H.
Qed.

Lemma feed_ch (r r' : reader) (c : ascii) (toks : list token) :
  parse_process_char r (Ch c) = Some r' -> feed r (Ch c :: toks) = feed r' toks.
Proof. cbn [feed]. now intros ->. Qed.

Lemma quoted_char (fs : list text) (buf : text) (c : ascii) :
  Ascii.eqb c DQUOTE = false ->
  (N.of_nat (length buf) < field_limit)%N ->
  parse_process_char (mkReader IN_QUOTED_FIELD fs buf) (Ch c)
  = Some (mkReader IN_QUOTED_FIELD fs (buf ++ [c])).
Proof.
  intros Q L. unfold parse_process_char. cbn [state]. rewrite Q.
  now apply parse_add_char_ok.
Qed.

Lemma quoted_quote (fs : list text) (buf : text) :
  parse_process_char (mkReader IN_QUOTED_FIELD fs buf) (Ch DQUOTE)
  = Some (mkReader QUOTE_IN_QUOTED_FIELD fs buf).
Proof. reflexivity. Qed.

Lemma quote_quote (fs : list text) (buf : text) :
  (N.of_nat (length buf) < field_limit)%N ->
  parse_process_char (mkReader QUOTE_IN_QUOTED_FIELD fs buf) (Ch DQUOTE)
  = Some (mkReader IN_QUOTED_FIELD fs (buf ++ [DQUOTE])).
Proof.
  intros L. unfold parse_process_char. cbn [state]. rewrite Ascii.eqb_refl.
  now rewrite parse_add_char_ok.
Qed.

Lemma quoted_eol (fs : list text) (buf : text) :
  parse_process_char (mkReader IN_QUOTED_FIELD fs buf) EOL
  = Some (mkReader IN_QUOTED_FIELD fs buf).
Proof. reflexivity. Qed.

(** The text of a field between its quotes. *)
Lemma feed_double_quotes (f : text) :
  forall (fs : list text) (buf : text),
    (N.of_nat (length buf + length f) <= field_limit)%N ->
    feed (mkReader IN_QUOTED_FIELD fs buf) (toks_body (double_quotes f))
    = Some (mkReader IN_QUOTED_FIELD fs (buf ++ f)).
Proof.
  induction f as [|c f IH]; intros fs buf L.
  - cbn. now rewrite app_nil_r.
  - assert (L1 : (N.of_nat (length buf) < field_limit)%N) by (cbn [length] in L; lia).
    assert (L2 : (N.of_nat (length (buf ++ [c]) + length f) <= field_limit)%N)
      by (rewrite length_app; cbn [length] in *; lia).
    specialize (IH fs (buf ++ [c]) L2).
    rewrite <- app_assoc in IH. cbn [app] in IH.
    unfold double_quotes. cbn [flat_map]. fold (double_quotes f).
    rewrite toks_body_app.
    eapply feed_app; [|exact IH].
    destruct (Ascii.eqb c DQUOTE) eqn:Q.
    + apply Ascii.eqb_eq in Q. subst c.
      change (toks_body [DQUOTE; DQUOTE]) with [Ch DQUOTE; Ch DQUOTE].
      rewrite (feed_ch _ _ _ _ (quoted_quote fs buf)).
      rewrite (feed_ch _ _ _ _ (quote_quote fs buf L1)).
      reflexivity.
    + unfold toks_body. cbn [flat_map].
      destruct (Ascii.eqb c LF) eqn:E; cbn [app];
        rewrite (feed_ch _ _ _ _ (quoted_char fs buf c Q L1)); reflexivity.
Qed.

Lemma toks_body_cons (c : ascii) (s : text) :
  Ascii.eqb c LF = false -> toks_body (c :: s) = Ch c :: toks_body s.
Proof. intros E. unfold toks_body. cbn [flat_map]. now rewrite E. Qed.

(** A quoted field, read at the start of a record or of a field. *)
Lemma feed_quote_field (st : parser_state) (fs : list text) (f : text) :
  st = START_RECORD \/ st = START_FIELD ->
  (N.of_nat (length f) <= field_limit)%N ->
  feed (mkReader st fs []) (toks_body (quote_field f))
  = Some (mkReader QUOTE_IN_QUOTED_FIELD fs f).
Proof.
  intros Hst L. unfold quote_field.
  rewrite toks_body_cons by reflexivity.
  rewrite toks_body_app.
  assert (Open : parse_process_char (mkReader st fs []) (Ch DQUOTE)
                 = Some (mkReader IN_QUOTED_FIELD fs []))
    by (destruct Hst as [-> | ->]; reflexivity).
  rewrite (feed_ch _ _ _ _ Open).
  eapply feed_app; [apply feed_double_quotes; exact L|].
  cbn [app]. change (toks_body [DQUOTE]) with [Ch DQUOTE].
  now rewrite (feed_ch _ _ _ _ (quoted_quote fs f)).
Qed.

Lemma read_rows_end (fs : list text) (buf : text) (term rest : list token) :
  row_end term ->
  read_rows (mkReader QUOTE_IN_QUOTED_FIELD fs buf) (term ++ rest)
  = rows <- read_rows parse_reset rest ;; Some ((fs ++ [buf]) :: rows).
Proof. intros [-> | ->]; reflexivity. Qed.

Lemma read_rows_row (row : list text) :
  row <> [] -> Forall within_limit row ->
  forall (st : parser_state) (fs : list text) (term rest : list token),
    st = START_RECORD \/ st = START_FIELD ->
    row_end term ->
    read_rows (mkReader st fs []) (toks_body (row_text row) ++ term ++ rest)
    = rows <- read_rows parse_reset rest ;; Some ((fs ++ row) :: rows).
Proof.
  induction row as [|f row IH]; [congruence|].
  intros _ L st fs term rest Hst Hterm.
  apply Forall_cons_iff in L as [Lf L].
  pose proof (feed_quote_field st fs f Hst Lf) as F.
  destruct row as [|f2 row].
  - change (row_text [f]) with (quote_field f).
    rewrite (read_rows_feed _ _ _ _ F). now apply read_rows_end.
  - change (row_text (f :: f2 :: row))
      with (quote_field f ++ COMMA :: row_text (f2 :: row)).
    rewrite toks_body_app, toks_body_cons by reflexivity.
    rewrite <- app_assoc. rewrite (read_rows_feed _ _ _ _ F).
    cbn [app read_rows].
    change (parse_process_char (mkReader QUOTE_IN_QUOTED_FIELD fs f) (Ch COMMA))
      with (Some (mkReader START_FIELD (fs ++ [f]) [])).
    cbv beta iota.
    rewrite (IH ltac:(discriminate) L START_FIELD (fs ++ [f]) term rest
                (or_intror eq_refl) Hterm).
    now rewrite <- app_assoc.
Qed.

(** The lines of a file: every row but the last with its terminator. *)
Lemma read_rows_lines (init : list (list text)) :
  forall (last : list text),
    Forall (fun row => row <> [] /\ Forall within_limit row) (init ++ [last]) ->
    read_rows parse_reset
      (toks_body (flat_map (writerow CRLF) init ++ row_text last) ++ [EOL])
    = Some (init ++ [last]).
Proof.
  induction init as [|row init IH]; intros last H.
  - cbn [flat_map app]. apply Forall_cons_iff in H as [[Hne HL] _].
    pose proof (read_rows_row last Hne HL START_RECORD [] [EOL] []
                  (or_introl eq_refl) (or_intror eq_refl)) as R.
    rewrite app_nil_r in R. exact R.
  - cbn [flat_map app] in *. apply Forall_cons_iff in H as [[Hne HL] H].
    unfold writerow at 1. rewrite <- !app_assoc, toks_body_app.
    rewrite (toks_body_app CRLF).
    change (toks_body CRLF) with [Ch CR; Ch LF; EOL].
    rewrite <- !app_assoc.
    rewrite (read_rows_row row Hne HL START_RECORD [] [Ch CR; Ch LF; EOL] _
               (or_introl eq_refl) (or_introl eq_refl)).
    now rewrite (IH last H).
Qed.

Lemma row_text_head (row : list text) :
  row <> [] -> exists m, row_text row = DQUOTE :: m.
Proof.
  destruct row as [|f [|f2 row]]; [congruence| |]; intros _.
  - now exists (double_quotes f ++ [DQUOTE]).
  - change (row_text (f :: f2 :: row))
      with (quote_field f ++ COMMA :: row_text (f2 :: row)).
    unfold quote_field at 1. cbn [app]. eauto.
Qed.

Lemma row_text_last (row : list text) :
  row <> [] -> exists m, row_text row = m ++ [DQUOTE].
Proof.
  induction row as [|f row IH]; [congruence|]. intros _.
  destruct row as [|f2 row].
  - exists (DQUOTE :: double_quotes f). reflexivity.
  - destruct (IH ltac:(discriminate)) as [m Hm].
    change (row_text (f :: f2 :: row))
      with (quote_field f ++ COMMA :: row_text (f2 :: row)).
    rewrite Hm. exists (quote_field f ++ COMMA :: m).
    now rewrite <- app_assoc.
Qed.

Lemma rstrip_snoc_space (s : text) (c : ascii) :
  is_space c = true -> rstrip (s ++ [c]) = rstrip s.
Proof.
  intros H. unfold rstrip. rewrite rev_app_distr. cbn [rev app lstrip].
  now rewrite H.
Qed.

Lemma rstrip_snoc_other (s : text) (c : ascii) :
  is_space c = false -> rstrip (s ++ [c]) = s ++ [c].
Proof.
  intros H. unfold rstrip. rewrite rev_app_distr. cbn [rev app lstrip].
  rewrite H. cbn [rev]. now rewrite rev_involutive.
Qed.

(** [strip] takes the last line terminator off a file of quoted fields and
    nothing else. *)
Lemma strip_quoted_lines (m m' : text) :
  DQUOTE :: m = m' ++ [DQUOTE] ->
  strip ((DQUOTE :: m) ++ CRLF) = DQUOTE :: m.
Proof.
  intros E. unfold strip.
  assert (L : lstrip ((DQUOTE :: m) ++ CRLF) = (DQUOTE :: m) ++ CRLF)
    by reflexivity.
  rewrite L. change CRLF with ([CR] ++ [LF]). rewrite app_assoc.
  rewrite rstrip_snoc_space, rstrip_snoc_space by reflexivity.
  rewrite E. now apply rstrip_snoc_other.
Qed.

(** Reading back a file written with every field quoted. *)
Lemma csv_reader_written (rows : list (list text)) :
  rows <> [] ->
  Forall (fun row => row <> [] /\ Forall within_limit row) rows ->
  csv_reader (strip (flat_map (writerow CRLF) rows)) = Some rows.
Proof.
  intros Hne H.
  destruct (exists_last Hne) as (init & last & ->).
  rewrite flat_map_app. cbn [flat_map]. rewrite app_nil_r.
  unfold writerow at 2. fold (row_text last). rewrite app_assoc.
  assert (Hlast : last <> [] /\ Forall within_limit last).
  { rewrite Forall_forall in H. apply H, in_or_app. right. now left. }
  destruct (row_text_last last (proj1 Hlast)) as [m' Hm'].
  assert (Hhead : exists m, flat_map (writerow CRLF) init ++ row_text last
                            = DQUOTE :: m).
  { destruct init as [|row init].
    - cbn [flat_map app]. apply row_text_head, Hlast.
    - apply Forall_cons_iff in H as [[Hrow _] _].
      destruct (row_text_head row Hrow) as [m Hm].
      cbn [flat_map]. unfold writerow at 1. fold (row_text row).
      rewrite Hm. cbn [app]. eauto. }
  destruct Hhead as [m Hm].
  assert (E : DQUOTE :: m = (flat_map (writerow CRLF) init ++ m') ++ [DQUOTE])
    by (now rewrite <- Hm, Hm', app_assoc).
  rewrite Hm, (strip_quoted_lines m _ E).
  unfold csv_reader. rewrite E, tokens_snoc by reflexivity.
  rewrite <- E, <- Hm. now apply read_rows_lines.
Qed.

(** ** The round trip of a day file *)

Lemma dict_set_absent {V} (k : text) (v : V) (d : list (text * V)) :
  ~ In k (dict_keys d) -> dict_set k v d = d ++ [(k, v)].
Proof.
  induction d as [|[k0 v0] d IH]; cbn [dict_set dict_keys map fst app In];
    [reflexivity|].
  intros H. rewrite text_eqb_neq by (intros ->; apply H; now left).
  rewrite IH; [reflexivity|]. intros HI. apply H. now right.
Qed.

Lemma dict_values_in_order {V} (dflt : V) (d : list (text * V)) :
  NoDup (dict_keys d) ->
  map (fun key => match dict_get key d with
                  | Some v => v
                  | None => dflt
                  end) (dict_keys d) = map snd d.
Proof.
  induction d as [|[k0 v0] d IH]; cbn [dict_keys map fst snd]; [reflexivity|].
  intros N. apply NoDup_cons_iff in N as [Hk N].
  cbn [dict_get]. rewrite text_eqb_refl. f_equal.
  rewrite <- (IH N). apply map_ext_in. intros k Hin.
  rewrite text_eqb_neq; [reflexivity|]. intros ->. contradiction.
Qed.

Lemma fold_set_fresh {V} (l : list (text * V)) :
  forall acc : list (text * V),
    NoDup (dict_keys acc ++ dict_keys l) ->
    fold_left (fun entry hv => dict_set (fst hv) (snd hv) entry) l acc = acc ++ l.
Proof.
  induction l as [|[k v] l IH]; intros acc N; cbn [fold_left fst snd].
  - now rewrite app_nil_r.
  - cbn [dict_keys map fst] in N.
    assert (Hk : ~ In k (dict_keys acc)).
    { apply NoDup_remove_2 in N. intros HI. apply N, in_or_app. now left. }
    rewrite (dict_set_absent k v acc Hk), IH.
    + now rewrite <- app_assoc.
    + unfold dict_keys in *. rewrite map_app, <- app_assoc. exact N.
Qed.

Lemma filter_all {A} (f : A -> bool) (l : list A) :
  Forall (fun x => f x = true) l -> filter f l = l.
Proof.
  induction 1 as [|x l Hx Hl IH]; cbn [filter]; [reflexivity|].
  now rewrite Hx, IH.
Qed.

Lemma clean_values (fields : list (text * pyval)) :
  Forall (fun kv => exists v, snd kv = PStr v /\ clean v) fields ->
  map (fun kv => (fst kv, PStr (strip (snd kv))))
      (combine (dict_keys fields) (str_values fields)) = fields /\
  map snd fields = map PStr (str_values fields) /\
  Forall within_limit (str_values fields).
Proof.
  induction 1 as [|[k v] l (t & Ht & St & Lt) Hl (IH1 & IH2 & IH3)];
    cbn [dict_keys str_values map fst snd combine] in *.
  - repeat split. constructor.
  - subst v. cbn [snd]. fold (dict_keys l) (str_values l).
    rewrite IH1, IH2, St. repeat split. constructor; assumption.
Qed.

Lemma make_entry_fold (c : list (text * text)) :
  forall acc : list (text * pyval),
    fold_left (fun entry hv => dict_set (fst hv) (PStr (strip (snd hv))) entry) c acc
    = fold_left (fun entry hv => dict_set (fst hv) (snd hv) entry)
                (map (fun kv => (fst kv, PStr (strip (snd kv)))) c) acc.
Proof.
  induction c as [|hv c IH]; intros acc; cbn [map fold_left fst snd];
    [reflexivity|apply IH].
Qed.

Lemma make_entry_clean (fields : list (text * pyval)) :
  NoDup (dict_keys fields) ->
  Forall (fun kv => exists v, snd kv = PStr v /\ clean v) fields ->
  make_entry (dict_keys fields) (str_values fields) = fields.
Proof.
  intros N C. destruct (clean_values fields C) as (E & _ & _).
  unfold make_entry. rewrite make_entry_fold, E.
  now apply fold_set_fresh.
Qed.

Section DayCsvFacts.
Variable str_of : pyval -> text.

Lemma dict_to_list_clean (names : list text) (record : pyval) :
  NoDup names -> clean_record names record ->
  option_map (map (csv_field str_of)) (dict_to_list names record)
  = Some (record_row record) /\
  length (record_row record) = length names /\
  Forall within_limit (record_row record) /\
  PDict (make_entry names (record_row record)) = record.
Proof.
  intros N (fields & -> & <- & C).
  destruct (clean_values fields C) as (_ & V & L).
  cbn [dict_to_list record_row].
  assert (K : forallb (fun k => existsb (text_eqb k) (dict_keys fields))
                      (dict_keys fields) = true).
  { apply forallb_forall. intros k Hk. apply existsb_exists.
    exists k. split; [assumption|apply text_eqb_refl]. }
  rewrite K. cbn [option_map]. rewrite dict_values_in_order, V by assumption.
  rewrite map_map. cbn [csv_field]. rewrite map_id.
  repeat split.
  - unfold str_values, dict_keys. now rewrite !length_map.
  - assumption.
  - now rewrite make_entry_clean.
Qed.

Lemma writerows_clean (names : list text) (data : list pyval) :
  NoDup names -> Forall (clean_record names) data ->
  writerows str_of names data
  = (flat_map (writerow CRLF) (map record_row data), true).
Proof.
  intros N. induction 1 as [|r data Hr Hd IH]; cbn [writerows map flat_map];
    [reflexivity|].
  destruct (dict_to_list_clean names r N Hr) as (E & _).
  destruct (dict_to_list names r) as [row|]; [|discriminate].
  cbn [option_map] in E. injection E as E. now rewrite IH, E.
Qed.
End DayCsvFacts.

Lemma map_fixed {A} (f : A -> A) (l : list A) :
  Forall (fun x => f x = x) l -> map f l = l.
Proof.
  induction 1 as [|x l Hx _ IH]; cbn [map]; [reflexivity|now rewrite Hx, IH].
Qed.

(** What [process_csv_response] makes of a header and rows that it reads
    back unchanged. *)
Lemma process_csv_rows (csv_text : text) (names : list text) (data : list pyval) :
  names <> [] ->
  Forall clean names ->
  Forall (fun r => length (record_row r) = length names /\
                   PDict (make_entry names (record_row r)) = r) data ->
  csv_reader (strip csv_text) = Some (names :: map record_row data) ->
  process_csv_response OUTPUT_FORMAT_JSON csv_text = PList data.
Proof.
  intros Hne Hnames Hrows R. unfold process_csv_response. rewrite R.
  assert (Hs : map strip names = names).
  { apply map_fixed. eapply Forall_impl; [|exact Hnames]. now intros k [Hk _]. }
  destruct names as [|n names']; [congruence|]. rewrite Hs.
  rewrite filter_all.
  - f_equal. rewrite map_map. apply map_fixed.
    eapply Forall_impl; [|exact Hrows]. now intros r [_ Hr].
  - apply Forall_map. eapply Forall_impl; [|exact Hrows].
    intros r (L & _). unfold row_fits. now rewrite L, Nat.eqb_refl.
Qed.

(** C6, as the code has it: a day's records that share their field names in
    the same order, have at least one field, and whose names and values are
    texts that [strip] leaves alone and the reader's field limit allows,
    come back equal, field for field, when the CSV day file is read again
    by the delimited-text path with JSON output. *)
Theorem day_csv_round_trip
    (str_of : pyval -> text) (first : list (text * pyval)) (rest : list pyval) :
  first <> [] ->
  NoDup (dict_keys first) ->
  Forall clean (dict_keys first) ->
  Forall (clean_record (dict_keys first)) (PDict first :: rest) ->
  exists out,
    day_csv str_of (PDict first :: rest) = Some (out, true) /\
    process_csv_response OUTPUT_FORMAT_JSON out = PList (PDict first :: rest).
Proof.
  intros Hne N Hnames Hdata.
  assert (Hlen : dict_keys first <> [])
    by (destruct first; [congruence|discriminate]).
  assert (Hrows : Forall (fun r =>
            length (record_row r) = length (dict_keys first) /\
            Forall within_limit (record_row r) /\
            PDict (make_entry (dict_keys first) (record_row r)) = r)
            (PDict first :: rest)).
  { eapply Forall_impl; [|exact Hdata]. intros r Hr.
    now destruct (dict_to_list_clean str_of _ r N Hr) as (_ & ? & ? & ?). }
  exists (flat_map (writerow CRLF)
            (dict_keys first :: map record_row (PDict first :: rest))).
  split.
  - cbn [day_csv].
    now rewrite (writerows_clean str_of _ _ N Hdata).
  - apply process_csv_rows with (names := dict_keys first); try assumption.
    + eapply Forall_impl; [|exact Hrows]. now intros r (? & _ & ?).
    + apply csv_reader_written; [discriminate|].
      constructor.
      * split; [assumption|].
        eapply Forall_impl; [|exact Hnames]. now intros k [_ Hk].
      * apply Forall_map. eapply Forall_impl; [|exact Hrows].
        intros r (L & W & _). split; [|assumption].
        intros E. rewrite E in L. destruct (dict_keys first);
          [congruence|discriminate].
Qed.

Lemma day_csv_round_trip_witness :
  exists out,
    day_csv (fun _ => [])
      [PDict [("datum" : text, PStr "05-01-2024"); ("pkw" : text, PStr "12")];
       PDict [("datum" : text, PStr "05-01-2024"); ("pkw" : text, PStr "7, or 8")]]
    = Some (out, true) /\
    process_csv_response OUTPUT_FORMAT_JSON out
    = PList
        [PDict [("datum" : text, PStr "05-01-2024"); ("pkw" : text, PStr "12")];
         PDict [("datum" : text, PStr "05-01-2024"); ("pkw" : text, PStr "7, or 8")]].
Proof.
  apply (day_csv_round_trip (fun _ => [])
           [("datum" : text, PStr "05-01-2024"); ("pkw" : text, PStr "12")]
           [PDict [("datum" : text, PStr "05-01-2024");
                   ("pkw" : text, PStr "7, or 8")]]).
  - discriminate.
  - repeat constructor; cbn; intuition discriminate.
  - repeat constructor; vm_compute; discriminate.
  - repeat constructor.
    + eexists. split; [reflexivity|]. split; [reflexivity|].
      repeat constructor; eexists; (split; [reflexivity|]);
        split; vm_compute; (reflexivity || discriminate).
    + eexists. split; [reflexivity|]. split; [reflexivity|].
      repeat constructor; eexists; (split; [reflexivity|]);
        split; vm_compute; (reflexivity || discriminate).
Defined.

(** C6 as stated fails: a value with whitespace around it comes back
    trimmed. *)
Lemma padded_value_does_not_round_trip :
  ~ (forall (str_of : pyval -> text) (first : list (text * pyval))
            (rest : list pyval) (out : text),
        first <> [] ->
        Forall (fun r => exists fields,
                    r = PDict fields /\ dict_keys fields = dict_keys first)
               (PDict first :: rest) ->
        day_csv str_of (PDict first :: rest) = Some (out, true) ->
        process_csv_response OUTPUT_FORMAT_JSON out = PList (PDict first :: rest)).
Proof.
  intros H.
  specialize (H (fun _ => []) [("pkw" : text, PStr " 12")] []
                (writerow CRLF [lit "pkw"] ++ writerow CRLF [lit " 12"])).
  assert (E : process_csv_response OUTPUT_FORMAT_JSON
                (writerow CRLF [lit "pkw"] ++ writerow CRLF [lit " 12"])
              = PList [PDict [("pkw" : text, PStr "12")]]) by reflexivity.
  rewrite E in H.
  assert (C : PList [PDict [("pkw" : text, PStr "12")]]
              = PList [PDict [("pkw" : text, PStr " 12")]]).
  { apply H.
    - discriminate.
    - repeat constructor. eexists. split; reflexivity.
    - reflexivity. }
  discriminate C.
Qed.

(** * Further properties *)

(** ** DayPartitioner: order *)

Lemma dict_has_keys {V} (k : text) (d : list (text * V)) :
  dict_has k d = existsb (text_eqb k) (dict_keys d).
Proof.
  unfold dict_has. induction d as [|[k0 v0] d IH]; cbn; [reflexivity|].
  destruct (text_eqb k0 k) eqn:E.
  - apply text_eqb_eq in E. subst. now rewrite text_eqb_refl.
  - rewrite IH. destruct (text_eqb k k0) eqn:E'; [|reflexivity].
    apply text_eqb_eq in E'. subst. now rewrite text_eqb_refl in E.
Qed.

Lemma filed_under_key (r : pyval) (k k' : text) :
  record_day_key r = Some k -> filed_under k' r = text_eqb k k'.
Proof. unfold filed_under. now intros ->. Qed.

Lemma filed_under_skipped (r : pyval) (k : text) :
  record_day_key r = None -> filed_under k r = false.
Proof. unfold filed_under. now intros ->. Qed.

Lemma organize_lookup (data : list pyval) :
  forall k, dict_get k (fst (organize data))
            = match filter (filed_under k) data with
              | [] => None
              | r :: rs => Some (r :: rs)
              end.
Proof.
  apply (organize_ind (fun seen od _ =>
    forall k, dict_get k od = match filter (filed_under k) seen with
                              | [] => None
                              | r :: rs => Some (r :: rs)
                              end)).
  - reflexivity.
  - intros seen od sk r k0 IH E k. rewrite filter_app. cbn [filter].
    rewrite (filed_under_key _ _ _ E).
    destruct (text_eq_dec k0 k) as [->|N].
    + rewrite text_eqb_refl, bucket_append_get. unfold bucket_of. rewrite IH.
      now destruct (filter (filed_under k) seen).
    + rewrite (text_eqb_neq _ _ N), app_nil_r.
      rewrite bucket_append_get_other by assumption. apply IH.
  - intros seen od sk r IH E k. rewrite filter_app. cbn [filter].
    rewrite (filed_under_skipped _ _ E), app_nil_r. apply IH.
Qed.

Lemma organize_key_order (data : list pyval) :
  dict_keys (fst (organize data)) = distinct (day_keys data).
Proof.
  apply (organize_ind (fun seen od _ => dict_keys od = distinct (day_keys seen))).
  - reflexivity.
  - intros seen od sk r k IH E. rewrite bucket_append_keys.
    unfold day_keys, distinct. rewrite flat_map_app, fold_left_app.
    cbn [flat_map]. rewrite E. cbn [app fold_left].
    fold (day_keys seen). fold (distinct (day_keys seen)). rewrite <- IH.
    unfold add_key. now rewrite dict_has_keys.
  - intros seen od sk r IH E.
    unfold day_keys, distinct. rewrite flat_map_app, fold_left_app.
    cbn [flat_map]. rewrite E. cbn [app fold_left]. exact IH.
Qed.

(** X1: the bucket of a day-key holds exactly the records filed under that
    key, in the order in which they come in the input; a key under which no
    record is filed is absent; the keys come in the order of their first
    record. *)
Theorem buckets_keep_input_order (data : list pyval) (k : text) :
  dict_get k (process_traffic_data (PList data))
  = (if existsb (filed_under k) data
     then Some (PList (filter (filed_under k) data))
     else None) /\
  dict_keys (process_traffic_data (PList data)) = distinct (day_keys data).
Proof.
  cbn [process_traffic_data]. rewrite buckets_to_py_get, buckets_to_py_keys.
  rewrite organize_lookup, organize_key_order. split; [|reflexivity].
  induction data as [|r data IH]; cbn [filter existsb]; [reflexivity|].
  destruct (filed_under k r); cbn [orb option_map]; [reflexivity|exact IH].
Qed.

(** ** AuthManager and FetchClient: outcomes and bounds *)

Lemma gets_sent_app (a b : list event) :
  gets_sent (a ++ b) = gets_sent a + gets_sent b.
Proof.
  induction a as [|e a IH]; [reflexivity|]. destruct e; cbn; now rewrite IH.
Qed.

Lemma posts_sent_app (a b : list event) :
  posts_sent (a ++ b) = posts_sent a + posts_sent b.
Proof.
  induction a as [|e a IH]; [reflexivity|]. destruct e; cbn; now rewrite IH.
Qed.

Lemma slept_app (a b : list event) : slept (a ++ b) = slept a + slept b.
Proof.
  induction a as [|e a IH]; [reflexivity|].
  destruct e; cbn [app slept]; rewrite IH; lia.
Qed.

Section FetchBounds.
Context {World : Type}.
Variable http_get : World -> text -> option pyval -> http_result * World.
Variable http_post_auth : World -> http_result * World.
Variable OUTPUT_FORMAT : format.

Local Notation renew := (get_auth_token http_post_auth).
Local Notation attempts := (fetch_loop http_get http_post_auth OUTPUT_FORMAT).
Local Notation fetch := (fetch_dataset http_get http_post_auth OUTPUT_FORMAT).

(** X2: a call of [get_auth_token] sends exactly one token request.  It
    either returns [None] and leaves the session's token as it was, or the
    request was answered with status 200 and a JSON object that has an
    [access_token], and that value is both returned and installed in the
    session. *)
Theorem get_auth_token_outcome (s s' : scraper World) (t : pyval) :
  renew s = (t, s') ->
  trace s' = trace s ++ [EvAuthPost] /\
  world s' = snd (http_post_auth (world s)) /\
  ((t = PNone /\ authorization s' = authorization s) \/
   (exists r d,
       fst (http_post_auth (world s)) = Answered r /\
       status_code r = 200%Z /\
       json r = Some (PDict d) /\
       dict_get "access_token" d = Some t /\
       authorization s' = Some t)).
Proof.
  unfold get_auth_token, bind, post_auth, ret, set_auth_token.
  destruct (http_post_auth (world s)) as [res w]. cbn [fst snd].
  destruct res as [|r];
    [intros [= <- <-]; cbn; auto|].
  destruct (Z.eqb (status_code r) 200) eqn:St;
    [|intros [= <- <-]; cbn; auto].
  apply Z.eqb_eq in St.
  destruct (json r) as [auth_result|] eqn:J;
    [|intros [= <- <-]; cbn; auto].
  destruct (py_in "access_token" auth_result) as [[|]|];
    try (intros [= <- <-]; cbn; auto).
  destruct auth_result as [| | | | |d];
    try (intros [= <- <-]; cbn; auto).
  destruct (dict_get "access_token" d) as [token|] eqn:D;
    intros [= <- <-]; cbn; auto.
  repeat split. right. exists r, d. auto.
Qed.

Lemma bounded_ret {A} (a : A) : bounded 0 0 0 (ret (World := World) a).
Proof.
  intros s a' s' [= <- <-]. exists []. rewrite app_nil_r. cbn. auto.
Qed.

Lemma bounded_weaken {A} (g p sl g' p' sl' : nat) (m : M World A) :
  g <= g' -> p <= p' -> sl <= sl' -> bounded g p sl m -> bounded g' p' sl' m.
Proof.
  intros Hg Hp Hs H s a s' E.
  destruct (H _ _ _ E) as (evs & T & G & P & S & Au).
  exists evs. repeat split; try assumption; lia.
Qed.

Lemma bounded_bind {A B} (g1 p1 sl1 g2 p2 sl2 : nat)
    (m : M World A) (k : A -> M World B) :
  bounded g1 p1 sl1 m -> (forall a, bounded g2 p2 sl2 (k a)) ->
  bounded (g1 + g2) (p1 + p2) (sl1 + sl2) (bind m k).
Proof.
  intros Hm Hk s b s'. unfold bind.
  destruct (m s) as [a s1] eqn:E. intros K.
  destruct (Hm _ _ _ E) as (e1 & T1 & G1 & P1 & S1 & A1).
  destruct (Hk _ _ _ _ K) as (e2 & T2 & G2 & P2 & S2 & A2).
  exists (e1 ++ e2).
  rewrite T2, T1, <- app_assoc, gets_sent_app, posts_sent_app, slept_app.
  repeat split; try lia.
  intros Z. rewrite A2, A1; [reflexivity|lia|lia].
Qed.

Lemma bounded_sleep (n : nat) : bounded 0 0 n (sleep (World := World) n).
Proof.
  intros s a s' [= <- <-]. exists [EvSleep n]. cbn. repeat split; lia.
Qed.

Lemma bounded_session_get (dataset : text) :
  bounded 1 0 0 (session_get http_get dataset).
Proof.
  intros s a s'. unfold session_get.
  destruct (http_get (world s) dataset (authorization s)) as [res w].
  intros [= <- <-]. exists [EvGet dataset (authorization s)]. cbn. auto.
Qed.

Lemma bounded_renew : bounded 0 1 0 renew.
Proof.
  intros s t s' R. destruct (get_auth_token_spec _ _ _ _ R) as (T & _).
  exists [EvAuthPost]. cbn. repeat split; auto. discriminate.
Qed.

Lemma bounded_attempts (n : nat) (dataset : text) :
  bounded (2 * n) n (backoff_total n) (attempts n dataset).
Proof.
  induction n as [|n IH]; [apply bounded_ret|].
  intros s a s'. rewrite fetch_loop_S. cbv zeta. revert s a s'.
  set (w := match n with
            | 0 => 0
            | S _ => 2 ^ S (max_retries - S n) + backoff_total n
            end).
  assert (W : backoff_total (S n) = w) by reflexivity.
  assert (Retry : bounded (2 * n) n w
                    (match n with
                     | 0 => ret PNone
                     | S _ => bind (sleep (2 ^ S (max_retries - S n)))
                                   (fun _ => attempts n dataset)
                     end)).
  { unfold w. destruct n; [apply bounded_ret|].
    apply (bounded_bind 0 0 _ _ _ _); [apply bounded_sleep|auto]. }
  assert (Check : forall r, bounded (2 * n) n w
                    (if negb (Z.eqb (status_code r) 200)
                     then match n with
                          | 0 => ret PNone
                          | S _ => bind (sleep (2 ^ S (max_retries - S n)))
                                        (fun _ => attempts n dataset)
                          end
                     else ret (decode OUTPUT_FORMAT r))).
  { intros r. destruct (negb _); [exact Retry|].
    eapply bounded_weaken; [| | |apply bounded_ret]; lia. }
  rewrite W.
  apply (bounded_weaken (1 + (0 + (1 + 2 * n))) (0 + (1 + (0 + n)))
                        (0 + (0 + (0 + w)))); try lia.
  apply bounded_bind; [apply bounded_session_get|].
  intros [|r].
  { eapply bounded_weaken; [| | |exact Retry]; lia. }
  destruct (Z.eqb (status_code r) 401).
  - apply bounded_bind; [apply bounded_renew|].
    intros t. destruct (truthy t).
    + apply bounded_bind; [apply bounded_session_get|].
      intros [|r2]; [exact Retry|].
      destruct (Z.eqb (status_code r2) 401); [|apply Check].
      eapply bounded_weaken; [| | |apply bounded_ret]; lia.
    + eapply bounded_weaken; [| | |apply bounded_ret]; lia.
  - eapply bounded_weaken; [| | |apply Check]; lia.
Qed.

(** X3: whatever the service answers, one fetch sends at most six data
    requests and at most three token requests and sleeps at most six
    seconds in all; when it sends no token request the session's token is
    as it was. *)
Theorem fetch_is_bounded (dataset : text) (s : scraper World) :
  exists evs,
    trace (snd (fetch dataset s)) = trace s ++ evs /\
    gets_sent evs <= 6 /\ posts_sent evs <= 3 /\ slept evs <= 6 /\
    (posts_sent evs = 0 ->
     authorization (snd (fetch dataset s)) = authorization s).
Proof.
  destruct (fetch dataset s) as [a s'] eqn:E.
  exact (bounded_attempts 3 dataset s a s' E).
Qed.

(** An attempt that fails. *)
Lemma attempt_fails (n : nat) (dataset : text)
    (w0 : World) (a : option pyval) (tr : list event)
    (res : http_result) (w : World) :
  http_get w0 dataset a = (res, w) ->
  fails res ->
  attempts (S n) dataset {| world := w0; authorization := a; trace := tr |} =
  match n with
  | 0 => ret PNone
  | S _ => bind (sleep (2 ^ S (max_retries - S n))) (fun _ => attempts n dataset)
  end {| world := w; authorization := a; trace := tr ++ [EvGet dataset a] |}.
Proof.
  intros G [-> | (r & -> & N200 & N401)].
  - rewrite fetch_loop_S. cbv zeta.
    unfold bind at 1. unfold session_get. cbn [world authorization trace].
    now rewrite G.
  - eapply attempt_other_status; [exact G|split; assumption].
Qed.

(** X4: three attempts that fail, each by a transport error or by a status
    other than 200 and 401, in any mix, end the fetch with [None] after the
    pauses of 2 and 4 seconds; no token request is sent. *)
Theorem three_failures_of_any_kind
    (dataset : text) (s : scraper World)
    (res1 res2 res3 : http_result) (w1 w2 w3 : World) :
  http_get (world s) dataset (authorization s) = (res1, w1) -> fails res1 ->
  http_get w1 dataset (authorization s) = (res2, w2) -> fails res2 ->
  http_get w2 dataset (authorization s) = (res3, w3) -> fails res3 ->
  fetch dataset s =
  (PNone, {| world := w3; authorization := authorization s;
             trace := trace s ++ [EvGet dataset (authorization s); EvSleep 2;
                                  EvGet dataset (authorization s); EvSleep 4;
                                  EvGet dataset (authorization s)] |}).
Proof.
  intros G1 S1 G2 S2 G3 S3. unfold fetch_dataset.
  change max_retries with 3. destruct s as [w0 a tr].
  cbn [world authorization trace] in *.
  rewrite (attempt_fails 2 dataset _ _ _ res1 w1 G1 S1).
  unfold bind, sleep, emit. cbn [world authorization trace].
  rewrite (attempt_fails 1 dataset _ _ _ res2 w2 G2 S2).
  unfold bind, sleep, emit. cbn [world authorization trace].
  rewrite (attempt_fails 0 dataset _ _ _ res3 w3 G3 S3).
  unfold ret. rewrite <- !app_assoc. reflexivity.
Qed.
End FetchBounds.

(** ** FetchClient: the unauthorized answer *)

Section Unauthorized.
Context {World : Type}.
Variable http_get : World -> text -> option pyval -> http_result * World.
Variable http_post_auth : World -> http_result * World.
Variable OUTPUT_FORMAT : format.

Local Notation renew := (get_auth_token http_post_auth).
Local Notation attempts := (fetch_loop http_get http_post_auth OUTPUT_FORMAT).

Lemma attempts_extend (n : nat) (dataset : text) (s : scraper World) :
  exists evs,
    trace (snd (attempts n dataset s)) = trace s ++ evs /\ posts_sent evs <= n.
Proof.
  destruct (attempts n dataset s) as [v s'] eqn:E.
  destruct (bounded_attempts http_get http_post_auth OUTPUT_FORMAT
              n dataset s v s' E) as (evs & T & _ & P & _).
  exists evs. auto.
Qed.

(** C3, as the code has it: an attempt whose request is answered with 401
    asks for a new token exactly once.  Without a new token the fetch
    returns [None] at once.  With one the request is repeated once: a second
    401 returns [None] at once, a 200 returns the decoded payload, and a
    request that raises or has another status makes the attempt one of the
    three that fail, after which the loop sleeps and goes round again or
    gives up.  From an attempt answered with 401 on, the fetch sends at
    least one token request and at most one for each attempt left. *)
Theorem unauthorized_attempt_renews_token_once
    (n : nat) (dataset : text) (s s2 : scraper World)
    (r1 : response) (w1 : World) (new_token : pyval) :
  http_get (world s) dataset (authorization s) = (Answered r1, w1) ->
  status_code r1 = 401%Z ->
  renew {| world := w1; authorization := authorization s;
           trace := trace s ++ [EvGet dataset (authorization s)] |}
  = (new_token, s2) ->
  trace s2 = trace s ++ [EvGet dataset (authorization s); EvAuthPost] /\
  (truthy new_token = false -> attempts (S n) dataset s = (PNone, s2)) /\
  (truthy new_token = true ->
   forall (res : http_result) (w2 : World),
     http_get (world s2) dataset (Some new_token) = (res, w2) ->
     let s3 := {| world := w2; authorization := Some new_token;
                  trace := trace s ++ [EvGet dataset (authorization s); EvAuthPost;
                                       EvGet dataset (Some new_token)] |} in
     (forall r2, res = Answered r2 -> status_code r2 = 401%Z ->
                 attempts (S n) dataset s = (PNone, s3)) /\
     (forall r2, res = Answered r2 -> status_code r2 = 200%Z ->
                 attempts (S n) dataset s = (decode OUTPUT_FORMAT r2, s3)) /\
     (fails res ->
      attempts (S n) dataset s =
      match n with
      | 0 => (PNone, s3)
      | S _ => attempts n dataset
                 {| world := w2; authorization := Some new_token;
                    trace := trace s3 ++ [EvSleep (2 ^ S (max_retries - S n))] |}
      end)) /\
  (exists evs,
      trace (snd (attempts (S n) dataset s)) = trace s ++ evs /\
      1 <= posts_sent evs <= S n).
Proof.
  intros G1 U R.
  destruct (get_auth_token_spec _ _ _ _ R) as (T & _ & A).
  cbn [trace] in T. rewrite <- app_assoc in T. cbn [app] in T.
  set (retry := match n with
                | 0 => ret PNone
                | S _ => bind (sleep (2 ^ S (max_retries - S n)))
                              (fun _ => attempts n dataset)
                end).
  assert (Loop : attempts (S n) dataset s =
    (if truthy new_token
     then bind (session_get http_get dataset) (fun res =>
            match res with
            | Raised => retry
            | Answered response =>
                if Z.eqb (status_code response) 401 then ret PNone
                else if negb (Z.eqb (status_code response) 200)
                     then retry
                     else ret (decode OUTPUT_FORMAT response)
            end)
     else ret PNone) s2).
  { rewrite fetch_loop_S. cbv zeta. unfold bind at 1. unfold session_get at 1.
    rewrite G1, U. cbn [Z.eqb Pos.eqb]. unfold bind at 1. rewrite R. reflexivity. }
  assert (Again : forall (res : http_result) (w2 : World),
            truthy new_token = true ->
            http_get (world s2) dataset (Some new_token) = (res, w2) ->
            attempts (S n) dataset s =
            match res with
            | Raised => retry
            | Answered response =>
                if Z.eqb (status_code response) 401 then ret PNone
                else if negb (Z.eqb (status_code response) 200)
                     then retry
                     else ret (decode OUTPUT_FORMAT response)
            end {| world := w2; authorization := Some new_token;
                   trace := trace s ++ [EvGet dataset (authorization s); EvAuthPost;
                                        EvGet dataset (Some new_token)] |}).
  { intros res w2 Tr G2. rewrite Loop, Tr. unfold bind, session_get.
    rewrite (A Tr), G2, T. rewrite <- app_assoc. reflexivity. }
  assert (Retry : forall s3,
            retry s3 =
            match n with
            | 0 => (PNone, s3)
            | S _ => attempts n dataset
                       {| world := world s3; authorization := authorization s3;
                          trace := trace s3 ++ [EvSleep (2 ^ S (max_retries - S n))] |}
            end).
  { intros s3. unfold retry. destruct n; reflexivity. }
  assert (Failed : forall (res : http_result) (w2 : World),
            truthy new_token = true ->
            http_get (world s2) dataset (Some new_token) = (res, w2) ->
            fails res ->
            attempts (S n) dataset s =
            retry {| world := w2; authorization := Some new_token;
                     trace := trace s ++ [EvGet dataset (authorization s); EvAuthPost;
                                          EvGet dataset (Some new_token)] |}).
  { intros res w2 Tr G2 F. rewrite (Again res w2 Tr G2).
    destruct F as [-> | (r2 & -> & N200 & N401)]; [reflexivity|].
    apply Z.eqb_neq in N200, N401. now rewrite N401, N200. }
  split; [exact T|]. split; [|split].
  - intros F. rewrite Loop, F. reflexivity.
  - intros Tr res w2 G2 s3. split; [|split].
    + intros r2 -> E. rewrite (Again _ _ Tr G2), E. reflexivity.
    + intros r2 -> E. rewrite (Again _ _ Tr G2), E. reflexivity.
    + intros F. rewrite (Failed _ _ Tr G2 F), Retry. reflexivity.
  - destruct (truthy new_token) eqn:Tr.
    + assert (exists res w2, http_get (world s2) dataset (Some new_token) = (res, w2))
        as (res & w2 & G2)
        by (destruct (http_get (world s2) dataset (Some new_token)); eauto).
      assert (Cases : fails res \/
                      exists r2, res = Answered r2 /\
                                 (status_code r2 = 401%Z \/ status_code r2 = 200%Z)).
      { destruct res as [|r2]; [left; now left|].
        destruct (Z.eq_dec (status_code r2) 401) as [E|N401];
          [right; exists r2; auto|].
        destruct (Z.eq_dec (status_code r2) 200) as [E|N200];
          [right; exists r2; auto|].
        left. right. exists r2. repeat split; assumption. }
      destruct Cases as [F | (r2 & -> & E)].
      * rewrite (Failed _ _ eq_refl G2 F), Retry. destruct n as [|m].
        -- exists [EvGet dataset (authorization s); EvAuthPost;
                   EvGet dataset (Some new_token)].
           cbn. split; [reflexivity|lia].
        -- cbn [world authorization trace].
           match goal with
           | |- context [attempts (S m) dataset ?s3] =>
               destruct (attempts_extend (S m) dataset s3) as (evs & T3 & P3)
           end.
           cbn [trace] in T3.
           exists ([EvGet dataset (authorization s); EvAuthPost;
                    EvGet dataset (Some new_token)]
                   ++ [EvSleep (2 ^ S (max_retries - S (S m)))] ++ evs).
           rewrite T3, <- !app_assoc. split; [reflexivity|].
           rewrite !posts_sent_app. cbn [posts_sent]. lia.
      * exists [EvGet dataset (authorization s); EvAuthPost;
                EvGet dataset (Some new_token)].
        rewrite (Again _ _ eq_refl G2).
        destruct E as [E|E]; rewrite E; cbn; (split; [reflexivity|lia]).
    + rewrite Loop. cbn [ret snd]. rewrite T.
      exists [EvGet dataset (authorization s); EvAuthPost]. cbn.
      split; [reflexivity|lia].
Qed.
End Unauthorized.

Lemma unauthorized_attempt_renews_token_once_witness :
  fetch_dataset script_get script_post OUTPUT_FORMAT_JSON (lit "vkt")
    (start {| gets := [answer 401 None; answer 503 None;
                       answer 200 (Some (PList [PInt 7]))];
              posts := [answer 200 (Some (PDict [("access_token" : text,
                                                  PStr "awse_1")]))] |})
  = (PList [PInt 7],
     {| world := {| gets := []; posts := [] |};
        authorization := Some (PStr "awse_1");
        trace := [EvGet (lit "vkt") None; EvAuthPost;
                  EvGet (lit "vkt") (Some (PStr "awse_1")); EvSleep 2;
                  EvGet (lit "vkt") (Some (PStr "awse_1"))] |}).
Proof.
  destruct (unauthorized_attempt_renews_token_once script_get script_post
              OUTPUT_FORMAT_JSON 2 (lit "vkt")
              (start {| gets := [answer 401 None; answer 503 None;
                                 answer 200 (Some (PList [PInt 7]))];
                        posts := [answer 200 (Some (PDict [("access_token" : text,
                                                            PStr "awse_1")]))] |})
              {| world := {| gets := [answer 503 None;
                                      answer 200 (Some (PList [PInt 7]))];
                             posts := [] |};
                 authorization := Some (PStr "awse_1");
                 trace := [EvGet (lit "vkt") None; EvAuthPost] |}
              {| status_code := 401; json := None; resp_text := [] |}
              {| gets := [answer 503 None; answer 200 (Some (PList [PInt 7]))];
                 posts := [answer 200 (Some (PDict [("access_token" : text,
                                                     PStr "awse_1")]))] |}
              (PStr "awse_1") eq_refl eq_refl eq_refl) as (_ & _ & Again & _).
  destruct (Again eq_refl (answer 503 None)
              {| gets := [answer 200 (Some (PList [PInt 7]))]; posts := [] |}
              eq_refl) as (_ & _ & Failed).
  refine (Failed _). right. eexists. split; [reflexivity|]. split; discriminate.
Defined.

(** C3 as stated fails: a fetch that receives a 401 can ask for a new token
    more than once.  When the request repeated with the new token has
    another status, the loop goes round again, and each later 401 renews
    the token again: three times here. *)
Lemma a_fetch_can_renew_three_times :
  ~ (forall (w : script) (dataset : text) (r : response) (rest : list http_result),
        gets w = Answered r :: rest -> status_code r = 401%Z ->
        posts_sent (trace (snd (fetch_dataset script_get script_post
                                  OUTPUT_FORMAT_JSON dataset (start w)))) = 1).
Proof.
  intros H.
  specialize (H {| gets := [answer 401 None; answer 500 None;
                            answer 401 None; answer 500 None;
                            answer 401 None; answer 500 None];
                   posts := [answer 200 (Some (PDict [("access_token" : text,
                                                       PStr "awse_1")]));
                             answer 200 (Some (PDict [("access_token" : text,
                                                       PStr "awse_2")]));
                             answer 200 (Some (PDict [("access_token" : text,
                                                       PStr "awse_3")]))] |}
                (lit "vkt") _ _ eq_refl eq_refl).
  vm_compute in H. discriminate H.
Qed.

Lemma get_auth_token_outcome_witness :
  authorization
    (snd (get_auth_token script_post
            (start {| gets := [];
                      posts := [answer 200 (Some (PDict [("access_token" : text,
                                                          PStr "awse_9")]))] |})))
  = Some (PStr "awse_9").
Proof.
  destruct (get_auth_token_outcome script_post
              (start {| gets := [];
                        posts := [answer 200 (Some (PDict [("access_token" : text,
                                                            PStr "awse_9")]))] |})
              {| world := {| gets := []; posts := [] |};
                 authorization := Some (PStr "awse_9");
                 trace := [EvAuthPost] |}
              (PStr "awse_9") eq_refl) as (_ & _ & [[F _] | (r & d & _ & _ & _ & _ & A)]).
  - discriminate F.
  - reflexivity.
Defined.

Lemma three_failures_of_any_kind_witness :
  fetch_dataset script_get script_post OUTPUT_FORMAT_JSON (lit "vkt")
    (start {| gets := [Raised; answer 500 None]; posts := [] |})
  = (PNone,
     {| world := {| gets := []; posts := [] |};
        authorization := None;
        trace := [EvGet (lit "vkt") None; EvSleep 2;
                  EvGet (lit "vkt") None; EvSleep 4;
                  EvGet (lit "vkt") None] |}).
Proof.
  apply (three_failures_of_any_kind script_get script_post OUTPUT_FORMAT_JSON
           (lit "vkt")
           (start {| gets := [Raised; answer 500 None]; posts := [] |})
           Raised (answer 500 None) Raised
           {| gets := [answer 500 None]; posts := [] |}
           {| gets := []; posts := [] |}
           {| gets := []; posts := [] |}).
  - reflexivity.
  - left. reflexivity.
  - reflexivity.
  - right. eexists. split; [reflexivity|]. split; discriminate.
  - reflexivity.
  - left. reflexivity.
Defined.

(** ** ResponseNormalizer: what the reader and [strip] give *)

Lemma lstrip_length (s : text) : length (lstrip s) <= length s.
Proof.
  induction s as [|c s IH]; cbn [lstrip length]; [lia|].
  destruct (is_space c); cbn [length]; lia.
Qed.

Lemma strip_length (s : text) : length (strip s) <= length s.
Proof.
  unfold strip, rstrip. rewrite length_rev.
  etransitivity; [apply lstrip_length|]. rewrite length_rev.
  apply lstrip_length.
Qed.

Lemma rstrip_idem (s : text) : rstrip (rstrip s) = rstrip s.
Proof. unfold rstrip. now rewrite rev_involutive, lstrip_idem. Qed.

Lemma lstrip_fixed (c : ascii) (s : text) :
  is_space c = false -> lstrip (c :: s) = c :: s.
Proof. intros E. cbn [lstrip]. now rewrite E. Qed.

Lemma strip_idem (s : text) : strip (strip s) = strip s.
Proof.
  unfold strip. destruct (lstrip s) as [|c l] eqn:L; [reflexivity|].
  pose proof (lstrip_head _ _ _ L) as E.
  destruct (rstrip_head l c E) as [s' R].
  rewrite R, (lstrip_fixed c s' E), <- R. apply rstrip_idem.
Qed.

Lemma strip_within_limit (s : text) : within_limit s -> within_limit (strip s).
Proof.
  unfold within_limit. pose proof (strip_length s). lia.
Qed.

Lemma limited_add (r r' : reader) (c : ascii) :
  limited r -> parse_add_char r c = Some r' ->
  limited r' /\ state r' = state r.
Proof.
  unfold parse_add_char, limited, within_limit. intros [F L].
  destruct (N.ltb _ _) eqn:E; [|discriminate]. intros [= <-]. cbn.
  apply N.ltb_lt in E. repeat split; [assumption|].
  rewrite length_app. cbn [length]. lia.
Qed.

Lemma limited_save (r : reader) : limited r -> limited (parse_save_field r).
Proof.
  unfold limited, parse_save_field. cbn. intros [F L]. split.
  - apply Forall_app. split; [assumption|now constructor].
  - unfold within_limit. cbn. unfold field_limit. lia.
Qed.

Lemma limited_set_state (st : parser_state) (r : reader) :
  limited r -> limited (set_state st r).
Proof. now unfold limited, set_state. Qed.

Lemma limited_start_field (r r' : reader) (t : token) :
  limited r -> start_field r t = Some r' -> limited r'.
Proof.
  intros L. unfold start_field, end_of_record.
  destruct t as [c|].
  - destruct (is_newline c);
      [intros [= <-]; now apply limited_set_state, limited_save|].
    destruct (Ascii.eqb c DQUOTE);
      [intros [= <-]; now apply limited_set_state|].
    destruct (Ascii.eqb c COMMA);
      [intros [= <-]; now apply limited_set_state, limited_save|].
    destruct (parse_add_char r c) as [r1|] eqn:E; [|discriminate].
    intros [= <-]. apply limited_set_state. now apply (limited_add r r1 c).
  - intros [= <-]. now apply limited_set_state, limited_save.
Qed.

Lemma limited_step (r r' : reader) (t : token) :
  limited r -> parse_process_char r t = Some r' -> limited r'.
Proof.
  intros L. unfold parse_process_char, end_of_record.
  destruct (state r), t as [c|];
    repeat match goal with
           | |- context [if ?b then _ else _] => destruct b
           | |- context [parse_add_char r c] =>
               let E := fresh "E" in
               destruct (parse_add_char r c) as [?r1|] eqn:E;
               [apply (limited_add r _ c L) in E; destruct E|]
           end;
    try discriminate;
    try (intros [= <-]);
    try (now repeat (apply limited_set_state || apply limited_save));
    try (now apply (limited_start_field r _ _ L));
    try assumption.
Qed.

(** No field that the reader gives is beyond the limit. *)
Lemma read_rows_limited (toks : list token) :
  forall (r : reader) (rows : list (list text)),
    limited r -> read_rows r toks = Some rows ->
    Forall (Forall within_limit) rows.
Proof.
  assert (Reset : limited parse_reset).
  { split; [constructor|]. unfold within_limit, field_limit. cbn. lia. }
  induction toks as [|t toks IH]; intros r rows L; cbn [read_rows].
  - destruct (_ || _); intros [= <-]; repeat constructor.
    apply (limited_save r L).
  - destruct (parse_process_char r t) as [r'|] eqn:E; [|discriminate].
    pose proof (limited_step _ _ _ L E) as L'.
    destruct t as [c|]; [now apply IH|].
    destruct (state r'); try (now apply IH).
    destruct (read_rows parse_reset toks) as [rows'|] eqn:R; [|discriminate].
    intros [= <-]. constructor; [apply L'|]. now apply (IH parse_reset).
Qed.

Lemma csv_reader_limited (csv_text : text) (rows : list (list text)) :
  csv_reader csv_text = Some rows -> Forall (Forall within_limit) rows.
Proof.
  apply read_rows_limited. split; [constructor|].
  unfold within_limit, field_limit. cbn. lia.
Qed.

Lemma read_rows_row_closed (row : list text) :
  row <> [] -> Forall within_limit row ->
  forall (st : parser_state) (fs : list text) (term rest : list token),
    st = START_RECORD \/ st = START_FIELD ->
    closes_row term ->
    read_rows (mkReader st fs []) (toks_body (row_text row) ++ term ++ rest)
    = rows <- read_rows parse_reset rest ;; Some ((fs ++ row) :: rows).
Proof.
  induction row as [|f row IH]; [congruence|].
  intros _ L st fs term rest Hst Hterm.
  apply Forall_cons_iff in L as [Lf L].
  pose proof (feed_quote_field st fs f Hst Lf) as F.
  destruct row as [|f2 row].
  - change (row_text [f]) with (quote_field f).
    rewrite (read_rows_feed _ _ _ _ F). apply Hterm.
  - change (row_text (f :: f2 :: row))
      with (quote_field f ++ COMMA :: row_text (f2 :: row)).
    rewrite toks_body_app, toks_body_cons by reflexivity.
    rewrite <- app_assoc. rewrite (read_rows_feed _ _ _ _ F).
    cbn [app read_rows].
    change (parse_process_char (mkReader QUOTE_IN_QUOTED_FIELD fs f) (Ch COMMA))
      with (Some (mkReader START_FIELD (fs ++ [f]) [])).
    cbv beta iota.
    rewrite (IH ltac:(discriminate) L START_FIELD (fs ++ [f]) term rest
                (or_intror eq_refl) Hterm).
    now rewrite <- app_assoc.
Qed.

Lemma closes_row_lf : closes_row [Ch LF; EOL].
Proof. intros fs buf rest. reflexivity. Qed.

Lemma closes_row_eol : closes_row [EOL].
Proof. intros fs buf rest. reflexivity. Qed.

Lemma read_rows_lf_lines (init : list (list text)) :
  forall (last : list text),
    Forall (fun row => row <> [] /\ Forall within_limit row) (init ++ [last]) ->
    read_rows parse_reset
      (toks_body (flat_map (writerow [LF]) init ++ row_text last) ++ [EOL])
    = Some (init ++ [last]).
Proof.
  induction init as [|row init IH]; intros last H.
  - cbn [flat_map app]. apply Forall_cons_iff in H as [[Hne HL] _].
    pose proof (read_rows_row_closed last Hne HL START_RECORD [] [EOL] []
                  (or_introl eq_refl) closes_row_eol) as R.
    rewrite app_nil_r in R. exact R.
  - cbn [flat_map app] in *. apply Forall_cons_iff in H as [[Hne HL] H].
    unfold writerow at 1. rewrite <- !app_assoc, toks_body_app.
    rewrite (toks_body_app [LF]).
    change (toks_body [LF]) with [Ch LF; EOL].
    rewrite <- !app_assoc.
    rewrite (read_rows_row_closed row Hne HL START_RECORD [] [Ch LF; EOL] _
               (or_introl eq_refl) closes_row_lf).
    now rewrite (IH last H).
Qed.

Lemma strip_quoted_lf_lines (m m' : text) :
  DQUOTE :: m = m' ++ [DQUOTE] ->
  strip ((DQUOTE :: m) ++ [LF]) = DQUOTE :: m.
Proof.
  intros E. unfold strip.
  assert (L : lstrip ((DQUOTE :: m) ++ [LF]) = (DQUOTE :: m) ++ [LF])
    by reflexivity.
  rewrite L, rstrip_snoc_space by reflexivity.
  rewrite E. now apply rstrip_snoc_other.
Qed.

(** Reading back a text written with every field quoted and lines ended by
    a line feed. *)
Lemma csv_reader_lf_written (rows : list (list text)) :
  rows <> [] ->
  Forall (fun row => row <> [] /\ Forall within_limit row) rows ->
  csv_reader (strip (flat_map (writerow [LF]) rows)) = Some rows.
Proof.
  intros Hne H.
  destruct (exists_last Hne) as (init & last & ->).
  rewrite flat_map_app. cbn [flat_map]. rewrite app_nil_r.
  unfold writerow at 2. fold (row_text last). rewrite app_assoc.
  assert (Hlast : last <> [] /\ Forall within_limit last).
  { rewrite Forall_forall in H. apply H, in_or_app. right. now left. }
  destruct (row_text_last last (proj1 Hlast)) as [m' Hm'].
  assert (Hhead : exists m, flat_map (writerow [LF]) init ++ row_text last
                            = DQUOTE :: m).
  { destruct init as [|row init].
    - cbn [flat_map app]. apply row_text_head, Hlast.
    - apply Forall_cons_iff in H as [[Hrow _] _].
      destruct (row_text_head row Hrow) as [m Hm].
      cbn [flat_map]. unfold writerow at 1. fold (row_text row).
      rewrite Hm. cbn [app]. eauto. }
  destruct Hhead as [m Hm].
  assert (E : DQUOTE :: m = (flat_map (writerow [LF]) init ++ m') ++ [DQUOTE])
    by (now rewrite <- Hm, Hm', app_assoc).
  rewrite Hm, (strip_quoted_lf_lines m _ E).
  unfold csv_reader. rewrite E, tokens_snoc by reflexivity.
  rewrite <- E, <- Hm. now apply read_rows_lf_lines.
Qed.

Lemma row_fits_length (headers row : list text) :
  row_fits headers row = true <->
  row <> [] /\ length row = length headers.
Proof.
  unfold row_fits. rewrite andb_true_iff, negb_true_iff, Nat.eqb_neq, Nat.eqb_eq.
  split; intros [A B]; split; try assumption.
  - intros ->. now apply A.
  - intros E. apply A. now destruct row.
Qed.

Lemma row_fits_strip (headers row : list text) :
  row_fits (map strip headers) row = row_fits headers row.
Proof. unfold row_fits. now rewrite length_map. Qed.

Lemma filter_filter_same {A} (f : A -> bool) (l : list A) :
  filter f (filter f l) = filter f l.
Proof.
  apply filter_all. apply Forall_forall. intros x Hx.
  now apply filter_In in Hx.
Qed.

(** The cleaned text reads back as the trimmed header and the rows kept. *)
Lemma cleaned_csv_reads_back (csv_text : text)
    (h : text) (headers : list text) (rows : list (list text)) :
  csv_reader (strip csv_text) = Some ((h :: headers) :: rows) ->
  csv_reader (strip (cleaned_csv (map strip (h :: headers))
                       (filter (row_fits (map strip (h :: headers))) rows)))
  = Some (map strip (h :: headers)
          :: filter (row_fits (map strip (h :: headers))) rows).
Proof.
  intros R. apply csv_reader_limited in R.
  apply Forall_cons_iff in R as [Lh Lrows].
  unfold cleaned_csv.
  change (writerow [LF] ?hs ++ flat_map (writerow [LF]) ?rs)
    with (flat_map (writerow [LF]) (hs :: rs)).
  apply csv_reader_lf_written; [discriminate|].
  constructor.
  - split; [discriminate|]. apply Forall_map.
    eapply Forall_impl; [|exact Lh]. apply strip_within_limit.
  - apply Forall_forall. intros row Hrow. apply filter_In in Hrow as [Hin Hfit].
    apply row_fits_length in Hfit as [Hne _]. split; [assumption|].
    rewrite Forall_forall in Lrows. now apply Lrows.
Qed.

Lemma process_csv_read (OUTPUT_FORMAT : format) (csv_text : text)
    (h : text) (headers : list text) (rows : list (list text)) :
  csv_reader (strip csv_text) = Some ((h :: headers) :: rows) ->
  process_csv_response OUTPUT_FORMAT csv_text
  = match OUTPUT_FORMAT with
    | OUTPUT_FORMAT_JSON =>
        PList (map (fun row => PDict (make_entry (map strip (h :: headers)) row))
                   (filter (row_fits (map strip (h :: headers))) rows))
    | OUTPUT_FORMAT_CSV =>
        PDict [("csv_text" : text,
                PStr (cleaned_csv (map strip (h :: headers))
                        (filter (row_fits (map strip (h :: headers))) rows)))]
    end.
Proof. intros R. unfold process_csv_response. now rewrite R. Qed.

Lemma process_csv_cleaned (csv_text cleaned : text) :
  process_csv_response OUTPUT_FORMAT_CSV csv_text
  = PDict [("csv_text" : text, PStr cleaned)] ->
  exists h headers rows,
    csv_reader (strip csv_text) = Some ((h :: headers) :: rows) /\
    cleaned = cleaned_csv (map strip (h :: headers))
                (filter (row_fits (map strip (h :: headers))) rows).
Proof.
  destruct (csv_reader (strip csv_text)) as [[|[|h headers] rows]|] eqn:R;
    try (unfold process_csv_response; rewrite R; discriminate).
  rewrite (process_csv_read _ _ _ _ _ R). intros [= <-]. eauto.
Qed.

Lemma cleaned_csv_again (OUTPUT_FORMAT : format) (csv_text : text)
    (h : text) (headers : list text) (rows : list (list text)) :
  csv_reader (strip csv_text) = Some ((h :: headers) :: rows) ->
  process_csv_response OUTPUT_FORMAT
    (cleaned_csv (map strip (h :: headers))
       (filter (row_fits (map strip (h :: headers))) rows))
  = process_csv_response OUTPUT_FORMAT csv_text.
Proof.
  intros R. rewrite (process_csv_read _ _ _ _ _ R).
  pose proof (cleaned_csv_reads_back _ _ _ _ R) as B.
  cbn [map] in B |- *.
  rewrite (process_csv_read _ _ _ _ _ B).
  change (strip (strip h) :: map strip (map strip headers))
    with (map strip (map strip (h :: headers))).
  change (strip h :: map strip headers) with (map strip (h :: headers)).
  assert (I : map strip (map strip (h :: headers)) = map strip (h :: headers)).
  { rewrite map_map. apply map_ext. intros x. apply strip_idem. }
  rewrite I, filter_filter_same. reflexivity.
Qed.

(** X5: the cleaned CSV text is a fixed point: normalising it again for CSV
    output gives the same text. *)
Theorem cleaned_csv_is_canonical (csv_text cleaned : text) :
  process_csv_response OUTPUT_FORMAT_CSV csv_text
  = PDict [("csv_text" : text, PStr cleaned)] ->
  process_csv_response OUTPUT_FORMAT_CSV cleaned
  = PDict [("csv_text" : text, PStr cleaned)].
Proof.
  intros H. destruct (process_csv_cleaned _ _ H) as (h & headers & rows & R & ->).
  rewrite (cleaned_csv_again _ _ _ _ _ R). exact H.
Qed.

(** X6: the cleaned CSV text carries the records of the text it was made
    from: read for JSON output, both give the same list of records. *)
Theorem cleaned_csv_keeps_records (csv_text cleaned : text) :
  process_csv_response OUTPUT_FORMAT_CSV csv_text
  = PDict [("csv_text" : text, PStr cleaned)] ->
  process_csv_response OUTPUT_FORMAT_JSON cleaned
  = process_csv_response OUTPUT_FORMAT_JSON csv_text.
Proof.
  intros H. destruct (process_csv_cleaned _ _ H) as (h & headers & rows & R & ->).
  apply (cleaned_csv_again _ _ _ _ _ R).
Qed.

Lemma cleaned_csv_is_canonical_witness :
  process_csv_response OUTPUT_FORMAT_CSV
    (cleaned_csv [lit "id"; lit "pkw"] [[lit " 1"; lit "2"]])
  = PDict [("csv_text" : text,
            PStr (cleaned_csv [lit "id"; lit "pkw"] [[lit " 1"; lit "2"]]))].
Proof.
  apply (cleaned_csv_is_canonical
           (lit " id , pkw" ++ [LF] ++ lit " 1,2" ++ [LF] ++ lit "short" ++ [LF])).
  reflexivity.
Defined.

Lemma cleaned_csv_keeps_records_witness :
  process_csv_response OUTPUT_FORMAT_JSON
    (cleaned_csv [lit "id"; lit "pkw"] [[lit " 1"; lit "2"]])
  = process_csv_response OUTPUT_FORMAT_JSON
      (lit " id , pkw" ++ [LF] ++ lit " 1,2" ++ [LF] ++ lit "short" ++ [LF]).
Proof.
  apply (cleaned_csv_keeps_records
           (lit " id , pkw" ++ [LF] ++ lit " 1,2" ++ [LF] ++ lit "short" ++ [LF])).
  reflexivity.
Defined.

(** ** ResponseNormalizer: the records of the JSON path *)

Lemma existsb_text_In (k : text) (l : list text) :
  existsb (text_eqb k) l = true <-> In k l.
Proof.
  rewrite existsb_exists. split.
  - intros (x & Hx & E). apply text_eqb_eq in E. now subst.
  - intros H. exists k. split; [assumption|apply text_eqb_refl].
Qed.

Lemma dict_set_keys {V} (k : text) (v : V) (d : list (text * V)) :
  dict_keys (dict_set k v d) = add_key (dict_keys d) k.
Proof.
  unfold add_key. destruct (existsb (text_eqb k) (dict_keys d)) eqn:E.
  - apply dict_set_keys_present. now apply existsb_text_In.
  - apply dict_set_keys_absent. intros H. apply existsb_text_In in H. congruence.
Qed.

Lemma make_entry_keys (headers : list text) :
  forall (row : list text) (acc : list (text * pyval)),
    length row = length headers ->
    dict_keys (fold_left (fun entry hv =>
                            dict_set (fst hv) (PStr (strip (snd hv))) entry)
                         (combine headers row) acc)
    = fold_left add_key headers (dict_keys acc).
Proof.
  induction headers as [|h headers IH]; intros [|v row] acc L;
    try discriminate L; [reflexivity|].
  cbn [combine fold_left fst snd]. rewrite IH by (cbn in L; lia).
  now rewrite dict_set_keys.
Qed.

Lemma add_keys_extend (ks acc : list text) :
  exists l, fold_left add_key ks acc = acc ++ l.
Proof.
  revert acc. induction ks as [|k ks IH]; intros acc; cbn [fold_left].
  - exists []. now rewrite app_nil_r.
  - destruct (IH (add_key acc k)) as [l E]. rewrite E. unfold add_key.
    destruct (existsb _ _); [eauto|]. exists (k :: l).
    now rewrite <- app_assoc.
Qed.

Lemma add_keys_nodup (ks acc : list text) :
  NoDup acc -> NoDup (fold_left add_key ks acc).
Proof.
  revert acc. induction ks as [|k ks IH]; intros acc N; cbn [fold_left];
    [assumption|].
  apply IH. unfold add_key.
  destruct (existsb (text_eqb k) acc) eqn:E; [assumption|].
  apply NoDup_snoc; [assumption|]. intros H.
  apply existsb_text_In in H. congruence.
Qed.

Lemma add_keys_forall (P : text -> Prop) (ks acc : list text) :
  Forall P acc -> Forall P ks -> Forall P (fold_left add_key ks acc).
Proof.
  revert acc. induction ks as [|k ks IH]; intros acc Ha Hk; cbn [fold_left];
    [assumption|].
  apply Forall_cons_iff in Hk as [Pk Hk]. apply IH; [|assumption].
  unfold add_key. destruct (existsb _ _); [assumption|].
  apply Forall_app. split; [assumption|now constructor].
Qed.

Lemma dict_set_values {V} (Q : V -> Prop) (k : text) (v : V) (d : list (text * V)) :
  Forall (fun kv => Q (snd kv)) d -> Q v ->
  Forall (fun kv => Q (snd kv)) (dict_set k v d).
Proof.
  intros H Hv. induction H as [|[k0 v0] d H0 H IH]; cbn [dict_set].
  - now constructor.
  - destruct (text_eqb k0 k); constructor; assumption.
Qed.

Lemma make_entry_values (headers row : list text) :
  Forall within_limit row ->
  Forall (fun kv => exists v, snd kv = PStr v /\ clean v) (make_entry headers row).
Proof.
  intros L. unfold make_entry.
  assert (C : Forall (fun hv => within_limit (snd hv)) (combine headers row)).
  { apply Forall_forall. intros [h v] Hin. apply in_combine_r in Hin.
    rewrite Forall_forall in L. now apply L. }
  clear L. revert C. generalize (combine headers row).
  assert (G : forall (c : list (text * text)) (acc : list (text * pyval)),
             Forall (fun kv : text * pyval =>
                       exists v, snd kv = PStr v /\ clean v) acc ->
             Forall (fun hv => within_limit (snd hv)) c ->
             Forall (fun kv : text * pyval =>
                       exists v, snd kv = PStr v /\ clean v)
                    (fold_left (fun entry hv =>
                                  dict_set (fst hv) (PStr (strip (snd hv))) entry)
                               c acc)).
  { induction c as [|[h v] c IH]; intros acc Ha Hc; cbn [fold_left fst snd];
      [assumption|].
    apply Forall_cons_iff in Hc as [Hv Hc]. apply IH; [|assumption].
    apply (dict_set_values (fun x => exists v, x = PStr v /\ clean v));
      [assumption|].
    exists (strip v). split; [reflexivity|]. split; [apply strip_idem|].
    now apply strip_within_limit. }
  intros c Hc. apply G; [constructor|assumption].
Qed.

Lemma read_records_clean (h : text) (headers : list text)
    (rows : list (list text)) :
  Forall (Forall within_limit) ((h :: headers) :: rows) ->
  let hs := map strip (h :: headers) in
  distinct hs <> [] /\ NoDup (distinct hs) /\ Forall clean (distinct hs) /\
  Forall (clean_record (distinct hs))
         (map (fun row => PDict (make_entry hs row)) (filter (row_fits hs) rows)).
Proof.
  intros L hs. apply Forall_cons_iff in L as [Lh Lrows].
  repeat split.
  - unfold distinct, hs. cbn [map fold_left].
    destruct (add_keys_extend (map strip headers) (add_key [] (strip h))) as [l E].
    rewrite E. discriminate.
  - apply add_keys_nodup. constructor.
  - apply add_keys_forall; [constructor|]. unfold hs. apply Forall_map.
    eapply Forall_impl; [|exact Lh]. intros k Hk.
    split; [apply strip_idem|now apply strip_within_limit].
  - apply Forall_map. apply Forall_forall. intros row Hrow.
    apply filter_In in Hrow as [Hin Hfit].
    apply row_fits_length in Hfit as [_ Hlen].
    exists (make_entry hs row). split; [reflexivity|]. split.
    + unfold make_entry. now rewrite make_entry_keys.
    + apply make_entry_values. rewrite Forall_forall in Lrows. now apply Lrows.
Qed.

(** X7: the records that the JSON path makes of a delimited text all have
    the same field names in the same order, each name once; the names and
    the values are texts with no whitespace around them, within the
    reader's field limit. *)
Theorem parsed_records_are_uniform (csv_text : text) (records : list pyval) :
  process_csv_response OUTPUT_FORMAT_JSON csv_text = PList records ->
  exists names,
    names <> [] /\ NoDup names /\ Forall clean names /\
    Forall (clean_record names) records.
Proof.
  destruct (csv_reader (strip csv_text)) as [[|[|h headers] rows]|] eqn:R;
    try (unfold process_csv_response; rewrite R; discriminate).
  rewrite (process_csv_read _ _ _ _ _ R). intros [= <-].
  pose proof (read_records_clean h headers rows (csv_reader_limited _ _ R)) as C.
  cbv zeta in C. destruct C as (Hne & N & Hnames & Hdata).
  exists (distinct (map strip (h :: headers))). auto.
Qed.

Lemma parsed_records_are_uniform_witness :
  exists names,
    names <> [] /\ NoDup names /\ Forall clean names /\
    Forall (clean_record names)
      [PDict [("id" : text, PStr "2"); ("pkw" : text, PStr "3")]].
Proof.
  apply (parsed_records_are_uniform
           (lit "id, pkw ,id" ++ [LF] ++ lit "1, 3 ,2" ++ [LF])).
  reflexivity.
Defined.

(** A day of clean records, written as CSV and read again. *)
Lemma clean_day_reads_back (str_of : pyval -> text) (names : list text)
    (data : list pyval) :
  names <> [] -> NoDup names -> Forall clean names ->
  Forall (clean_record names) data ->
  writerows str_of names data
  = (flat_map (writerow CRLF) (map record_row data), true) /\
  process_csv_response OUTPUT_FORMAT_JSON
    (flat_map (writerow CRLF) (names :: map record_row data))
  = PList data.
Proof.
  intros Hne N Hnames Hdata.
  assert (Hrows : Forall (fun r =>
            length (record_row r) = length names /\
            Forall within_limit (record_row r) /\
            PDict (make_entry names (record_row r)) = r) data).
  { eapply Forall_impl; [|exact Hdata]. intros r Hr.
    now destruct (dict_to_list_clean str_of _ r N Hr) as (_ & ? & ? & ?). }
  split; [now apply writerows_clean|].
  apply process_csv_rows with (names := names); try assumption.
  - eapply Forall_impl; [|exact Hrows]. now intros r (? & _ & ?).
  - apply csv_reader_written; [discriminate|].
    constructor.
    + split; [assumption|].
      eapply Forall_impl; [|exact Hnames]. now intros k [_ Hk].
    + apply Forall_map. eapply Forall_impl; [|exact Hrows].
      intros r (L & W & _). split; [|assumption].
      intros E. rewrite E in L. destruct names; [congruence|discriminate].
Qed.

(** X8: records that the JSON path has read from a delimited text survive
    the day file: written as a CSV day file, with no row refused, and read
    again by the JSON path they come back equal. *)
Theorem parsed_records_round_trip
    (str_of : pyval -> text) (csv_text : text)
    (first : pyval) (rest : list pyval) :
  process_csv_response OUTPUT_FORMAT_JSON csv_text = PList (first :: rest) ->
  exists out,
    day_csv str_of (first :: rest) = Some (out, true) /\
    process_csv_response OUTPUT_FORMAT_JSON out = PList (first :: rest).
Proof.
  destruct (csv_reader (strip csv_text)) as [[|[|h headers] rows]|] eqn:R;
    try (unfold process_csv_response; rewrite R; discriminate).
  rewrite (process_csv_read _ _ _ _ _ R). intros H.
  pose proof (read_records_clean h headers rows (csv_reader_limited _ _ R)) as C.
  cbv zeta in C. destruct C as (Hne & N & Hnames & Hdata).
  injection H as H.
  set (names := distinct (map strip (h :: headers))) in *.
  assert (Hd : Forall (clean_record names) (first :: rest))
    by (rewrite <- H; exact Hdata).
  clear Hdata. rename Hd into Hdata.
  pose proof Hdata as Hfirst. apply Forall_cons_iff in Hfirst as [Hfirst _].
  destruct Hfirst as (fields & -> & K & _).
  destruct (clean_day_reads_back str_of names _ Hne N Hnames Hdata) as [W B].
  exists (flat_map (writerow CRLF) (names :: map record_row (PDict fields :: rest))).
  split; [|exact B].
  cbn [day_csv]. rewrite K, W. reflexivity.
Qed.

Lemma parsed_records_round_trip_witness :
  exists out,
    day_csv (fun _ => [])
      [PDict [("id" : text, PStr "2"); ("pkw" : text, PStr "3")]]
    = Some (out, true) /\
    process_csv_response OUTPUT_FORMAT_JSON out
    = PList [PDict [("id" : text, PStr "2"); ("pkw" : text, PStr "3")]].
Proof.
  apply (parsed_records_round_trip (fun _ => [])
           (lit "id, pkw ,id" ++ [LF] ++ lit "1, 3 ,2" ++ [LF])).
  reflexivity.
Defined.

(** ** Persistence *)

Lemma In_dict_get {V} (k : text) (v : V) (d : list (text * V)) :
  NoDup (dict_keys d) -> In (k, v) d -> dict_get k d = Some v.
Proof.
  induction d as [|[k0 v0] d IH]; cbn [dict_keys map fst In dict_get];
    [contradiction|].
  intros N [[= -> ->]|H].
  - now rewrite text_eqb_refl.
  - apply NoDup_cons_iff in N as [Hk N].
    rewrite text_eqb_neq; [now apply IH|].
    intros ->. apply Hk. unfold dict_keys. now apply (in_map fst) in H.
Qed.

Lemma add_keys_In (k : text) (ks acc : list text) :
  In k (fold_left add_key ks acc) <-> In k acc \/ In k ks.
Proof.
  revert acc. induction ks as [|k0 ks IH]; intros acc; cbn [fold_left In].
  - tauto.
  - rewrite IH. unfold add_key.
    destruct (existsb (text_eqb k0) acc) eqn:E.
    + apply existsb_text_In in E. split; [tauto|].
      intros [H|[<-|H]]; tauto.
    + rewrite in_app_iff. cbn [In]. tauto.
Qed.

(** The partition as a list: one entry for each distinct key, in order. *)
Lemma partition_entries (data : list pyval) :
  process_traffic_data (PList data)
  = map (fun k => (k, PList (filter (filed_under k) data)))
        (distinct (day_keys data)).
Proof.
  cbn [process_traffic_data]. rewrite <- organize_key_order.
  unfold buckets_to_py, dict_keys. rewrite map_map.
  apply map_ext_in. intros [k b] Hin. cbn [fst snd].
  apply In_dict_get in Hin; [|apply organize_keys_nodup].
  rewrite organize_lookup in Hin.
  destruct (filter (filed_under k) data); [discriminate|].
  now injection Hin as <-.
Qed.

Lemma replace_char_removes (old new : ascii) (s : text) :
  old <> new -> ~ In old (replace_char old new s).
Proof.
  intros N. induction s as [|c s IH]; cbn [replace_char map In]; [tauto|].
  intros [H|H]; [|now apply IH].
  destruct (Ascii.eqb c old) eqn:E; [congruence|].
  apply Ascii.eqb_neq in E. congruence.
Qed.

Section PersistFacts.
Variable str_of : pyval -> text.

(** X10: a record filed under the key [csv_text] turns the whole partition
    into what [save_data_by_day] takes for an already saved CSV payload: no
    file is written, for any day. *)
Theorem marker_key_suppresses_day_files
    (OUTPUT_FORMAT : format) (data : list pyval) (dataset : text) :
  In ("csv_text" : text) (day_keys data) ->
  save_data_by_day str_of OUTPUT_FORMAT
    (process_traffic_data (PList data)) dataset = [].
Proof.
  intros H. unfold save_data_by_day.
  assert (K : dict_has "csv_text" (process_traffic_data (PList data)) = true).
  { rewrite dict_has_keys. apply existsb_text_In.
    rewrite partition_entries. unfold dict_keys. rewrite map_map. cbn [fst].
    rewrite map_id. unfold distinct. apply add_keys_In. now right. }
  now rewrite K.
Qed.

Lemma dict_to_list_accepted (names : list text) (r : pyval) :
  accepted names r <-> dict_to_list names r <> None.
Proof.
  unfold accepted. split.
  - intros (d & -> & I). cbn [dict_to_list].
    assert (F : forallb (fun k => existsb (text_eqb k) names) (dict_keys d) = true).
    { apply forallb_forall. intros k Hk. apply existsb_text_In. now apply I. }
    rewrite F. discriminate.
  - destruct r as [| | | | |d]; cbn [dict_to_list]; try congruence.
    destruct (forallb _ _) eqn:F; [|congruence]. intros _.
    exists d. split; [reflexivity|]. intros k Hk.
    rewrite forallb_forall in F. apply existsb_text_In. now apply F.
Qed.

Lemma writerows_stops (names : list text) (pre post : list pyval) (r : pyval) :
  Forall (accepted names) pre -> ~ accepted names r ->
  writerows str_of names (pre ++ r :: post)
  = (fst (writerows str_of names pre), false).
Proof.
  intros Hpre Hr. induction Hpre as [|x pre Hx Hpre IH]; cbn [app writerows].
  - destruct (dict_to_list names r) eqn:E; [|reflexivity].
    exfalso. apply Hr, dict_to_list_accepted. congruence.
  - apply dict_to_list_accepted in Hx.
    destruct (dict_to_list names x) as [row|]; [|congruence].
    rewrite IH. destruct (writerows str_of names pre) as [out ok]. reflexivity.
Qed.

(** X11: the CSV day file stops at the first record that has a field the
    first record of the day lacks: the header and the rows before that
    record are written, that record and all that follow are not. *)
Theorem day_csv_stops_at_unknown_field
    (first fields : list (text * pyval)) (pre post : list pyval) (k : text) :
  Forall (accepted (dict_keys first)) pre ->
  In k (dict_keys fields) -> ~ In k (dict_keys first) ->
  day_csv str_of (PDict first :: pre ++ PDict fields :: post)
  = Some (writerow CRLF (dict_keys first) ++
          fst (writerows str_of (dict_keys first) (PDict first :: pre)),
          false).
Proof.
  intros Hpre Hk Hn. cbn [day_csv].
  change (PDict first :: pre ++ PDict fields :: post)
    with ((PDict first :: pre) ++ PDict fields :: post).
  rewrite (writerows_stops (dict_keys first) (PDict first :: pre) post
             (PDict fields)).
  - reflexivity.
  - constructor; [|assumption]. exists first. split; [reflexivity|].
    apply incl_refl.
  - intros (d & [= <-] & I). apply Hn. now apply I.
Qed.
End PersistFacts.

Lemma marker_key_suppresses_day_files_witness :
  save_data_by_day (fun _ => []) OUTPUT_FORMAT_JSON
    (process_traffic_data
       (PList [PDict [("datum" : text, PStr "2024-05-01")];
               PDict [("datum" : text, PStr "csv_text")]]))
    (lit "vkt") = [].
Proof.
  apply (marker_key_suppresses_day_files (fun _ => []) OUTPUT_FORMAT_JSON
           [PDict [("datum" : text, PStr "2024-05-01")];
            PDict [("datum" : text, PStr "csv_text")]] (lit "vkt")).
  right. left. reflexivity.
Defined.

Lemma day_csv_stops_at_unknown_field_witness :
  day_csv (fun _ => [])
    [PDict [("id" : text, PStr "1")];
     PDict [("id" : text, PStr "2"); ("pkw" : text, PStr "9")];
     PDict [("id" : text, PStr "3")]]
  = Some (writerow CRLF [lit "id"] ++ writerow CRLF [lit "1"], false).
Proof.
  apply (day_csv_stops_at_unknown_field (fun _ => [])
           [("id" : text, PStr "1")]
           [("id" : text, PStr "2"); ("pkw" : text, PStr "9")]
           [] [PDict [("id" : text, PStr "3")]] (lit "pkw")).
  - constructor.
  - right. left. reflexivity.
  - intros [H|[]]. discriminate H.
Defined.

(** ** From the normalised text to the files *)

Section TextFiles.
Variable str_of : pyval -> text.

(** X12: with CSV output a delimited text is never split by day.  Either it
    is cleaned and the cleaned text is the one file written, or it is
    wrapped as raw text, and then the full result is written as a JSON file
    and the trimmed text as a raw CSV file. *)
Theorem csv_output_never_partitions (dataset csv_text : text) :
  (exists cleaned,
      process_csv_response OUTPUT_FORMAT_CSV csv_text
      = PDict [("csv_text" : text, PStr cleaned)] /\
      persisted str_of OUTPUT_FORMAT_CSV
        (dataset, process_csv_response OUTPUT_FORMAT_CSV csv_text)
      = [(FullFile dataset OUTPUT_FORMAT_CSV, Written cleaned)]) \/
  (process_csv_response OUTPUT_FORMAT_CSV csv_text = raw_text (strip csv_text) /\
   persisted str_of OUTPUT_FORMAT_CSV
     (dataset, process_csv_response OUTPUT_FORMAT_CSV csv_text)
   = [(FullFile dataset OUTPUT_FORMAT_JSON, JsonDump (raw_text (strip csv_text)));
      (RawFile dataset OUTPUT_FORMAT_CSV, Written (strip csv_text))]).
Proof.
  destruct (csv_reader (strip csv_text)) as [[|[|h headers] rows]|] eqn:R.
  1, 2, 4: right; unfold process_csv_response; rewrite R; split; reflexivity.
  left. rewrite (process_csv_read _ _ _ _ _ R). eexists. split; reflexivity.
Qed.

(** X13: with JSON output the one delimited text for which nothing at all
    is written is a text with a header row and no row of as many fields:
    its list of records is empty, and the batch takes an empty payload for
    a failed fetch. *)
Theorem header_only_text_leaves_no_file (dataset csv_text : text) :
  persisted str_of OUTPUT_FORMAT_JSON
    (dataset, process_csv_response OUTPUT_FORMAT_JSON csv_text) = [] <->
  exists h headers rows,
    csv_reader (strip csv_text) = Some ((h :: headers) :: rows) /\
    filter (row_fits (h :: headers)) rows = [].
Proof.
  destruct (csv_reader (strip csv_text)) as [[|[|h headers] rows]|] eqn:R.
  1, 2, 4: split;
    [unfold process_csv_response; rewrite R; discriminate
    |intros (? & ? & ? & [=] & _)].
  rewrite (process_csv_read _ _ _ _ _ R).
  rewrite (filter_ext _ _ (row_fits_strip (h :: headers))).
  split.
  - intros P. exists h, headers, rows. split; [reflexivity|].
    destruct (filter (row_fits (h :: headers)) rows); [reflexivity|].
    discriminate P.
  - intros (h' & headers' & rows' & [= <- <- <-] & E). now rewrite E.
Qed.
End TextFiles.

Section BatchCount.
Context {World : Type}.
Variable http_get : World -> text -> option pyval -> http_result * World.
Variable http_post_auth : World -> http_result * World.
Variable OUTPUT_FORMAT : format.
Variable str_of : pyval -> text.

(** X14: the two counters of the batch agree: [successful_datasets] is the
    number of datasets whose payload is truthy, it is at most the number of
    datasets, and [success] is true exactly when it is positive. *)
Theorem batch_counters_agree (DATASETS : list text) (s : scraper World) :
  let acc := fst (batch_loop http_get http_post_auth OUTPUT_FORMAT str_of
                             DATASETS (false, 0) s) in
  snd acc
  = length (filter (fun p => truthy (snd p))
                   (batch_payloads http_get http_post_auth OUTPUT_FORMAT str_of
                                   DATASETS s)) /\
  snd acc <= length DATASETS /\
  (fst acc = true <-> 0 < snd acc).
Proof.
  cbv zeta.
  destruct (batch_loop_spec http_get http_post_auth OUTPUT_FORMAT str_of
              DATASETS (false, 0) s) as (evs & _ & _ & _ & M & B & C).
  rewrite B, C. cbn [fst snd orb plus].
  set (ps := batch_payloads http_get http_post_auth OUTPUT_FORMAT str_of DATASETS s)
    in *.
  repeat split.
  - rewrite <- M, length_map. apply filter_length_le.
  - intros E. apply existsb_exists in E as (p & Hin & Hp).
    assert (F : In p (filter (fun p => truthy (snd p)) ps))
      by (apply filter_In; auto).
    destruct (filter (fun p => truthy (snd p)) ps); [contradiction|cbn; lia].
  - intros L. destruct (filter (fun p => truthy (snd p)) ps) as [|p l] eqn:F;
      [cbn in L; lia|].
    assert (Hin : In p (filter (fun p => truthy (snd p)) ps))
      by (rewrite F; now left).
    apply filter_In in Hin as [Hin Hp].
    apply existsb_exists. eauto.
Qed.
End BatchCount.

(** ** The command line *)

(** X15: [prompt_for_token] returns a token exactly for a line that is not
    blank: the token is the line with the whitespace around it removed,
    never empty, whatever its prefix, and one line of input is used. *)
Theorem prompt_for_token_trims (stdin rest : list text) (token : text) :
  prompt_for_token stdin = Token token rest ->
  token <> [] /\ strip token = token /\
  exists line, stdin = line :: rest /\ token = strip line.
Proof.
  unfold prompt_for_token, input. destruct stdin as [|line stdin]; [discriminate|].
  destruct (strip line) as [|c t] eqn:E; cbn [length Nat.eqb]; [discriminate|].
  intros [= <- <-]. repeat split.
  - discriminate.
  - rewrite <- E. apply strip_idem.
  - exists line. now rewrite E.
Qed.

Lemma prompt_for_token_trims_witness :
  strip (lit "token-1") = lit "token-1".
Proof.
  apply (prompt_for_token_trims [lit "  token-1 "; lit "n"] [lit "n"]
           (lit "token-1")).
  reflexivity.
Defined.

Section MainFacts.
Context {World : Type}.
Variable http_get : World -> text -> option pyval -> http_result * World.
Variable http_post_auth : World -> http_result * World.
Variable str_of : pyval -> text.
Variable DATASETS : list text.

Local Notation main' := (main http_get http_post_auth str_of DATASETS).

Lemma run_trace (OUTPUT_FORMAT : format) (datasets : list text) (s : scraper World) :
  exists evs,
    trace (snd (fetch_and_save_all_datasets http_get http_post_auth
                  OUTPUT_FORMAT str_of datasets s)) = trace s ++ evs /\
    fetched evs = datasets.
Proof.
  destruct (batch_loop_spec http_get http_post_auth OUTPUT_FORMAT str_of
              datasets (false, 0) s) as (evs & T & F & _).
  exists evs. split; [|assumption].
  unfold fetch_and_save_all_datasets, bind, ret.
  now destruct (batch_loop _ _ _ _ datasets (false, 0) s) as [[b n] s'].
Qed.

Lemma renew_trace (s : scraper World) :
  trace (snd (get_auth_token http_post_auth s)) = trace s ++ [EvAuthPost].
Proof.
  destruct (get_auth_token http_post_auth s) as [t s'] eqn:R.
  now destruct (get_auth_token_spec _ _ _ _ R) as (T & _).
Qed.

(** X17: when [main] returns, it has announced every dataset of its list
    once and in order, with or without a token: the list given by
    [--datasets], or else the configured one. *)
Theorem main_runs_the_whole_list
    (args : arguments) (stdin : list text) (w : World)
    (success : bool) (s : scraper World) :
  main' args stdin w = (Finished success, s) ->
  fetched (trace s) = chosen_datasets DATASETS args.
Proof.
  unfold main. fold (chosen_datasets DATASETS args).
  assert (Run : forall s0,
            fetched (trace s0) = [] ->
            (let (success, s') :=
               fetch_and_save_all_datasets http_get http_post_auth
                 (arg_format args) str_of (chosen_datasets DATASETS args) s0 in
             (Finished success, s')) = (Finished success, s) ->
            fetched (trace s) = chosen_datasets DATASETS args).
  { intros s0 F0.
    destruct (run_trace (arg_format args) (chosen_datasets DATASETS args) s0)
      as (evs & T & F).
    destruct (fetch_and_save_all_datasets _ _ _ _ _ _) as [b s'].
    cbn [snd] in T. intros [= _ <-]. now rewrite T, fetched_app, F0, F. }
  assert (New : forall tok, fetched (trace (new_scraper w tok)) = []).
  { intros [t|]; unfold new_scraper; [|reflexivity].
    now destruct (truthy (PStr t)). }
  destruct (first_token args stdin) as [[tok stdin1]|]; [|discriminate].
  cbv zeta. destruct (token_given tok); [now apply Run|].
  pose proof (renew_trace (new_scraper w tok)) as T.
  destruct (get_auth_token http_post_auth _) as [t s1]. cbn [snd] in T.
  assert (F1 : fetched (trace s1) = [])
    by (now rewrite T, fetched_app, New).
  destruct (truthy t); [now apply Run|].
  destruct (input stdin1) as [[line stdin2]|]; [|discriminate].
  destruct (answers_yes line); [|now apply Run].
  destruct (prompt_for_token stdin2); try discriminate.
  now apply Run.
Qed.
End MainFacts.

Section FirstRequest.
Context {World : Type}.
Variable http_get : World -> text -> option pyval -> http_result * World.
Variable http_post_auth : World -> http_result * World.
Variable str_of : pyval -> text.
Variable DATASETS : list text.

Local Notation renew := (get_auth_token http_post_auth).
Local Notation main' := (main http_get http_post_auth str_of DATASETS).

(** A fetch begins with a data request that carries the session's token. *)
Lemma fetch_first_get (OUTPUT_FORMAT : format) (n : nat) (dataset : text)
    (s s' : scraper World) (v : pyval) :
  fetch_loop http_get http_post_auth OUTPUT_FORMAT (S n) dataset s = (v, s') ->
  exists evs, trace s' = trace s ++ EvGet dataset (authorization s) :: evs.
Proof.
  rewrite fetch_loop_S. cbv zeta. unfold bind at 1. unfold session_get at 1.
  destruct (http_get (world s) dataset (authorization s)) as [res w1].
  set (s1 := {| world := w1; authorization := authorization s;
                trace := trace s ++ [EvGet dataset (authorization s)] |}).
  assert (Q : forall (m : M World pyval), quiet m ->
                m s1 = (v, s') ->
                exists evs, trace s' = trace s ++ EvGet dataset (authorization s) :: evs).
  { intros m Hm E. destruct (Hm _ _ _ E) as (evs & T & _).
    exists evs. rewrite T. unfold s1. cbn [trace]. now rewrite <- app_assoc. }
  apply Q.
  assert (Retry : quiet (match n with
                         | 0 => ret PNone
                         | S _ => bind (sleep (2 ^ S (max_retries - S n)))
                                       (fun _ => fetch_loop http_get http_post_auth
                                                   OUTPUT_FORMAT n dataset)
                         end)).
  { destruct n; [apply quiet_ret|].
    apply quiet_bind; [apply quiet_sleep|]. intros _. apply quiet_attempts. }
  assert (Check : forall r, quiet (if negb (Z.eqb (status_code r) 200)
                                   then match n with
                                        | 0 => ret PNone
                                        | S _ => bind (sleep (2 ^ S (max_retries - S n)))
                                                      (fun _ => fetch_loop http_get
                                                         http_post_auth OUTPUT_FORMAT
                                                         n dataset)
                                        end
                                   else ret (decode OUTPUT_FORMAT r))).
  { intros r. destruct (negb _); [exact Retry|apply quiet_ret]. }
  destruct res as [|r]; [exact Retry|].
  destruct (Z.eqb (status_code r) 401); [|apply Check].
  apply quiet_bind; [apply quiet_renew|].
  intros t. destruct (truthy t); [|apply quiet_ret].
  apply quiet_bind; [apply quiet_session_get|].
  intros [|r2]; [exact Retry|].
  destruct (Z.eqb (status_code r2) 401); [apply quiet_ret|apply Check].
Qed.

(** X18: with a token on the command line that is not empty, [main] reads
    nothing from the standard input and asks for no token of its own: the
    run begins with the announcement of the first dataset and the data
    request for it, which carries that token. *)
Theorem main_with_token_starts_fetching
    (args : arguments) (stdin : list text) (w : World)
    (t : text) (d : text) (ds : list text) :
  arg_token args = Some t -> t <> [] ->
  chosen_datasets DATASETS args = d :: ds ->
  main' args stdin w = main' args [] w /\
  exists evs,
    trace (snd (main' args stdin w))
    = EvFetching d :: EvGet d (Some (PStr t)) :: evs.
Proof.
  intros A Ht C.
  assert (Tt : truthy (PStr t) = true) by (destruct t; [congruence|reflexivity]).
  assert (M : forall stdin',
            main' args stdin' w
            = (let (success, s') :=
                 fetch_and_save_all_datasets http_get http_post_auth
                   (arg_format args) str_of (d :: ds)
                   {| world := w; authorization := Some (PStr t); trace := [] |} in
               (Finished success, s'))).
  { intros stdin'. unfold main, first_token. rewrite A, Tt. cbv zeta.
    fold (chosen_datasets DATASETS args). rewrite C.
    unfold token_given, new_scraper. rewrite Tt. reflexivity. }
  split; [now rewrite !M|]. rewrite M.
  unfold fetch_and_save_all_datasets, bind, ret. rewrite batch_loop_cons.
  destruct (fetch_dataset _ _ _ d _) as [data s1] eqn:F.
  unfold fetch_dataset in F. change max_retries with 3 in F.
  apply fetch_first_get in F as (e1 & T1). cbn [emit snd trace authorization app] in T1.
  match goal with
  | |- context [batch_loop ?g ?p ?f ?st ds ?a ?s0] =>
      destruct (batch_loop_spec g p f st ds a s0) as (e2 & T2 & _);
      destruct (batch_loop g p f st ds a s0) as [[b n] s2]
  end.
  cbn [snd fst] in *. unfold after_fetch in T2. cbn [trace] in T2.
  rewrite T2, T1. cbn [app]. eauto.
Qed.
End FirstRequest.

Lemma main_with_token_starts_fetching_witness :
  exists evs,
    trace (snd (main script_get script_post (fun _ => []) [lit "vkt"]
                  {| arg_token := Some (lit "awse_7"); arg_prompt_token := true;
                     arg_format := OUTPUT_FORMAT_JSON; arg_datasets := None |}
                  [lit "ignored"]
                  {| gets := [answer 200 (Some (PList [PInt 1]))]; posts := [] |}))
    = EvFetching (lit "vkt") :: EvGet (lit "vkt") (Some (PStr "awse_7")) :: evs.
Proof.
  apply (main_with_token_starts_fetching script_get script_post (fun _ => [])
           [lit "vkt"]
           {| arg_token := Some (lit "awse_7"); arg_prompt_token := true;
              arg_format := OUTPUT_FORMAT_JSON; arg_datasets := None |}
           [lit "ignored"]
           {| gets := [answer 200 (Some (PList [PInt 1]))]; posts := [] |}
           (lit "awse_7") (lit "vkt") []).
  - reflexivity.
  - discriminate.
  - reflexivity.
Defined.

Lemma main_runs_the_whole_list_witness :
  fetched [EvAuthPost;
           EvFetching (lit "a"); EvGet (lit "a") None; EvSleep 2;
           EvGet (lit "a") None; EvSleep 4; EvGet (lit "a") None; EvSleep 2;
           EvFetching (lit "b"); EvGet (lit "b") None; EvSleep 2;
           EvGet (lit "b") None; EvSleep 4; EvGet (lit "b") None; EvSleep 2]
  = [lit "a"; lit "b"].
Proof.
  apply (main_runs_the_whole_list script_get script_post (fun _ => [])
           [lit "vkt"]
           {| arg_token := None; arg_prompt_token := false;
              arg_format := OUTPUT_FORMAT_JSON;
              arg_datasets := Some [lit "a"; lit "b"] |}
           [lit "no"]
           {| gets := []; posts := [] |}
           false
           {| world := {| gets := []; posts := [] |}; authorization := None;
              trace := [EvAuthPost;
                        EvFetching (lit "a"); EvGet (lit "a") None; EvSleep 2;
                        EvGet (lit "a") None; EvSleep 4; EvGet (lit "a") None;
                        EvSleep 2;
                        EvFetching (lit "b"); EvGet (lit "b") None; EvSleep 2;
                        EvGet (lit "b") None; EvSleep 4; EvGet (lit "b") None;
                        EvSleep 2] |}).
  reflexivity.
Defined.

(** ** More on the fetch and on the files *)

Section FetchData.
Context {World : Type}.
Variable http_get : World -> text -> option pyval -> http_result * World.
Variable http_post_auth : World -> http_result * World.
Variable OUTPUT_FORMAT : format.

Lemma from_ok_none (dataset : text) :
  from_ok http_get OUTPUT_FORMAT dataset (ret (World := World) PNone).
Proof. intros s v s' [= <- <-]. now left. Qed.

Lemma from_ok_bind {A} (dataset : text) (m : M World A) (k : A -> M World pyval) :
  (forall a, from_ok http_get OUTPUT_FORMAT dataset (k a)) ->
  from_ok http_get OUTPUT_FORMAT dataset (bind m k).
Proof.
  intros Hk s v s'. unfold bind. destruct (m s) as [a s1]. apply Hk.
Qed.

Lemma from_ok_get (dataset : text) (k : http_result -> M World pyval) :
  from_ok http_get OUTPUT_FORMAT dataset (k Raised) ->
  (forall r, answered_by http_get dataset r ->
             from_ok http_get OUTPUT_FORMAT dataset (k (Answered r))) ->
  from_ok http_get OUTPUT_FORMAT dataset (bind (session_get http_get dataset) k).
Proof.
  intros Hr Ha s v s'. unfold bind, session_get.
  destruct (http_get (world s) dataset (authorization s)) as [[|r] w] eqn:G.
  - apply Hr.
  - apply Ha. now exists (world s), (authorization s), w.
Qed.

Lemma from_ok_attempts (n : nat) (dataset : text) :
  from_ok http_get OUTPUT_FORMAT dataset
    (fetch_loop http_get http_post_auth OUTPUT_FORMAT n dataset).
Proof.
  induction n as [|n IH]; [apply from_ok_none|].
  intros s a s'. rewrite fetch_loop_S. cbv zeta. revert s a s'.
  assert (Retry : from_ok http_get OUTPUT_FORMAT dataset
                    (match n with
                     | 0 => ret PNone
                     | S _ => bind (sleep (2 ^ S (max_retries - S n)))
                                   (fun _ => fetch_loop http_get http_post_auth
                                               OUTPUT_FORMAT n dataset)
                     end)).
  { destruct n; [apply from_ok_none|]. apply from_ok_bind. auto. }
  assert (Check : forall r, answered_by http_get dataset r ->
                  from_ok http_get OUTPUT_FORMAT dataset
                    (if negb (Z.eqb (status_code r) 200)
                     then match n with
                          | 0 => ret PNone
                          | S _ => bind (sleep (2 ^ S (max_retries - S n)))
                                        (fun _ => fetch_loop http_get http_post_auth
                                                    OUTPUT_FORMAT n dataset)
                          end
                     else ret (decode OUTPUT_FORMAT r))).
  { intros r Hr. destruct (Z.eqb (status_code r) 200) eqn:E; cbn [negb];
      [|exact Retry].
    apply Z.eqb_eq in E. intros s v s' [= <- <-]. right. eauto. }
  apply from_ok_get; [exact Retry|]. intros r Hr.
  destruct (Z.eqb (status_code r) 401); [|now apply Check].
  apply from_ok_bind. intros t. destruct (truthy t); [|apply from_ok_none].
  apply from_ok_get; [exact Retry|]. intros r2 Hr2.
  destruct (Z.eqb (status_code r2) 401); [apply from_ok_none|now apply Check].
Qed.

(** X19: a fetch gives data only from an answer with status 200: whatever
    it returns other than [None] is the decoded body of such an answer of
    the service to a request for that dataset, never the body of an
    error. *)
Theorem fetch_returns_only_ok_bodies (dataset : text) (s : scraper World) :
  fst (fetch_dataset http_get http_post_auth OUTPUT_FORMAT dataset s) = PNone \/
  exists r,
    answered_by http_get dataset r /\
    status_code r = 200%Z /\
    fst (fetch_dataset http_get http_post_auth OUTPUT_FORMAT dataset s)
    = decode OUTPUT_FORMAT r.
Proof.
  destruct (fetch_dataset http_get http_post_auth OUTPUT_FORMAT dataset s)
    as [v s'] eqn:E.
  exact (from_ok_attempts 3 dataset s v s' E).
Qed.
End FetchData.

Section MoreFiles.
Variable str_of : pyval -> text.

(** X20: a payload that is neither a list nor one of the two text wrappers
    is kept whole: when it is truthy the batch writes it twice, as the full
    result and as the file of unexpected data, both times as it came. *)
Theorem unexpected_payload_is_kept
    (OUTPUT_FORMAT : format) (dataset : text) (data : pyval) :
  truthy data = true ->
  (forall l, data <> PList l) ->
  (forall d, data = PDict d ->
             dict_has "raw_text" d = false /\ dict_has "csv_text" d = false) ->
  persisted str_of OUTPUT_FORMAT (dataset, data)
  = [(FullFile dataset OUTPUT_FORMAT_JSON, JsonDump data);
     (UnexpectedFile dataset, JsonDump data)].
Proof.
  intros T NL ND. unfold persisted. cbn [fst snd]. rewrite T.
  destruct data as [| |n|t|l|d]; try reflexivity.
  - now destruct (NL l).
  - destruct (ND d eq_refl) as [R C].
    cbn [save_dataset process_traffic_data]. rewrite R, C. cbn [orb].
    unfold dict_has in C. destruct (dict_get "csv_text" d); [discriminate|].
    reflexivity.
Qed.

Lemma filed_records (data : list pyval) (k : text) :
  In k (day_keys data) ->
  exists fields rest, filter (filed_under k) data = PDict fields :: rest.
Proof.
  unfold day_keys. rewrite in_flat_map. intros (r & Hr & Hk).
  destruct (record_day_key r) as [k'|] eqn:E; [|contradiction].
  destruct Hk as [->|[]].
  assert (F : In r (filter (filed_under k) data)).
  { apply filter_In. split; [assumption|].
    now rewrite (filed_under_key _ _ _ E), text_eqb_refl. }
  destruct (filter (filed_under k) data) as [|x rest] eqn:Fl; [contradiction|].
  assert (Hx : In x (filter (filed_under k) data)) by (rewrite Fl; now left).
  apply filter_In in Hx as [_ Hx]. unfold filed_under in Hx.
  destruct (record_day_key x) eqn:Ex; [|discriminate].
  destruct (record_day_key_inv _ _ Ex) as (fields & _ & -> & _). eauto.
Qed.

End MoreFiles.

Lemma unexpected_payload_is_kept_witness :
  persisted (fun _ => []) OUTPUT_FORMAT_CSV
    (lit "vkt", PDict [("error" : text, PStr "quota")])
  = [(FullFile (lit "vkt") OUTPUT_FORMAT_JSON,
      JsonDump (PDict [("error" : text, PStr "quota")]));
     (UnexpectedFile (lit "vkt"),
      JsonDump (PDict [("error" : text, PStr "quota")]))].
Proof.
  apply (unexpected_payload_is_kept (fun _ => []) OUTPUT_FORMAT_CSV (lit "vkt")
           (PDict [("error" : text, PStr "quota")])).
  - reflexivity.
  - discriminate.
  - intros d [= <-]. split; reflexivity.
Defined.

(** ** The day files and the disk *)

Section DayFiles.
Variable str_of : pyval -> text.
Variable opens : text -> bool.
Variable today : text.

Local Notation dashed := (replace_char "/"%char "-"%char).
Local Notation put := (store opens today).

Lemma store_app (ws1 ws2 : list (file * content)) (d : disk) :
  put (ws1 ++ ws2) d = put ws2 (put ws1 d).
Proof. apply fold_left_app. Qed.

(** A name that no file opened has, or that the file system refuses, keeps
    what it held. *)
Lemma store_kept (p : text) (ws : list (file * content)) (d : disk) :
  (forall w, In w ws -> filename today (fst w) = p -> opens p = false) ->
  dict_get p (put ws d) = dict_get p d.
Proof.
  unfold store. revert d.
  induction ws as [|w ws IH]; intros d H; cbn [fold_left]; [reflexivity|].
  rewrite IH by (intros w' Hw'; apply H; now right).
  unfold open_and_write.
  destruct (opens (filename today (fst w))) eqn:O; [|reflexivity].
  apply dict_get_set_other. intros E.
  pose proof (H w (or_introl eq_refl) E) as K. rewrite <- E in K. congruence.
Qed.

Lemma day_name_inj (dataset : text) (ext : format) (x y : text) :
  filename today (DayFile dataset x ext) = filename today (DayFile dataset y ext) ->
  x = y.
Proof.
  cbn [filename]. intros H.
  apply app_inv_head in H. apply app_inv_head in H. now apply app_inv_tail in H.
Qed.

(** The file of a day whose name opens holds what was written for the last
    of the keys that have that name. *)
Lemma store_day_files (dataset : text) (ext : format)
    (content_of : text -> content) (keys : list text) (d : disk) (k : text) :
  In k keys ->
  opens (filename today (DayFile dataset (dashed k) ext)) = true ->
  exists k',
    In k' keys /\ dashed k' = dashed k /\
    dict_get (filename today (DayFile dataset (dashed k) ext))
             (put (map (fun k => (DayFile dataset (dashed k) ext, content_of k)) keys) d)
    = Some (content_of k').
Proof.
  induction keys as [|x keys IH] using rev_ind; [contradiction|].
  intros Hin O. rewrite map_app, store_app. cbn [map]. unfold store at 1.
  cbn [fold_left]. unfold open_and_write. cbn [fst snd].
  destruct (text_eq_dec (filename today (DayFile dataset (dashed x) ext))
                        (filename today (DayFile dataset (dashed k) ext)))
    as [E|N].
  - rewrite E, O, dict_get_set. exists x.
    split; [apply in_or_app; right; now left|].
    split; [now apply day_name_inj in E|reflexivity].
  - assert (Hk : In k keys).
    { apply in_app_or in Hin as [Hin|[->|[]]]; [exact Hin|now destruct N]. }
    destruct (IH Hk O) as (k' & Hk' & Ek' & G).
    exists k'. split; [apply in_or_app; now left|]. split; [exact Ek'|].
    destruct (opens (filename today (DayFile dataset (dashed x) ext)));
      [rewrite dict_get_set_other by exact N|]; exact G.
Qed.

(** With day-keys that are no wrapper markers the code reaches its last
    loop, which goes through the days in the order of the keys. *)
Lemma day_loop_reached (OUTPUT_FORMAT : format) (data : list pyval) (dataset : text) :
  (forall k, In k reserved_keys -> ~ In k (day_keys data)) ->
  save_data_by_day str_of OUTPUT_FORMAT (process_traffic_data (PList data)) dataset
  = flat_map (fun k => save_day str_of OUTPUT_FORMAT dataset
                         (k, PList (filter (filed_under k) data)))
             (distinct (day_keys data)).
Proof.
  intros R.
  assert (Free : forall k, In k reserved_keys ->
                   dict_get k (process_traffic_data (PList data)) = None).
  { intros k Hk. apply dict_get_keys.
    rewrite partition_entries. unfold dict_keys. rewrite map_map. cbn [fst].
    rewrite map_id. unfold distinct. rewrite add_keys_In.
    intros [[]|H]. now apply (R k). }
  unfold save_data_by_day, dict_has.
  rewrite (Free "csv_text"), (Free "raw_text"), (Free "unexpected_format")
    by (cbn; tauto).
  rewrite partition_entries.
  induction (distinct (day_keys data)) as [|k ks IH]; cbn [map flat_map];
    [reflexivity|].
  now rewrite IH.
Qed.

Lemma distinct_In (k : text) (ks : list text) : In k (distinct ks) <-> In k ks.
Proof. unfold distinct. rewrite add_keys_In. cbn [In]. tauto. Qed.

Lemma json_days_opened (data : list pyval) (dataset : text) :
  (forall k, In k reserved_keys -> ~ In k (day_keys data)) ->
  save_data_by_day str_of OUTPUT_FORMAT_JSON (process_traffic_data (PList data))
                   dataset
  = map (fun k => (DayFile dataset (dashed k) OUTPUT_FORMAT_JSON,
                   JsonDump (PList (filter (filed_under k) data))))
        (distinct (day_keys data)).
Proof.
  intros R. rewrite (day_loop_reached OUTPUT_FORMAT_JSON data dataset R).
  induction (distinct (day_keys data)) as [|k ks IH]; cbn [map flat_map];
    [reflexivity|].
  now rewrite IH.
Qed.

Lemma json_days_stored (data : list pyval) (dataset : text) (d : disk) (k : text) :
  (forall k, In k reserved_keys -> ~ In k (day_keys data)) ->
  In k (day_keys data) ->
  opens (filename today (DayFile dataset (dashed k) OUTPUT_FORMAT_JSON)) = true ->
  exists k',
    In k' (day_keys data) /\ dashed k' = dashed k /\
    dict_get (filename today (DayFile dataset (dashed k) OUTPUT_FORMAT_JSON))
             (put (save_data_by_day str_of OUTPUT_FORMAT_JSON
                     (process_traffic_data (PList data)) dataset) d)
    = Some (JsonDump (PList (filter (filed_under k') data))).
Proof.
  intros R Hk O. rewrite (json_days_opened data dataset R).
  destruct (store_day_files dataset OUTPUT_FORMAT_JSON
              (fun k => JsonDump (PList (filter (filed_under k) data)))
              (distinct (day_keys data)) d k)
    as (k' & Hk' & E & G); [now apply distinct_In|exact O|].
  exists k'. split; [now apply distinct_In|]. split; [exact E|exact G].
Qed.

(** X9: with JSON output, and no day-key that is one of the wrapper
    markers, [save_data_by_day] opens one file for each distinct day-key, in
    the order of the keys' first records, to write the records of that key
    in input order.  The name has the key with dashes for slashes, so two
    keys have one and the same name exactly when they differ in that only.
    A name that the file system refuses keeps what it held, and the other
    days are written all the same; the file of a name that opens holds the
    records of a key with that name, which is the key itself when no other
    key shares the name. *)
Theorem json_day_files_follow_the_keys
    (data : list pyval) (dataset : text) (d : disk) :
  (forall k, In k reserved_keys -> ~ In k (day_keys data)) ->
  let ws := save_data_by_day str_of OUTPUT_FORMAT_JSON
              (process_traffic_data (PList data)) dataset in
  let name := fun k => filename today (DayFile dataset (dashed k)
                                               OUTPUT_FORMAT_JSON) in
  ws = map (fun k => (DayFile dataset (dashed k) OUTPUT_FORMAT_JSON,
                      JsonDump (PList (filter (filed_under k) data))))
           (distinct (day_keys data)) /\
  (forall k k', name k = name k' <-> dashed k = dashed k') /\
  (forall k, ~ In "/"%char (dashed k)) /\
  (forall p, opens p = false -> dict_get p (put ws d) = dict_get p d) /\
  (forall k, In k (day_keys data) -> opens (name k) = true ->
     exists k',
       In k' (day_keys data) /\ dashed k' = dashed k /\
       dict_get (name k) (put ws d)
       = Some (JsonDump (PList (filter (filed_under k') data)))) /\
  (forall k, In k (day_keys data) -> opens (name k) = true ->
     (forall k', In k' (day_keys data) -> dashed k' = dashed k -> k' = k) ->
     dict_get (name k) (put ws d)
     = Some (JsonDump (PList (filter (filed_under k) data)))).
Proof.
  intros R ws name.
  split; [exact (json_days_opened data dataset R)|].
  split; [|split; [|split; [|split]]].
  - intros k k'. unfold name. split; [apply day_name_inj|now intros ->].
  - intros k. apply replace_char_removes. discriminate.
  - intros p O. apply store_kept. auto.
  - intros k Hk O. exact (json_days_stored data dataset d k R Hk O).
  - intros k Hk O U.
    destruct (json_days_stored data dataset d k R Hk O) as (k' & Hk' & E & G).
    now rewrite (U k' Hk' E) in G.
Qed.

(** X21: with CSV output, and no day-key that is one of the wrapper
    markers, every day of the partition gets as far as opening its file, in
    the order of the keys, and what is written is the CSV text of that
    day's records, even when it stops early.  Names, refusals and shared
    names are as for JSON output. *)
Theorem csv_day_files_follow_the_keys
    (data : list pyval) (dataset : text) (d : disk) :
  (forall k, In k reserved_keys -> ~ In k (day_keys data)) ->
  let ws := save_data_by_day str_of OUTPUT_FORMAT_CSV
              (process_traffic_data (PList data)) dataset in
  let name := fun k => filename today (DayFile dataset (dashed k)
                                               OUTPUT_FORMAT_CSV) in
  ws = map (fun k => (DayFile dataset (dashed k) OUTPUT_FORMAT_CSV,
                      Written (day_csv_text str_of (filter (filed_under k) data))))
           (distinct (day_keys data)) /\
  (forall k, In k (day_keys data) ->
     day_csv str_of (filter (filed_under k) data) <> None) /\
  (forall k k', name k = name k' <-> dashed k = dashed k') /\
  (forall p, opens p = false -> dict_get p (put ws d) = dict_get p d) /\
  (forall k, In k (day_keys data) -> opens (name k) = true ->
     exists k',
       In k' (day_keys data) /\ dashed k' = dashed k /\
       dict_get (name k) (put ws d)
       = Some (Written (day_csv_text str_of (filter (filed_under k') data)))) /\
  (forall k, In k (day_keys data) -> opens (name k) = true ->
     (forall k', In k' (day_keys data) -> dashed k' = dashed k -> k' = k) ->
     dict_get (name k) (put ws d)
     = Some (Written (day_csv_text str_of (filter (filed_under k) data)))).
Proof.
  intros R ws name.
  assert (Opened : forall k, In k (day_keys data) ->
            exists out ok, day_csv str_of (filter (filed_under k) data)
                           = Some (out, ok)).
  { intros k Hk. destruct (filed_records data k Hk) as (fields & rest & E).
    rewrite E. cbn [day_csv]. destruct (writerows _ _ _). eauto. }
  assert (W : ws = map (fun k => (DayFile dataset (dashed k) OUTPUT_FORMAT_CSV,
                                  Written (day_csv_text str_of
                                             (filter (filed_under k) data))))
                       (distinct (day_keys data))).
  { unfold ws. rewrite (day_loop_reached OUTPUT_FORMAT_CSV data dataset R).
    assert (K : Forall (fun k => In k (day_keys data)) (distinct (day_keys data)))
      by (apply Forall_forall; intros k; apply distinct_In).
    induction K as [|k ks Hk K IH]; cbn [map flat_map]; [reflexivity|].
    rewrite IH. cbn [save_day]. unfold day_csv_text.
    destruct (Opened k Hk) as (out & ok & E). now rewrite E. }
  assert (Some_key : forall k, In k (day_keys data) -> opens (name k) = true ->
            exists k',
              In k' (day_keys data) /\ dashed k' = dashed k /\
              dict_get (name k) (put ws d)
              = Some (Written (day_csv_text str_of
                                 (filter (filed_under k') data)))).
  { intros k Hk O. rewrite W.
    destruct (store_day_files dataset OUTPUT_FORMAT_CSV
                (fun k => Written (day_csv_text str_of
                                     (filter (filed_under k) data)))
                (distinct (day_keys data)) d k)
      as (k' & Hk' & E & G); [now apply distinct_In|exact O|].
    exists k'. split; [now apply distinct_In|]. split; [exact E|exact G]. }
  split; [exact W|]. split; [|split; [|split; [|split]]].
  - intros k Hk. destruct (Opened k Hk) as (out & ok & E). congruence.
  - intros k k'. unfold name. split; [apply day_name_inj|now intros ->].
  - intros p O. apply store_kept. auto.
  - exact Some_key.
  - intros k Hk O U. destruct (Some_key k Hk O) as (k' & Hk' & E & G).
    now rewrite (U k' Hk' E) in G.
Qed.

End DayFiles.

Lemma json_day_files_follow_the_keys_witness :
  save_data_by_day (fun _ => []) OUTPUT_FORMAT_JSON
    (process_traffic_data
       (PList [PDict [("datum" : text, PStr "05/01")];
               PDict [("datum" : text, PStr "2024-05-01 10:00")];
               PDict [("datum" : text, PStr "05-01 11:00")]]))
    (lit "vkt")
  = [(DayFile (lit "vkt") (lit "05-01") OUTPUT_FORMAT_JSON,
      JsonDump (PList [PDict [("datum" : text, PStr "05/01")]]));
     (DayFile (lit "vkt") (lit "2024-05-01") OUTPUT_FORMAT_JSON,
      JsonDump (PList [PDict [("datum" : text, PStr "2024-05-01 10:00")]]));
     (DayFile (lit "vkt") (lit "05-01") OUTPUT_FORMAT_JSON,
      JsonDump (PList [PDict [("datum" : text, PStr "05-01 11:00")]]))] /\
  dict_get (lit "vkt_2024-05-01.json")
    (store (fun p => negb (text_eqb p (lit "vkt_05-01.json"))) (lit "2024-05-02")
       (save_data_by_day (fun _ => []) OUTPUT_FORMAT_JSON
          (process_traffic_data
             (PList [PDict [("datum" : text, PStr "05/01")];
                     PDict [("datum" : text, PStr "2024-05-01 10:00")];
                     PDict [("datum" : text, PStr "05-01 11:00")]]))
          (lit "vkt")) [])
  = Some (JsonDump (PList [PDict [("datum" : text, PStr "2024-05-01 10:00")]])) /\
  dict_get (lit "vkt_05-01.json")
    (store (fun p => negb (text_eqb p (lit "vkt_05-01.json"))) (lit "2024-05-02")
       (save_data_by_day (fun _ => []) OUTPUT_FORMAT_JSON
          (process_traffic_data
             (PList [PDict [("datum" : text, PStr "05/01")];
                     PDict [("datum" : text, PStr "2024-05-01 10:00")];
                     PDict [("datum" : text, PStr "05-01 11:00")]]))
          (lit "vkt")) [])
  = None.
Proof.
  destruct (json_day_files_follow_the_keys (fun _ => [])
              (fun p => negb (text_eqb p (lit "vkt_05-01.json"))) (lit "2024-05-02")
              [PDict [("datum" : text, PStr "05/01")];
               PDict [("datum" : text, PStr "2024-05-01 10:00")];
               PDict [("datum" : text, PStr "05-01 11:00")]] (lit "vkt") [])
    as (W & _ & _ & Kept & _ & Own).
  - intros k Hk Hin. cbn in Hk, Hin.
    repeat destruct Hk as [<-|Hk]; try contradiction;
      repeat destruct Hin as [Hin|Hin]; try discriminate; contradiction.
  - split; [exact W|]. split.
    + apply (Own (lit "2024-05-01")).
      * right. left. reflexivity.
      * reflexivity.
      * intros k' Hin E. cbn in Hin.
        repeat destruct Hin as [<-|Hin]; try contradiction;
          try reflexivity; vm_compute in E; discriminate E.
    + apply (Kept (lit "vkt_05-01.json")). reflexivity.
Defined.

Lemma csv_day_files_follow_the_keys_witness :
  map fst (save_data_by_day (fun _ => lit "4") OUTPUT_FORMAT_CSV
             (process_traffic_data
                (PList [PDict [("datum" : text, PStr "05/01")];
                        PDict [("datum" : text, PStr "2024-05-01 10:00");
                               ("pkw" : text, PInt 4)]]))
             (lit "vkt"))
  = [DayFile (lit "vkt") (lit "05-01") OUTPUT_FORMAT_CSV;
     DayFile (lit "vkt") (lit "2024-05-01") OUTPUT_FORMAT_CSV] /\
  dict_get (lit "vkt_2024-05-01.csv")
    (store (fun _ => true) (lit "2024-05-02")
       (save_data_by_day (fun _ => lit "4") OUTPUT_FORMAT_CSV
          (process_traffic_data
             (PList [PDict [("datum" : text, PStr "05/01")];
                     PDict [("datum" : text, PStr "2024-05-01 10:00");
                            ("pkw" : text, PInt 4)]]))
          (lit "vkt")) [])
  = Some (Written (writerow CRLF [lit "datum"; lit "pkw"] ++
                   writerow CRLF [lit "2024-05-01 10:00"; lit "4"])).
Proof.
  destruct (csv_day_files_follow_the_keys (fun _ => lit "4")
              (fun _ => true) (lit "2024-05-02")
              [PDict [("datum" : text, PStr "05/01")];
               PDict [("datum" : text, PStr "2024-05-01 10:00");
                      ("pkw" : text, PInt 4)]] (lit "vkt") [])
    as (W & _ & _ & _ & _ & Own).
  - intros k Hk Hin. cbn in Hk, Hin.
    repeat destruct Hk as [<-|Hk]; try contradiction;
      repeat destruct Hin as [Hin|Hin]; try discriminate; contradiction.
  - split; [now rewrite W|].
    apply (Own (lit "2024-05-01")).
    + right. left. reflexivity.
    + reflexivity.
    + intros k' Hin E. cbn in Hin.
      repeat destruct Hin as [<-|Hin]; try contradiction;
        try reflexivity; vm_compute in E; discriminate E.
Defined.


(** ** The command line: leaving at the prompt *)

Section PromptExit.
Context {World : Type}.
Variable http_get : World -> text -> option pyval -> http_result * World.
Variable http_post_auth : World -> http_result * World.
Variable str_of : pyval -> text.
Variable DATASETS : list text.

Local Notation renew := (get_auth_token http_post_auth).
Local Notation main' := (main http_get http_post_auth str_of DATASETS).

(** X16: without a token on the command line, a prompt for the token that
    gets a blank line, or no line at all, ends the process with status 1
    and nothing is fetched.  With [--prompt-token] nothing has been sent at
    all; without it the one automatic token request has been sent and has
    given no token, and the process ends there when the question that
    follows gets no line, or gets a yes and the prompt then gets no
    token. *)
Theorem no_token_at_the_prompt_ends_the_run
    (args : arguments) (stdin : list text) (w : World) :
  token_given (arg_token args) = false ->
  let s0 := {| world := w; authorization := None; trace := [] |} in
  (arg_prompt_token args = true ->
   stdin = [] \/ (exists line rest, stdin = line :: rest /\ strip line = []) ->
   main' args stdin w = (Exit1, s0)) /\
  (arg_prompt_token args = false ->
   truthy (fst (renew s0)) = false ->
   trace (snd (renew s0)) = [EvAuthPost] /\
   (stdin = [] -> main' args stdin w = (Exit1, snd (renew s0))) /\
   (forall answer rest,
       stdin = answer :: rest -> answers_yes answer = true ->
       rest = [] \/ (exists line rest', rest = line :: rest' /\ strip line = []) ->
       main' args stdin w = (Exit1, snd (renew s0)))).
Proof.
  intros TG s0.
  assert (FT : first_token args stdin =
               if arg_prompt_token args
               then match prompt_for_token stdin with
                    | Token t' rest => Some (Some t', rest)
                    | _ => None
                    end
               else Some (None, stdin)).
  { unfold first_token. unfold token_given in TG.
    destruct (arg_token args) as [t|]; [rewrite TG|]; reflexivity. }
  assert (No : forall lines,
            lines = [] \/ (exists line rest, lines = line :: rest /\ strip line = []) ->
            prompt_for_token lines = SysExit \/ prompt_for_token lines = EndOfInput).
  { intros lines [->|(line & rest & -> & E)]; [now right|left].
    unfold prompt_for_token, input. now rewrite E. }
  split.
  - intros P E. unfold main. rewrite FT, P.
    destruct (No stdin E) as [-> | ->]; reflexivity.
  - intros P F.
    assert (T : trace (snd (renew s0)) = [EvAuthPost]).
    { destruct (renew s0) as [t s1] eqn:R.
      now destruct (get_auth_token_spec _ _ _ _ R) as (T & _). }
    split; [exact T|].
    assert (M : main' args stdin w =
                match input stdin with
                | None => (Exit1, snd (renew s0))
                | Some (line, stdin') =>
                    if answers_yes line
                    then match prompt_for_token stdin' with
                         | Token t _ =>
                             let (success, s') :=
                               fetch_and_save_all_datasets http_get http_post_auth
                                 (arg_format args) str_of
                                 (chosen_datasets DATASETS args)
                                 (snd (set_auth_token (PStr t) (snd (renew s0)))) in
                             (Finished success, s')
                         | _ => (Exit1, snd (renew s0))
                         end
                    else
                      let (success, s') :=
                        fetch_and_save_all_datasets http_get http_post_auth
                          (arg_format args) str_of (chosen_datasets DATASETS args)
                          (snd (renew s0)) in
                      (Finished success, s')
                end).
    { unfold main. rewrite FT, P. cbv zeta. cbn [token_given new_scraper].
      fold s0. destruct (renew s0) as [t s1]. cbn [fst snd] in *. rewrite F.
      reflexivity. }
    split.
    + intros ->. rewrite M. reflexivity.
    + intros answer rest -> Y E. rewrite M. cbn [input]. rewrite Y.
      destruct (No rest E) as [-> | ->]; reflexivity.
Qed.
End PromptExit.

Lemma no_token_at_the_prompt_ends_the_run_witness :
  main script_get script_post (fun _ => []) [lit "vkt"]
    {| arg_token := None; arg_prompt_token := false;
       arg_format := OUTPUT_FORMAT_JSON; arg_datasets := None |}
    [lit "yes"; lit "   "]
    {| gets := [answer 200 (Some (PList [PInt 1]))]; posts := [answer 403 None] |}
  = (Exit1,
     {| world := {| gets := [answer 200 (Some (PList [PInt 1]))]; posts := [] |};
        authorization := None; trace := [EvAuthPost] |}).
Proof.
  destruct (no_token_at_the_prompt_ends_the_run script_get script_post
              (fun _ => []) [lit "vkt"]
              {| arg_token := None; arg_prompt_token := false;
                 arg_format := OUTPUT_FORMAT_JSON; arg_datasets := None |}
              [lit "yes"; lit "   "]
              {| gets := [answer 200 (Some (PList [PInt 1]))];
                 posts := [answer 403 None] |} eq_refl) as [_ Auto].
  destruct (Auto eq_refl eq_refl) as (_ & _ & Yes).
  apply (Yes (lit "yes") [lit "   "] eq_refl eq_refl).
  right. exists (lit "   "), []. split; reflexivity.
Defined.
